(** * mcp-ace: the incremental index manager, embedded and verified

    A shallow embedding of [IndexManager] (content hasher, exclusion
    matcher, chunker, retry policy, incremental indexing pass and search
    orchestration) together with the properties its design document states
    about them.

    Conventions of the embedding.
    - A JavaScript string is a Rocq [string]; its characters stand for the
      code units of the source string (for the hasher: for the bytes fed to
      the digest).
    - Numbers that count things (line counts, batch sizes, delays in
      milliseconds, HTTP status codes) are [nat]; the 32-bit words of the
      digest are [Z] with the wrap-around written out.
    - The persisted object [{ projectPath: string[] }] is a
      [gmap string (list string)].
    - Everything the manager obtains from outside (the filesystem walk, the
      content of the projects file, the outcome of every HTTP attempt) is a
      field of an explicit environment record, and every effect it causes
      (an upload attempt, a backoff wait, a save) is recorded in a log.
    - Exceptions are values: effectful code lives in a state-and-exception
      monad with an explicit [try_catch].

    The embedding comes first, then the functions that observe a run and
    the sample inputs, then the properties. *)

From Stdlib Require Import ZArith Ascii String.
From stdpp Require Import gmap strings list pretty.

Local Open Scope string_scope.
Local Open Scope list_scope.

(** ** Strings as character lists *)

Fixpoint chars (s : string) : list ascii :=
  match s with
  | EmptyString => []
  | String c r => c :: chars r
  end.

Fixpoint of_chars (l : list ascii) : string :=
  match l with
  | [] => EmptyString
  | c :: r => String c (of_chars r)
  end.

(** ** SHA-256 (the digest behind [crypto.createHash('sha256')]) *)

Module SHA256.
Local Open Scope Z_scope.

(** Wrap-around to 32 bits: keep the low 32 bits. *)
Definition mask32 : Z := 0xFFFFFFFF.
Definition wrap (x : Z) : Z := Z.land x mask32.
Definition add32 (x y : Z) : Z := wrap (x + y).
Definition not32 (x : Z) : Z := Z.lxor x mask32.
Definition rotr (n x : Z) : Z :=
  Z.lor (Z.shiftr x n) (wrap (Z.shiftl x (32 - n))).

Definition Ch (x y z : Z) : Z := Z.lxor (Z.land x y) (Z.land (not32 x) z).
Definition Maj (x y z : Z) : Z :=
  Z.lxor (Z.lxor (Z.land x y) (Z.land x z)) (Z.land y z).
Definition bsig0 (x : Z) : Z := Z.lxor (Z.lxor (rotr 2 x) (rotr 13 x)) (rotr 22 x).
Definition bsig1 (x : Z) : Z := Z.lxor (Z.lxor (rotr 6 x) (rotr 11 x)) (rotr 25 x).
Definition ssig0 (x : Z) : Z := Z.lxor (Z.lxor (rotr 7 x) (rotr 18 x)) (Z.shiftr x 3).
Definition ssig1 (x : Z) : Z := Z.lxor (Z.lxor (rotr 17 x) (rotr 19 x)) (Z.shiftr x 10).

(** Round constants, four to a row. *)
Definition round_constants : list Z :=
  [ 0x428A2F98; 0x71374491; 0xB5C0FBCF; 0xE9B5DBA5 ] ++
  [ 0x3956C25B; 0x59F111F1; 0x923F82A4; 0xAB1C5ED5 ] ++
  [ 0xD807AA98; 0x12835B01; 0x243185BE; 0x550C7DC3 ] ++
  [ 0x72BE5D74; 0x80DEB1FE; 0x9BDC06A7; 0xC19BF174 ] ++
  [ 0xE49B69C1; 0xEFBE4786; 0x0FC19DC6; 0x240CA1CC ] ++
  [ 0x2DE92C6F; 0x4A7484AA; 0x5CB0A9DC; 0x76F988DA ] ++
  [ 0x983E5152; 0xA831C66D; 0xB00327C8; 0xBF597FC7 ] ++
  [ 0xC6E00BF3; 0xD5A79147; 0x06CA6351; 0x14292967 ] ++
  [ 0x27B70A85; 0x2E1B2138; 0x4D2C6DFC; 0x53380D13 ] ++
  [ 0x650A7354; 0x766A0ABB; 0x81C2C92E; 0x92722C85 ] ++
  [ 0xA2BFE8A1; 0xA81A664B; 0xC24B8B70; 0xC76C51A3 ] ++
  [ 0xD192E819; 0xD6990624; 0xF40E3585; 0x106AA070 ] ++
  [ 0x19A4C116; 0x1E376C08; 0x2748774C; 0x34B0BCB5 ] ++
  [ 0x391C0CB3; 0x4ED8AA4A; 0x5B9CCA4F; 0x682E6FF3 ] ++
  [ 0x748F82EE; 0x78A5636F; 0x84C87814; 0x8CC70208 ] ++
  [ 0x90BEFFFA; 0xA4506CEB; 0xBEF9A3F7; 0xC67178F2 ].

(** The eight working words. *)
Record state := State {
  wa : Z; wb : Z; wc : Z; wd : Z; we : Z; wf : Z; wg : Z; wh : Z
}.

Definition initial : state :=
  State 0x6A09E667 0xBB67AE85 0x3C6EF372 0xA54FF53A
        0x510E527F 0x9B05688C 0x1F83D9AB 0x5BE0CD19.

(** Padding: the byte 0x80, zero bytes up to 56 modulo 64, then the bit
    length as a 64-bit big-endian integer. *)
Definition be_bytes (n : nat) (x : Z) : list Z :=
  map (fun i => Z.land (Z.shiftr x (8 * Z.of_nat (n - 1 - i))) 255) (seq 0 n).

Definition pad (msg : list Z) : list Z :=
  let len := length msg in
  let zeros := ((64 - (len + 9) mod 64) mod 64)%nat in
  msg ++ [128] ++ replicate zeros 0 ++ be_bytes 8 (8 * Z.of_nat len).

Definition be_word (bs : list Z) : Z :=
  fold_left (fun acc b => acc * 256 + b) bs 0.

(** [groups n k l]: the first [k] consecutive groups of [n] elements. *)
Fixpoint groups {A} (n k : nat) (l : list A) : list (list A) :=
  match k with
  | O => []
  | S k' => take n l :: groups n k' (drop n l)
  end.

Definition block_words (block : list Z) : list Z :=
  map be_word (groups 4 16 block).

(** Message schedule, extended from 16 to 64 words. *)
Fixpoint extend (k : nat) (ws : list Z) : list Z :=
  match k with
  | O => ws
  | S k' =>
      let t := length ws in
      let x i := nth (t - i) ws 0 in
      extend k' (ws ++ [add32 (add32 (add32 (ssig1 (x 2%nat)) (x 7%nat))
                                     (ssig0 (x 15%nat))) (x 16%nat)])
  end.

Definition round (s : state) (kw : Z * Z) : state :=
  let t1 := add32 (add32 (add32 (add32 (wh s) (bsig1 (we s)))
                                (Ch (we s) (wf s) (wg s))) (fst kw)) (snd kw) in
  let t2 := add32 (bsig0 (wa s)) (Maj (wa s) (wb s) (wc s)) in
  State (add32 t1 t2) (wa s) (wb s) (wc s) (add32 (wd s) t1) (we s) (wf s) (wg s).

Definition compress (h : state) (block : list Z) : state :=
  let ws := extend 48 (block_words block) in
  let s := fold_left round (zip round_constants ws) h in
  State (add32 (wa h) (wa s)) (add32 (wb h) (wb s))
        (add32 (wc h) (wc s)) (add32 (wd h) (wd s))
        (add32 (we h) (we s)) (add32 (wf h) (wf s))
        (add32 (wg h) (wg s)) (add32 (wh h) (wh s)).

Definition digest (msg : list Z) : state :=
  let p := pad msg in
  fold_left compress (groups 64 (length p / 64) p) initial.

(** Lower-case hexadecimal rendering, as [digest('hex')] gives it. *)
Definition hex_digit (n : Z) : ascii :=
  match Z.land n 15 with
  | 0 => "0" | 1 => "1" | 2 => "2" | 3 => "3"
  | 4 => "4" | 5 => "5" | 6 => "6" | 7 => "7"
  | 8 => "8" | 9 => "9" | 10 => "a" | 11 => "b"
  | 12 => "c" | 13 => "d" | 14 => "e" | _ => "f"
  end%char.

Definition hex_word (x : Z) (rest : string) : string :=
  String (hex_digit (Z.shiftr x 28)) (String (hex_digit (Z.shiftr x 24))
 (String (hex_digit (Z.shiftr x 20)) (String (hex_digit (Z.shiftr x 16))
 (String (hex_digit (Z.shiftr x 12)) (String (hex_digit (Z.shiftr x 8))
 (String (hex_digit (Z.shiftr x 4))  (String (hex_digit x) rest))))))).

Definition hex (s : state) : string :=
  hex_word (wa s) (hex_word (wb s) (hex_word (wc s) (hex_word (wd s)
 (hex_word (we s) (hex_word (wf s) (hex_word (wg s) (hex_word (wh s) ""))))))).

Definition byte_of (c : ascii) : Z := Z.of_N (N_of_ascii c).
End SHA256.

(** The [Hash] object of Node's crypto module: [update] appends to the
    data seen so far, [digest('hex')] renders the digest of all of it. *)
Module Hasher.
Definition t := list Z.
Definition createHash : t := [].
Definition update (h : t) (data : string) : t :=
  h ++ map SHA256.byte_of (chars data).
Definition digest_hex (h : t) : string := SHA256.hex (SHA256.digest h).
End Hasher.

(** [IndexManager.calculateHash]. *)
Definition calculateHash (filePath content : string) : string :=
  let hasher := Hasher.createHash in
  let hasher := Hasher.update hasher filePath in
  let hasher := Hasher.update hasher content in
  Hasher.digest_hex hasher.

Definition is_hex_digit (c : ascii) : bool :=
  bool_decide (c ∈ chars "0123456789abcdef").

(** ** String helpers of the JavaScript runtime *)

(** [s.split(sep)] for a one-character separator: never empty, the empty
    string splits into one empty piece. *)
Fixpoint split_on (sep : ascii) (s : string) : list string :=
  match s with
  | EmptyString => [""]
  | String c r =>
      if bool_decide (c = sep) then "" :: split_on sep r
      else match split_on sep r with
           | h :: t => String c h :: t
           | [] => [String c ""]
           end
  end.

(** [pieces.join(sep)]. *)
Fixpoint join_with (sep : ascii) (pieces : list string) : string :=
  match pieces with
  | [] => ""
  | [x] => x
  | x :: rest => x +:+ String sep (join_with sep rest)
  end.

(** [s.replace(/c/g, rep)] for a single literal character [c]. *)
Fixpoint replace_all (c : ascii) (rep : string) (s : string) : string :=
  match s with
  | EmptyString => ""
  | String x r =>
      if bool_decide (x = c) then rep +:+ replace_all c rep r
      else String x (replace_all c rep r)
  end.

(** [arr.slice(start, end)] for [0 <= start] and [0 <= end]. *)
Definition slice {A} (start stop : nat) (l : list A) : list A :=
  take (stop - start) (drop start l).

(** [Math.ceil(a / b)] on non-negative integers with [0 < b]. For [b = 0]
    the source computes [Infinity] and its loops do not end; the
    configuration validator rejects such a value and the theorems below
    assume [0 < b]. *)
Definition ceil_div (a b : nat) : nat := (a + (b - 1)) / b.

Definition newline : ascii := "010"%char.
Definition carriage_return : ascii := "013"%char.

(** ** Exclusion matcher *)

(** The fragment of regular-expression source text that the embedding
    interprets: literal characters, an escaped syntax character, the
    dot, and the postfix quantifiers [*] and [+], between the anchors [^]
    and [$] that [matchPattern] always adds. *)
Module RegExp.
Inductive atom := Lit (c : ascii) | Dot.
Inductive quant := One | Star | Plus.
Definition items := list (atom * quant).

Inductive compiled :=
| Regex (r : items)     (* ^ items $ *)
| SyntaxError           (* the constructor throws *)
| Unmodelled.           (* valid or not, outside the fragment *)

Definition syntax_chars : list ascii := chars "^$\.*+?()[]{}|".
Definition is_syntax_char (c : ascii) : bool := bool_decide (c ∈ syntax_chars).
Definition is_escapable (c : ascii) : bool :=
  is_syntax_char c || bool_decide (c = "/"%char).

(** Reads the source after the leading [^]; [acc] holds the items read so
    far, last one first. A quantifier needs an unquantified atom before
    it ("nothing to repeat" otherwise). *)
Fixpoint parse (src : list ascii) (acc : items) : compiled :=
  match src with
  | [] => Unmodelled
  | c :: rest =>
      if bool_decide (c = "\"%char) then
        match rest with
        | [] => SyntaxError
        | x :: rest' =>
            if is_escapable x then parse rest' ((Lit x, One) :: acc)
            else Unmodelled
        end
      else if bool_decide (c = "$"%char) then
        match rest with
        | [] => Regex (rev acc)
        | _ :: _ => Unmodelled
        end
      else if bool_decide (c = "."%char) then parse rest ((Dot, One) :: acc)
      else if bool_decide (c = "*"%char) then
        match acc with
        | (a, One) :: acc' => parse rest ((a, Star) :: acc')
        | _ => SyntaxError
        end
      else if bool_decide (c = "+"%char) then
        match acc with
        | (a, One) :: acc' => parse rest ((a, Plus) :: acc')
        | _ => SyntaxError
        end
      else if is_syntax_char c then Unmodelled
      else parse rest ((Lit c, One) :: acc)
  end.

(** [new RegExp(source)] *)
Definition compile (source : string) : compiled :=
  match chars source with
  | c :: rest => if bool_decide (c = "^"%char) then parse rest [] else Unmodelled
  | [] => Unmodelled
  end.

(** Without the [s] flag the dot matches any character but a line
    terminator. *)
Definition is_line_terminator (c : ascii) : bool :=
  bool_decide (c = newline) || bool_decide (c = carriage_return).

Definition atom_matches (a : atom) (c : ascii) : bool :=
  match a with
  | Lit x => bool_decide (x = c)
  | Dot => negb (is_line_terminator c)
  end.

(** Whole-string match of an item sequence. *)
Fixpoint matches (r : items) (s : list ascii) : bool :=
  match r with
  | [] => match s with [] => true | _ :: _ => false end
  | (a, q) :: r' =>
      let fix repeat (s : list ascii) : bool :=
        matches r' s ||
        match s with
        | c :: s' => atom_matches a c && repeat s'
        | [] => false
        end in
      match q with
      | One => match s with
               | c :: s' => atom_matches a c && matches r' s'
               | [] => false
               end
      | Star => repeat s
      | Plus => match s with
                | c :: s' => atom_matches a c && repeat s'
                | [] => false
                end
      end
  end.
End RegExp.

Inductive match_result :=
| Matched (b : bool)
| MatchThrows
| MatchUnmodelled.

(** [IndexManager.matchPattern] *)
Definition regexPattern (pattern : string) : string :=
  replace_all "?" "." (replace_all "*" ".*" (replace_all "." "\." pattern)).

Definition matchPattern (str pattern : string) : match_result :=
  match RegExp.compile ("^" +:+ regexPattern pattern +:+ "$") with
  | RegExp.Regex r => Matched (RegExp.matches r (chars str))
  | RegExp.SyntaxError => MatchThrows
  | RegExp.Unmodelled => MatchUnmodelled
  end.

(** The part of [Config] that the index manager reads. *)
Record Config := {
  batchSize : nat;
  maxLinesPerBlob : nat;
  excludePatterns : list string
}.


(** What Node's [path] module contributes: the separator and
    [path.relative], [None] standing for a call that throws. *)
Record PathModule := {
  path_sep : ascii;
  path_relative : string -> string -> option string
}.

(** The two loops of [shouldExclude]. [None]: some pattern that had to be
    tried lies outside the interpreted fragment. [Some (inr tt)]: a call
    threw. *)
Fixpoint anyPartMatches (parts : list string) (pattern : string)
  : option (bool + unit) :=
  match parts with
  | [] => Some (inl false)
  | part :: rest =>
      match matchPattern part pattern with
      | Matched true => Some (inl true)
      | Matched false => anyPartMatches rest pattern
      | MatchThrows => Some (inr tt)
      | MatchUnmodelled => None
      end
  end.

Fixpoint excludeLoop (patterns : list string) (parts : list string)
    (relativePath : string) : option (bool + unit) :=
  match patterns with
  | [] => Some (inl false)
  | pattern :: rest =>
      match anyPartMatches parts pattern with
      | Some (inl false) =>
          match matchPattern relativePath pattern with
          | Matched true => Some (inl true)
          | Matched false => excludeLoop rest parts relativePath
          | MatchThrows => Some (inr tt)
          | MatchUnmodelled => None
          end
      | other => other
      end
  end.

(** [IndexManager.shouldExclude]: the [try] block with its [catch]. *)
Definition shouldExclude (pm : PathModule) (cfg : Config)
    (filePath rootPath : string) : option bool :=
  match path_relative pm rootPath filePath with
  | None => Some false
  | Some relativePath =>
      let parts := split_on (path_sep pm) relativePath in
      match excludeLoop (excludePatterns cfg) parts relativePath with
      | Some (inl b) => Some b
      | Some (inr _) => Some false
      | None => None
      end
  end.

(** The exclusion rule in the words of the design document: an anchored
    glob in which [*] stands for any run of characters, [?] for any single
    character and every other character for itself. *)
Fixpoint glob_match (pattern : list ascii) (s : list ascii) : bool :=
  match pattern with
  | [] => match s with [] => true | _ :: _ => false end
  | p :: pattern' =>
      if bool_decide (p = "*"%char) then
        (fix run (s : list ascii) : bool :=
           glob_match pattern' s ||
           match s with
           | _ :: s' => run s'
           | [] => false
           end) s
      else
        match s with
        | c :: s' =>
            (bool_decide (p = "?"%char) || bool_decide (p = c))
            && glob_match pattern' s'
        | [] => false
        end
  end.

(** Patterns on which the two readings can be compared: every character
    is a wildcard, a dot, or a character without a meaning of its own in a
    regular expression. *)
Definition is_glob_char (c : ascii) : bool :=
  bool_decide (c = "*"%char) || bool_decide (c = "?"%char)
  || bool_decide (c = "."%char) || negb (RegExp.is_syntax_char c).

Definition plain_pattern (pattern : string) : Prop :=
  Forall (fun c => is_glob_char c = true) (chars pattern).

Definition no_line_terminator (s : string) : Prop :=
  Forall (fun c => RegExp.is_line_terminator c = false) (chars s).

(** What one pattern character becomes in the regular expression. *)
Definition regexPiece (c : ascii) : string :=
  if bool_decide (c = "."%char) then "\."
  else if bool_decide (c = "*"%char) then ".*"
  else if bool_decide (c = "?"%char) then "."
  else String c "".

(** The items a plain pattern compiles to. *)
Definition globItem (c : ascii) : RegExp.atom * RegExp.quant :=
  if bool_decide (c = "*"%char) then (RegExp.Dot, RegExp.Star)
  else if bool_decide (c = "?"%char) then (RegExp.Dot, RegExp.One)
  else (RegExp.Lit c, RegExp.One).

Definition glob_excludes (sep : ascii) (patterns : list string)
    (relativePath : string) : bool :=
  existsb (fun pattern =>
             existsb (fun part => glob_match (chars pattern) (chars part))
                     (split_on sep relativePath)
             || glob_match (chars pattern) (chars relativePath))
          patterns.

(** ** Chunker *)

Record Blob := {
  blob_path : string;
  blob_content : string;
  blob_hash : option string
}.

Definition chunkPath (filePath : string) (i numChunks : nat) : string :=
  filePath +:+ "#chunk" +:+ pretty (i + 1) +:+ "of" +:+ pretty numChunks.

(** [IndexManager.splitFileContent] *)
Definition splitFileContent (cfg : Config) (filePath content : string)
  : list Blob :=
  let lines := split_on newline content in
  let totalLines := length lines in
  if bool_decide (totalLines <= maxLinesPerBlob cfg) then
    [ {| blob_path := filePath; blob_content := content; blob_hash := None |} ]
  else
    let numChunks := ceil_div totalLines (maxLinesPerBlob cfg) in
    fold_left
      (fun blobs i =>
         let start := i * maxLinesPerBlob cfg in
         let stop := min (start + maxLinesPerBlob cfg) totalLines in
         let chunkLines := slice start stop lines in
         let chunkContent := join_with newline chunkLines in
         blobs ++ [ {| blob_path := chunkPath filePath i numChunks;
                       blob_content := chunkContent;
                       blob_hash := None |} ])
      (seq 0 numChunks) [].

(** The lines a blob holds. *)
Definition blobLines (b : Blob) : list string := split_on newline (blob_content b).

(** ** Exceptions, the outside world and the effect log *)

(** A thrown value: an axios error with its [code] and its
    [response.status] when it has them, any other [Error], or [null]. *)
Inductive JsError :=
| AxiosError (code : option string) (http_status : option nat) (message : string)
| OtherError (message : string)
| NullValue.

(** [error instanceof Error ? error.message : String(error)] *)
Definition error_text (e : JsError) : string :=
  match e with
  | AxiosError _ _ m => m
  | OtherError m => m
  | NullValue => "null"
  end.

Inductive result (A : Type) :=
| Ok (a : A)
| Thrown (e : JsError).
Arguments Ok {A} a.
Arguments Thrown {A} e.

(** The body of an HTTP response: [null], with the TypeError that reading
    a property of it throws, or a value whose fields can be read; a field
    that is absent is [None] (a body that is a string, a number or an
    array has neither field). *)
Inductive ResponseData :=
| NullBody (thrown : JsError)
| Body (names : option (list string)) (retrieval : option string).

Definition blob_names (data : ResponseData) : option (list string) :=
  match data with
  | Body names _ => names
  | NullBody _ => None
  end.

Definition formatted_retrieval (data : ResponseData) : option string :=
  match data with
  | Body _ retrieval => retrieval
  | NullBody _ => None
  end.

Inductive Request :=
| BatchUpload (blobs : list (string * string))
| CodebaseRetrieval (information_request : string) (added_blobs : list string).

(** The projects file on disk: missing, not readable or not JSON, or a
    mapping from project paths to lists of hashes, which is what the
    program writes. A file that holds any other JSON value is followed in
    [AnyJson] below. *)
Inductive ProjectsFile :=
| FileMissing
| FileUnreadable
| FileJson (projects : gmap string (list string)).

Inductive Effect :=
| Requested (r : Request)
| Waited (ms : nat)
| Saved (projects : gmap string (list string)).

(** What a run changes: the projects file, the number of HTTP requests
    sent so far, and the log of effects, oldest first. *)
Record World := {
  projectsFile : ProjectsFile;
  requests : nat;
  effects : list Effect
}.

(** What a run is given: [path.resolve], the outcome of the filesystem
    walk [collectFiles], the outcome of the n-th HTTP request, and whether
    writing the projects file fails (with the state the file is left in). *)
Record Env := {
  env_resolve : string -> string;
  env_collectFiles : string -> result (list Blob);
  env_post : nat -> Request -> result ResponseData;
  env_write : option (JsError * ProjectsFile)
}.

(** State and exceptions. *)
Definition M (A : Type) : Type := World -> result A * World.

Definition ret {A} (a : A) : M A := fun w => (Ok a, w).
Definition throw {A} (e : JsError) : M A := fun w => (Thrown e, w).
Definition bind {A B} (c : M A) (k : A -> M B) : M B :=
  fun w => match c w with
           | (Ok a, w') => k a w'
           | (Thrown e, w') => (Thrown e, w')
           end.
Definition try_catch {A} (body : M A) (handler : JsError -> M A) : M A :=
  fun w => match body w with
           | (Ok a, w') => (Ok a, w')
           | (Thrown e, w') => handler e w'
           end.

Notation "'let*' x ':=' c 'in' k" := (bind c (fun x => k))
  (at level 10, x name, c at level 100, k at level 200).
Notation "c ';;' k" := (bind c (fun _ => k))
  (at level 100, k at level 200, right associativity).

(** [data.field]: the read of a field of a response body. *)
Definition field {A} (get : ResponseData -> A) (data : ResponseData) : M A :=
  match data with
  | NullBody thrown => throw thrown
  | Body _ _ => ret (get data)
  end.

Definition log (e : Effect) : M unit :=
  fun w => (Ok tt, {| projectsFile := projectsFile w;
                      requests := requests w;
                      effects := effects w ++ [e] |}).

(** [await new Promise((resolve) => setTimeout(resolve, ms))] *)
Definition sleep (ms : nat) : M unit := log (Waited ms).

(** [(await axios.post(url, payload, ...)).data] *)
Definition axios_post (env : Env) (r : Request) : M ResponseData :=
  fun w => (env_post env (requests w) r,
            {| projectsFile := projectsFile w;
               requests := S (requests w);
               effects := effects w ++ [Requested r] |}).

(** ** Retry policy *)

Definition isAxiosError (e : JsError) : bool :=
  match e with AxiosError _ _ _ => true | _ => false end.

Definition isRetryable (e : JsError) : bool :=
  match e with
  | AxiosError code st _ =>
      bool_decide (code = Some "ECONNABORTED")
      || bool_decide (code = Some "ETIMEDOUT")
      || bool_decide (code = Some "ECONNREFUSED")
      || bool_decide (st = Some 429)
      || bool_decide (500 <= default 0 st)
  | _ => false
  end.

Record RetryOptions := {
  opt_maxRetries : option nat;
  opt_retryDelay : option nat
}.

(** The [for] loop of [retryRequest]; [remaining] is
    [maxRetries - attempt]. *)
Fixpoint retryLoop {T} (fn : M T) (maxRetries retryDelay : nat)
    (remaining attempt : nat) (lastError : JsError) : M T :=
  match remaining with
  | O => throw lastError
  | S remaining' =>
      try_catch fn (fun error =>
        if isAxiosError error && negb (isRetryable error) then throw error
        else
          (if bool_decide (attempt < maxRetries - 1)
           then sleep (retryDelay * 2 ^ attempt)
           else ret tt) ;;
          retryLoop fn maxRetries retryDelay remaining' (S attempt) error)
  end.

(** [IndexManager.retryRequest] *)
Definition retryRequest {T} (fn : M T) (options : RetryOptions) : M T :=
  let maxRetries := default 3 (opt_maxRetries options) in
  let retryDelay := default 1000 (opt_retryDelay options) in
  retryLoop fn maxRetries retryDelay maxRetries 0 NullValue.

(** The classification in the words of the design document: connection
    reset, aborted or refused, request timeout, 429, or any 5xx status. *)
Definition spec_transient (e : JsError) : bool :=
  match e with
  | AxiosError code st _ =>
      bool_decide (code = Some "ECONNRESET")
      || bool_decide (code = Some "ECONNABORTED")
      || bool_decide (code = Some "ECONNREFUSED")
      || bool_decide (code = Some "ETIMEDOUT")
      || bool_decide (st = Some 429)
      || bool_decide (500 <= default 0 st ∧ default 0 st <= 599)
  | _ => false
  end.

(** ** Project index store *)

(** [IndexManager.normalizePath] *)
Definition normalizePath (env : Env) (filePath : string) : string :=
  replace_all "\" "/" (env_resolve env filePath).

(** [IndexManager.loadProjects]: a missing file and a file that cannot be
    read or parsed both give the empty mapping; what [JSON.parse] returns
    is passed on as it is. *)
Definition loadProjects : M (gmap string (list string)) :=
  fun w => match projectsFile w with
           | FileJson projects => (Ok projects, w)
           | FileMissing | FileUnreadable => (Ok ∅, w)
           end.

(** [IndexManager.saveProjects]: a failure is logged and thrown again. *)
Definition saveProjects (env : Env) (projects : gmap string (list string)) : M unit :=
  fun w =>
    let effects' := effects w ++ [Saved projects] in
    match env_write env with
    | None => (Ok tt, {| projectsFile := FileJson projects;
                         requests := requests w;
                         effects := effects' |})
    | Some (e, leftover) => (Thrown e, {| projectsFile := leftover;
                                      requests := requests w;
                                      effects := effects' |})
    end.

(** ** JavaScript [Set] and [Map], in insertion order *)

Definition set_has (h : string) (s : list string) : bool := bool_decide (h ∈ s).

Definition set_add (s : list string) (h : string) : list string :=
  if set_has h s then s else s ++ [h].

(** [new Set(iterable)] *)
Definition new_Set (l : list string) : list string := fold_left set_add l [].

(** [map.set(k, v)]: a key that is present keeps its position. *)
Fixpoint map_set (k : string) (v : Blob) (m : list (string * Blob))
  : list (string * Blob) :=
  match m with
  | [] => [(k, v)]
  | (k', v') :: rest =>
      if bool_decide (k = k') then (k, v) :: rest
      else (k', v') :: map_set k v rest
  end.

Fixpoint map_get (k : string) (m : list (string * Blob)) : option Blob :=
  match m with
  | [] => None
  | (k', v') :: rest => if bool_decide (k = k') then Some v' else map_get k rest
  end.

Definition map_keys (m : list (string * Blob)) : list string := map fst m.

(** ** The indexing pass *)

Inductive Status := success | partial_success | error.

Record Stats := {
  totalBlobs : nat;
  existingBlobs : nat;
  newBlobs : nat;
  skippedBlobs : nat
}.

Record IndexResult := {
  status : Status;
  message : string;
  projectPath : option string;
  failedBatches : option (list nat);
  stats : option Stats
}.

(** Step 3 of [indexProject]: hash every blob into [blobHashMap]. *)
Definition hashBlobs (blobs : list Blob) : list (string * Blob) :=
  fold_left
    (fun blobHashMap blob =>
       let hash := calculateHash (blob_path blob) (blob_content blob) in
       map_set hash {| blob_path := blob_path blob;
                       blob_content := blob_content blob;
                       blob_hash := Some hash |} blobHashMap)
    blobs [].

(** Step 4: the diff against the stored hashes. *)
Definition currentHashes (blobHashMap : list (string * Blob)) : list string :=
  new_Set (map_keys blobHashMap).

Definition unchangedHashes (existingHashes current : list string) : list string :=
  new_Set (filter (fun h => set_has h existingHashes = true) current).

Definition newHashes (existingHashes current : list string) : list string :=
  new_Set (filter (fun h => negb (set_has h existingHashes) = true) current).

Definition blobsToUpload (blobHashMap : list (string * Blob))
    (new : list string) : list Blob :=
  omap (fun h => map_get h blobHashMap) new.

Definition uploadRetry : RetryOptions :=
  {| opt_maxRetries := Some 3; opt_retryDelay := Some 1000 |}.

Definition uploadBatch (env : Env) (batchBlobs : list Blob) : M ResponseData :=
  axios_post env
    (BatchUpload (map (fun b => (blob_path b, blob_content b)) batchBlobs)).

(** Step 5: the batch loop; [remaining] is [totalBatches - batchIdx], the
    pair carried along is [(uploadedHashes, failedBatches)]. *)
Fixpoint uploadLoop (env : Env) (cfg : Config) (toUpload : list Blob)
    (remaining batchIdx : nat) (acc : list string * list nat)
  : M (list string * list nat) :=
  match remaining with
  | O => ret acc
  | S remaining' =>
      let start := batchIdx * batchSize cfg in
      let stop := min (start + batchSize cfg) (length toUpload) in
      let batchBlobs := slice start stop toUpload in
      let* acc' :=
        try_catch
          (let* result := retryRequest (uploadBatch env batchBlobs) uploadRetry in
           let* blobNames := field blob_names result in
           match blobNames with
           | Some (name :: names) => ret (fst acc ++ name :: names, snd acc)
           | Some [] | None => ret (fst acc, snd acc ++ [batchIdx + 1])
           end)
          (fun _ => ret (fst acc, snd acc ++ [batchIdx + 1])) in
      uploadLoop env cfg toUpload remaining' (S batchIdx) acc'
  end.

Definition uploadAll (env : Env) (cfg : Config) (toUpload : list Blob)
  : M (list string * list nat) :=
  if bool_decide (0 < length toUpload) then
    let totalBatches := ceil_div (length toUpload) (batchSize cfg) in
    uploadLoop env cfg toUpload totalBatches 0 ([], [])
  else ret ([], []).

Definition indexedMessage (toUpload : list Blob) (allHashes unchanged uploaded : list string)
  : string :=
  if bool_decide (0 < length toUpload) then
    "项目已索引，共 " +:+ pretty (length allHashes) +:+ " 个 blobs (已存在: "
      +:+ pretty (length unchanged) +:+ ", 新增: "
      +:+ pretty (length uploaded) +:+ ")"
  else
    "项目已索引，共 " +:+ pretty (length allHashes)
      +:+ " 个 blobs (全部已存在，无需上传)".

Definition errorResult (msg : string) : IndexResult :=
  {| status := error; message := msg; projectPath := None;
     failedBatches := None; stats := None |}.

(** [IndexManager.indexProject] *)
Definition indexProject (env : Env) (cfg : Config) (path : string) : M IndexResult :=
  let normalizedPath := normalizePath env path in
  try_catch
    (let* blobs := (fun w => (env_collectFiles env path, w)) in
     if bool_decide (length blobs = 0) then
       ret (errorResult "项目中未找到文本文件")
     else
       let* projects := loadProjects in
       let existingHashes := new_Set (default [] (projects !! normalizedPath)) in
       let blobHashMap := hashBlobs blobs in
       let current := currentHashes blobHashMap in
       let unchanged := unchangedHashes existingHashes current in
       let new := newHashes existingHashes current in
       let toUpload := blobsToUpload blobHashMap new in
       let* up := uploadAll env cfg toUpload in
       let uploadedHashes := fst up in
       let failed := snd up in
       let allHashes := unchanged ++ uploadedHashes in
       let projects' := <[normalizedPath := allHashes]> projects in
       saveProjects env projects' ;;
       ret {| status := match failed with [] => success | _ :: _ => partial_success end;
              message := indexedMessage toUpload allHashes unchanged uploadedHashes;
              projectPath := Some normalizedPath;
              failedBatches := Some failed;
              stats := Some {| totalBlobs := length allHashes;
                               existingBlobs := length unchanged;
                               newBlobs := length uploadedHashes;
                               skippedBlobs := length unchanged |} |})
    (fun e => ret (errorResult (error_text e))).

(** ** Search orchestration *)

Definition searchRetry : RetryOptions :=
  {| opt_maxRetries := Some 3; opt_retryDelay := Some 2000 |}.

Definition noResultsMessage : string := "未找到与您的查询相关的代码上下文".

(** [IndexManager.searchContext] *)
Definition searchContext (env : Env) (cfg : Config) (path query : string) : M string :=
  let normalizedPath := normalizePath env path in
  try_catch
    (let* indexResult := indexProject env cfg path in
     match status indexResult with
     | error => ret ("Error: 索引失败. " +:+ message indexResult)
     | _ =>
         let* projects := loadProjects in
         let blobNames := default [] (projects !! normalizedPath) in
         if bool_decide (length blobNames = 0) then
           ret "Error: 索引后未找到 blobs"
         else
           let* result :=
             retryRequest (axios_post env (CodebaseRetrieval query blobNames))
                          searchRetry in
           let* text := field formatted_retrieval result in
           let formattedRetrieval := default "" text in
           if bool_decide (formattedRetrieval = "") then ret noResultsMessage
           else ret formattedRetrieval
     end)
    (fun e => ret ("Error: " +:+ error_text e)).

(** ** The projects file when it holds any JSON value

    [loadProjects] returns [JSON.parse(content)] as it is, so a pass can be
    handed a value that is no mapping from paths to lists of hashes. This
    module follows [indexProject] over such a file. *)
Module AnyJson.

(** What the mapping holds under a path: the strings that
    [new Set(value || [])] iterates over (the strings among the elements
    of an array, the code points of a string, none for a value that is
    falsy), or a truthy value that is not iterable ([true], a number, an
    object), with the TypeError that [new Set] throws on it. *)
Inductive Entry :=
| Strings (hashes : list string)
| NotIterable (thrown : JsError).

(** A parsed file: an object; an array; [null], with the TypeError that
    reading a property of it throws; or a number, a boolean or a string,
    of which reading a property gives [undefined] and writing one throws
    the TypeError given (a module, and the body of a class, is strict
    code). *)
Inductive Json :=
| JsonObject (entries : gmap string Entry)
| JsonArray
| JsonNull (thrown : JsError)
| JsonPrimitive (thrown : JsError).

Inductive File :=
| Missing
| Unreadable
| Holds (value : Json).

(** The files of the sections above. *)
Definition ofProjectsFile (f : ProjectsFile) : File :=
  match f with
  | FileMissing => Missing
  | FileUnreadable => Unreadable
  | FileJson projects => Holds (JsonObject (Strings <$> projects))
  end.

(** [IndexManager.loadProjects] *)
Definition loadProjects (f : File) : Json :=
  match f with
  | Holds value => value
  | Missing | Unreadable => JsonObject ∅
  end.

(** [new Set(projects[normalizedPath] || [])]; a normalized path is
    absolute, so it names no element and no built-in property of an array
    or of a primitive value. *)
Definition storedHashes (projects : Json) (normalizedPath : string)
  : result (list string) :=
  match projects with
  | JsonObject entries =>
      match entries !! normalizedPath with
      | Some (Strings hashes) => Ok (new_Set hashes)
      | Some (NotIterable thrown) => Thrown thrown
      | None => Ok (new_Set [])
      end
  | JsonArray | JsonPrimitive _ => Ok (new_Set [])
  | JsonNull thrown => Thrown thrown
  end.

(** [projects[normalizedPath] = allHashes]; what an array is given this
    way is none of its elements, and [JSON.stringify] leaves it out. *)
Definition assign (projects : Json) (normalizedPath : string)
    (allHashes : list string) : result Json :=
  match projects with
  | JsonObject entries => Ok (JsonObject (<[normalizedPath := Strings allHashes]> entries))
  | JsonArray => Ok JsonArray
  | JsonNull thrown | JsonPrimitive thrown => Thrown thrown
  end.

(** [IndexManager.saveProjects] *)
Definition saveProjects (env : Env) (projects : Json) : result unit * File :=
  match env_write env with
  | None => (Ok tt, Holds projects)
  | Some (e, leftover) => (Thrown e, ofProjectsFile leftover)
  end.

(** [IndexManager.indexProject], with the state passed explicitly: the
    projects file is [f]; of the world [w] the pass uses the request
    counter and the log (not its [projectsFile]). Every exception ends in
    the [catch] of the pass, which turns it into a result. *)
Definition indexProject (env : Env) (cfg : Config) (path : string)
    (f : File) (w : World) : IndexResult * File * World :=
  let normalizedPath := normalizePath env path in
  match env_collectFiles env path with
  | Thrown e => (errorResult (error_text e), f, w)
  | Ok blobs =>
      if bool_decide (length blobs = 0) then
        (errorResult "项目中未找到文本文件", f, w)
      else
        let projects := loadProjects f in
        match storedHashes projects normalizedPath with
        | Thrown e => (errorResult (error_text e), f, w)
        | Ok existingHashes =>
            let blobHashMap := hashBlobs blobs in
            let current := currentHashes blobHashMap in
            let unchanged := unchangedHashes existingHashes current in
            let new := newHashes existingHashes current in
            let toUpload := blobsToUpload blobHashMap new in
            match uploadAll env cfg toUpload w with
            | (Thrown e, w1) => (errorResult (error_text e), f, w1)
            | (Ok up, w1) =>
                let uploadedHashes := fst up in
                let failed := snd up in
                let allHashes := unchanged ++ uploadedHashes in
                match assign projects normalizedPath allHashes with
                | Thrown e => (errorResult (error_text e), f, w1)
                | Ok projects' =>
                    match saveProjects env projects' with
                    | (Thrown e, f') => (errorResult (error_text e), f', w1)
                    | (Ok _, f') =>
                        ({| status := match failed with
                                      | [] => success
                                      | _ :: _ => partial_success
                                      end;
                            message := indexedMessage toUpload allHashes unchanged
                                                      uploadedHashes;
                            projectPath := Some normalizedPath;
                            failedBatches := Some failed;
                            stats := Some {| totalBlobs := length allHashes;
                                             existingBlobs := length unchanged;
                                             newBlobs := length uploadedHashes;
                                             skippedBlobs := length unchanged |} |},
                         f', w1)
                    end
                end
            end
        end
  end.

End AnyJson.

(** ** Observations on a run, used to state the properties *)

(** The mapping [loadProjects] reads from a projects file. *)
Definition storedProjects (f : ProjectsFile) : gmap string (list string) :=
  match f with
  | FileJson projects => projects
  | FileMissing | FileUnreadable => ∅
  end.

(** An error after which [retryRequest] goes on. *)
Definition goesOn (e : JsError) : bool :=
  negb (isAxiosError e && negb (isRetryable e)).

(** What attempts [a], ..., [a + k - 1] leave in the log when each of them
    fails and is followed by its backoff wait. *)
Definition backoffEffects (r : Request) (retryDelay a k : nat) : list Effect :=
  flat_map (fun i => [Requested r; Waited (retryDelay * 2 ^ i)]) (seq a k).

(** The batch with index [k] (from 0), the [retryRequest] call made for
    it, the world in which that call starts, and its outcome. *)
Definition batchBlobsOf (cfg : Config) (toUpload : list Blob) (k : nat) : list Blob :=
  slice (k * batchSize cfg)
        (min (k * batchSize cfg + batchSize cfg) (length toUpload)) toUpload.

Definition batchCall (env : Env) (cfg : Config) (toUpload : list Blob) (k : nat)
  : M ResponseData :=
  retryRequest (uploadBatch env (batchBlobsOf cfg toUpload k)) uploadRetry.

Fixpoint worldBeforeBatch (env : Env) (cfg : Config) (toUpload : list Blob)
    (w : World) (k : nat) : World :=
  match k with
  | O => w
  | S k' => snd (batchCall env cfg toUpload k' (worldBeforeBatch env cfg toUpload w k'))
  end.

Definition batchOutcome (env : Env) (cfg : Config) (toUpload : list Blob)
    (w : World) (k : nat) : result ResponseData :=
  fst (batchCall env cfg toUpload k (worldBeforeBatch env cfg toUpload w k)).


Definition returnedNames (o : result ResponseData) : list string :=
  match o with
  | Ok data => default [] (blob_names data)
  | Thrown _ => []
  end.

Definition batchFailed (o : result ResponseData) : bool :=
  match returnedNames o with
  | [] => true
  | _ :: _ => false
  end.

(** The batches in the order they are tried, the identifiers the
    successful ones returned, and the ordinals (from 1) of the failed
    ones. *)
Definition uploadedBy (env : Env) (cfg : Config) (toUpload : list Blob)
    (w : World) (total : nat) : list string :=
  concat (map (fun k => returnedNames (batchOutcome env cfg toUpload w k)) (seq 0 total)).

Definition failedIn (env : Env) (cfg : Config) (toUpload : list Blob)
    (w : World) (total : nat) : list nat :=
  map S (filter (fun k => batchFailed (batchOutcome env cfg toUpload w k) = true)
                (seq 0 total)).

(** [w'] differs from [w] by network activity only: same projects file,
    more requests, more log entries none of which is a save. *)
Definition onlyNetwork (w w' : World) : Prop :=
  projectsFile w' = projectsFile w
  ∧ requests w <= requests w'
  ∧ exists es, effects w' = effects w ++ es
               ∧ Forall (fun e => forall m, e ≠ Saved m) es.

Definition hashOf (b : Blob) : string :=
  calculateHash (blob_path b) (blob_content b).

(** The quantities of one pass over [blobs] that starts in world [w]. *)
Section Pass.
Variables (env : Env) (cfg : Config) (path : string) (w : World) (blobs : list Blob).

Definition passStored : list string :=
  default [] (storedProjects (projectsFile w) !! normalizePath env path).
Definition passCurrent : list string := currentHashes (hashBlobs blobs).
Definition passUnchanged : list string :=
  unchangedHashes (new_Set passStored) passCurrent.
Definition passNew : list string := newHashes (new_Set passStored) passCurrent.
Definition passToUpload : list Blob := blobsToUpload (hashBlobs blobs) passNew.
Definition passBatches : nat := ceil_div (length passToUpload) (batchSize cfg).
Definition passOutcome (k : nat) : result ResponseData :=
  batchOutcome env cfg passToUpload w k.
Definition passUploaded : list string :=
  uploadedBy env cfg passToUpload w passBatches.
Definition passFailed : list nat := failedIn env cfg passToUpload w passBatches.
Definition passAll : list string := passUnchanged ++ passUploaded.
Definition passSaved : gmap string (list string) :=
  <[normalizePath env path := passAll]> (storedProjects (projectsFile w)).
Definition passWorld : World := worldBeforeBatch env cfg passToUpload w passBatches.

Definition passResult : IndexResult :=
  {| status := match passFailed with [] => success | _ :: _ => partial_success end;
     message := indexedMessage passToUpload passAll passUnchanged passUploaded;
     projectPath := Some (normalizePath env path);
     failedBatches := Some passFailed;
     stats := Some {| totalBlobs := length passAll;
                      existingBlobs := length passUnchanged;
                      newBlobs := length passUploaded;
                      skippedBlobs := length passUnchanged |} |}.
End Pass.

(** Step 3 of [searchContext]: the retried retrieval request and the read
    of the text in its response. *)
Definition retrieval (env : Env) (query : string) (blobNames : list string)
  : M (option string) :=
  let* result :=
    retryRequest (axios_post env (CodebaseRetrieval query blobNames)) searchRetry in
  field formatted_retrieval result.

(** The value a run returned, if it returned. *)
Definition returned {A} (run : result A * World) : option A :=
  match run.1 with
  | Ok a => Some a
  | Thrown _ => None
  end.




(** * The rest of the manager, the tool layer and the configuration *)

(** ** Patterns that are plain names *)

(** A pattern without wildcards, in which every character is a dot or a
    character without a meaning of its own in a regular expression. *)
Definition literal_pattern (pattern : string) : Prop :=
  Forall (fun c => c ≠ "*"%char ∧ c ≠ "?"%char
                   ∧ (c = "."%char ∨ RegExp.is_syntax_char c = false))
         (chars pattern).

(** A pattern on which [new RegExp] throws. *)
Definition invalid_pattern (pattern : string) : Prop :=
  RegExp.compile ("^" +:+ regexPattern pattern +:+ "$") = RegExp.SyntaxError.

(** The line terminators of JavaScript besides LF and CR: U+2028 and
    U+2029, each as the three bytes it takes in a string read as UTF-8.
    The dot of a regular expression matches none of the four. *)
Definition line_separator : list ascii := ["226"; "128"; "168"]%char.
Definition paragraph_separator : list ascii := ["226"; "128"; "169"]%char.

Definition no_separator (s : string) : Prop :=
  forall pre post,
    chars s ≠ pre ++ line_separator ++ post
    ∧ chars s ≠ pre ++ paragraph_separator ++ post.

(** ** [DEFAULT_CONFIG] *)

Definition defaultExcludePatterns : list string :=
  [ "node_modules"; ".git"; ".venv"; "venv"; "__pycache__"; ".pytest_cache";
    ".mypy_cache"; "dist"; "build"; "out"; ".next"; ".nuxt"; "coverage";
    ".DS_Store"; "*.pyc"; "*.pyo"; "*.pyd"; ".env"; ".env.*" ].

Definition defaultTextExtensions : list string :=
  [ ".py"; ".js"; ".ts"; ".jsx"; ".tsx";
    ".java"; ".c"; ".cpp"; ".h"; ".hpp";
    ".cs"; ".go"; ".rs"; ".rb"; ".php";
    ".swift"; ".kt"; ".scala"; ".sh";
    ".md"; ".txt"; ".json"; ".yaml"; ".yml";
    ".xml"; ".html"; ".css"; ".scss"; ".less";
    ".sql"; ".graphql"; ".proto"; ".toml"; ".ini" ].

Definition defaultBatchSize : nat := 10.
Definition defaultMaxLinesPerBlob : nat := 800.

(** ** Readings of the effect log *)

(** The time spent waiting, in milliseconds. *)
Fixpoint waitedTotal (es : list Effect) : nat :=
  match es with
  | [] => 0
  | Waited ms :: rest => ms + waitedTotal rest
  | _ :: rest => waitedTotal rest
  end.

(** The requests sent, oldest first. *)
Definition requestsIn (es : list Effect) : list Request :=
  omap (fun e => match e with Requested r => Some r | _ => None end) es.

(** The request that carries batch [k] (from 0). *)
Definition batchRequest (cfg : Config) (toUpload : list Blob) (k : nat) : Request :=
  BatchUpload (map (fun b => (blob_path b, blob_content b))
                   (batchBlobsOf cfg toUpload k)).

(** ** The search tool *)

(** The arguments of a tool call; a field that is absent is [None]. *)
Record SearchContextArgs := {
  project_root_path : option string;
  query : option string
}.

(** [!s] for a string that may be absent. *)
Definition falsy (s : option string) : bool :=
  match s with
  | None | Some EmptyString => true
  | Some (String _ _) => false
  end.

(** [searchContextTool] of tools/search-context.ts: both arguments are
    required. *)
Module SearchContextTool.
Definition searchContextTool (env : Env) (args : SearchContextArgs) (config : Config)
  : M string :=
  try_catch
    (if falsy (project_root_path args) then
       ret "Error: project_root_path 参数是必需的"
     else if falsy (query args) then
       ret "Error: query 参数是必需的"
     else
       searchContext env config (default "" (project_root_path args))
                     (default "" (query args)))
    (fun e => ret ("Error: " +:+ error_text e)).
End SearchContextTool.

(** The configuration as the other version of the tool reads it: what the
    index manager reads, and [defaultProject]. *)
Record ToolConfig := {
  managerConfig : Config;
  defaultProject : option string
}.

Definition noProjectMessage : string :=
  "Error: 未指定项目路径。请通过以下方式之一指定：" +:+ String newline
    ("1. 调用时传递 project_root_path 参数" +:+ String newline
       "2. 设置环境变量 MCP_ACE_DEFAULT_PROJECT").

(** The version of [searchContextTool] in which the project path is
    optional and falls back on [config.defaultProject]. *)
Module SearchContextToolDefault.
Definition searchContextTool (env : Env) (args : SearchContextArgs)
    (config : ToolConfig) : M string :=
  try_catch
    (if falsy (query args) then
       ret "Error: query 参数是必需的"
     else
       let continue (projectPath : string) : M string :=
         searchContext env (managerConfig config) projectPath
                       (default "" (query args)) in
       if negb (falsy (project_root_path args)) then
         continue (default "" (project_root_path args))
       else if negb (falsy (defaultProject config)) then
         continue (default "" (defaultProject config))
       else ret noProjectMessage)
    (fun e => ret ("Error: " +:+ error_text e)).
End SearchContextToolDefault.

(** ** The filesystem walk *)

(** What [readdirSync(dir, { withFileTypes: true })] lists: a file with the
    outcome of reading it, a directory with the outcome of listing it, or
    an entry that is neither (a symbolic link, a socket, ...). *)
Local Unset Elimination Schemes.
Inductive Dirent :=
| File (name : string) (content : result string)
| Directory (name : string) (entries : result (list Dirent))
| Other (name : string).
Local Set Elimination Schemes.

Definition dirent_name (entry : Dirent) : string :=
  match entry with
  | File name _ | Directory name _ | Other name => name
  end.

(** The rest of what Node contributes to the walk: [path.join],
    [path.extname], [String.prototype.toLowerCase], and what is found at
    the project path ([None]: [fs.existsSync] is false; otherwise the
    outcome of listing it). *)
Record NodeFs := {
  path_join : string -> string -> string;
  path_extname : string -> string;
  toLowerCase : string -> string;
  fs_root : string -> option (result (list Dirent))
}.

(** How a walk ends: with the blobs and the count of excluded entries so
    far, with an exception, or at an exclusion pattern outside the
    interpreted fragment of regular expressions. *)
Inductive Walked :=
| Walk (blobs : list Blob) (excludedCount : nat)
| WalkThrows (e : JsError)
| WalkUnmodelled.

Section Collect.
Variables (pm : PathModule) (node : NodeFs) (cfg : Config)
          (textExtensions : list string) (projectPath : string).

(** One turn of the [for] loop of [walkDir], for the entry [entry] of the
    directory [dir]. *)
Fixpoint walkEntry (dir : string) (entry : Dirent)
    (blobs : list Blob) (excludedCount : nat) {struct entry} : Walked :=
  let fullPath := path_join node dir (dirent_name entry) in
  match shouldExclude pm cfg fullPath projectPath with
  | None => WalkUnmodelled
  | Some true => Walk blobs (S excludedCount)
  | Some false =>
      match entry with
      | Directory _ listing =>
          match listing with
          | Thrown e => WalkThrows e
          | Ok entries =>
              (fix walkEntries (entries : list Dirent) (blobs : list Blob)
                   (excludedCount : nat) : Walked :=
                 match entries with
                 | [] => Walk blobs excludedCount
                 | entry :: rest =>
                     match walkEntry fullPath entry blobs excludedCount with
                     | Walk blobs' excludedCount' =>
                         walkEntries rest blobs' excludedCount'
                     | other => other
                     end
                 end) entries blobs excludedCount
          end
      | File name content =>
          let ext := toLowerCase node (path_extname node name) in
          if set_has ext textExtensions then
            match content, path_relative pm projectPath fullPath with
            | Ok content, Some relativePath =>
                Walk (blobs ++ splitFileContent cfg relativePath content)
                     excludedCount
            | _, _ => Walk blobs excludedCount
            end
          else Walk blobs excludedCount
      | Other _ => Walk blobs excludedCount
      end
  end.

(** The [for] loop of [walkDir] over the entries of [dir]. *)
Fixpoint walkEntries (dir : string) (entries : list Dirent)
    (blobs : list Blob) (excludedCount : nat) : Walked :=
  match entries with
  | [] => Walk blobs excludedCount
  | entry :: rest =>
      match walkEntry dir entry blobs excludedCount with
      | Walk blobs' excludedCount' => walkEntries dir rest blobs' excludedCount'
      | other => other
      end
  end.

(** [walkDir(dir)], given the outcome of listing [dir]. *)
Definition walkDir (dir : string) (listing : result (list Dirent))
    (blobs : list Blob) (excludedCount : nat) : Walked :=
  match listing with
  | Thrown e => WalkThrows e
  | Ok entries => walkEntries dir entries blobs excludedCount
  end.

(** [IndexManager.collectFiles] *)
Definition collectFiles : Walked :=
  match fs_root node projectPath with
  | None => WalkThrows (OtherError ("项目路径不存在: " +:+ projectPath))
  | Some listing => walkDir projectPath listing [] 0
  end.

(** A file that the walk reads: an entry of the listing, or of the listing
    of a directory of the listing that is not excluded, and so on; with
    the full path the walk gives it. *)
Inductive Reached : string -> list Dirent -> string -> Dirent -> Prop :=
| reached_entry (dir : string) (entries : list Dirent) (entry : Dirent) :
    entry ∈ entries ->
    Reached dir entries (path_join node dir (dirent_name entry)) entry
| reached_below (dir : string) (entries : list Dirent) (name : string)
    (below : list Dirent) (fullPath : string) (entry : Dirent) :
    Directory name (Ok below) ∈ entries ->
    shouldExclude pm cfg (path_join node dir name) projectPath = Some false ->
    Reached (path_join node dir name) below fullPath entry ->
    Reached dir entries fullPath entry.

(** The blobs a file at [fullPath] contributes. *)
Definition fileBlobs (fullPath : string) (entry : Dirent) : list Blob :=
  match entry with
  | File name (Ok content) =>
      if set_has (toLowerCase node (path_extname node name)) textExtensions then
        match path_relative pm projectPath fullPath with
        | Some relativePath => splitFileContent cfg relativePath content
        | None => []
        end
      else []
  | _ => []
  end.

(** [b] is a blob of a file that the walk of [entries] reads and does not
    exclude; the walk of [entries] meets a directory that it does not
    exclude and cannot list. *)
Definition contributed (dir : string) (entries : list Dirent) (b : Blob) : Prop :=
  exists fullPath entry,
    Reached dir entries fullPath entry
    ∧ shouldExclude pm cfg fullPath projectPath = Some false
    ∧ b ∈ fileBlobs fullPath entry.

Definition unreadableDirectory (dir : string) (entries : list Dirent)
    (e : JsError) : Prop :=
  exists fullPath name,
    Reached dir entries fullPath (Directory name (Thrown e))
    ∧ shouldExclude pm cfg fullPath projectPath = Some false.

(** What a walk that goes through has collected, and what stopped a walk
    that throws. *)
Definition walked_as (dir : string) (entries : list Dirent) (blobs : list Blob)
    (walked : Walked) : Prop :=
  match walked with
  | Walk blobs' _ =>
      exists added,
        blobs' = blobs ++ added
        ∧ (forall b, b ∈ added <-> contributed dir entries b)
        ∧ (forall e, ¬ unreadableDirectory dir entries e)
  | WalkThrows e => unreadableDirectory dir entries e
  | WalkUnmodelled => True
  end.
End Collect.


(** ** Configuration *)

(** A number as the configuration holds it: an integer, or [NaN] (what
    [parseInt] gives on text that does not begin with a number). *)
Inductive JsNumber := Num (z : Z) | NaN.

(** A property of an object: absent, present with the value [undefined],
    or present with a value. *)
Inductive Field (A : Type) := Missing | Undefined | Value (a : A).
Arguments Missing {A}.
Arguments Undefined {A}.
Arguments Value {A} a.

(** [{ ...under, ...over }] for one property. *)
Definition spread_field {A} (under over : Field A) : Field A :=
  match over with
  | Missing => under
  | _ => over
  end.

(** The first property that is present, in the order given. *)
Fixpoint first_present {A} (sources : list (Field A)) : Field A :=
  match sources with
  | [] => Missing
  | Missing :: rest => first_present rest
  | found :: _ => found
  end.

(** [!v] for a property that holds a string. *)
Definition falsy_field (v : Field string) : bool :=
  match v with
  | Value (String _ _) => false
  | _ => true
  end.

(** [v <= 0] for a property that holds a number: [undefined] converts to
    [NaN], and every comparison with [NaN] is false. *)
Definition not_positive (v : Field JsNumber) : bool :=
  match v with
  | Value (Num z) => bool_decide (z <= 0)%Z
  | _ => false
  end.

Module Settings.
(** [Partial<Config>], and [Config] as far as the type is checked. *)
Record t := {
  baseUrl : Field string;
  token : Field string;
  batchSize : Field JsNumber;
  maxLinesPerBlob : Field JsNumber;
  textExtensions : Field (list string);
  excludePatterns : Field (list string);
  storagePath : Field string;
  defaultProject : Field string
}.

Definition empty : t :=
  {| baseUrl := Missing; token := Missing; batchSize := Missing;
     maxLinesPerBlob := Missing; textExtensions := Missing;
     excludePatterns := Missing; storagePath := Missing;
     defaultProject := Missing |}.

(** [{ ...under, ...over }] *)
Definition spread (under over : t) : t :=
  {| baseUrl := spread_field (baseUrl under) (baseUrl over);
     token := spread_field (token under) (token over);
     batchSize := spread_field (batchSize under) (batchSize over);
     maxLinesPerBlob := spread_field (maxLinesPerBlob under) (maxLinesPerBlob over);
     textExtensions := spread_field (textExtensions under) (textExtensions over);
     excludePatterns := spread_field (excludePatterns under) (excludePatterns over);
     storagePath := spread_field (storagePath under) (storagePath over);
     defaultProject := spread_field (defaultProject under) (defaultProject over) |}.

Definition DEFAULT_CONFIG : t :=
  {| baseUrl := Missing; token := Missing;
     batchSize := Value (Num 10);
     maxLinesPerBlob := Value (Num 800);
     textExtensions := Value defaultTextExtensions;
     excludePatterns := Value defaultExcludePatterns;
     storagePath := Missing;
     defaultProject := Missing |}.

(** What the process and the disk contribute: the home directory,
    [path.join], the environment, [parseInt(text, 10)], the settings file
    ([None]: it does not exist; [Thrown]: reading or parsing it throws),
    and whether creating the configuration directory or the storage
    directory fails. *)
Record Process := {
  homedir : string;
  join : string -> string -> string;
  getenv : string -> option string;
  parseInt : string -> JsNumber;
  settingsFile : option (result t);
  ensureConfigDir : option JsError;
  ensureStorageDir : option JsError
}.

Definition getConfigDir (p : Process) : string := join p (homedir p) ".mcp-ace".
Definition getStoragePath (p : Process) : string := join p (getConfigDir p) "data".
Definition getConfigFilePath (p : Process) : string :=
  join p (getConfigDir p) "settings.json".

(** [loadConfigFromFile]: a file that is missing, unreadable or malformed
    gives the empty object. *)
Definition loadConfigFromFile (p : Process) : t :=
  match settingsFile p with
  | Some (Ok parsed) => parsed
  | Some (Thrown _) | None => empty
  end.

(** A variable of the environment that is set and not empty. *)
Definition truthy_env (p : Process) (name : string) : option string :=
  match getenv p name with
  | Some (String c rest) => Some (String c rest)
  | Some EmptyString | None => None
  end.

(** [loadConfigFromEnv] *)
Definition loadConfigFromEnv (p : Process) : t :=
  {| baseUrl := match truthy_env p "MCP_ACE_BASE_URL" with
                | Some v => Value v
                | None => Missing
                end;
     token := match truthy_env p "MCP_ACE_TOKEN" with
              | Some v => Value v
              | None => Missing
              end;
     batchSize := match truthy_env p "MCP_ACE_BATCH_SIZE" with
                  | Some v => Value (parseInt p v)
                  | None => Missing
                  end;
     maxLinesPerBlob := match truthy_env p "MCP_ACE_MAX_LINES_PER_BLOB" with
                        | Some v => Value (parseInt p v)
                        | None => Missing
                        end;
     textExtensions := Missing; excludePatterns := Missing;
     storagePath := Missing; defaultProject := Missing |}.

(** [validateConfig] *)
Definition validateConfig (config : t) : result unit :=
  if falsy_field (baseUrl config) then
    Thrown (OtherError "配置错误: baseUrl 是必需的。请通过环境变量 MCP_ACE_BASE_URL 或命令行参数 --base-url 设置。")
  else if falsy_field (token config) then
    Thrown (OtherError "配置错误: token 是必需的。请通过环境变量 MCP_ACE_TOKEN 或命令行参数 --token 设置。")
  else if not_positive (batchSize config) then
    Thrown (OtherError "配置错误: batchSize 必须大于 0")
  else if not_positive (maxLinesPerBlob config) then
    Thrown (OtherError "配置错误: maxLinesPerBlob 必须大于 0")
  else Ok tt.

(** The object [loadConfig] builds before it validates it. *)
Definition merged (p : Process) (cliOptions : t) : t :=
  let fileConfig := loadConfigFromFile p in
  let envConfig := loadConfigFromEnv p in
  spread (spread (spread (spread DEFAULT_CONFIG fileConfig) envConfig) cliOptions)
         {| baseUrl := Missing; token := Missing; batchSize := Missing;
            maxLinesPerBlob := Missing; textExtensions := Missing;
            excludePatterns := Missing;
            storagePath := Value (getStoragePath p);
            defaultProject := Missing |}.

(** [loadConfig] *)
Definition loadConfig (p : Process) (cliOptions : t) : result t :=
  match ensureConfigDir p with
  | Some e => Thrown e
  | None =>
      match ensureStorageDir p with
      | Some e => Thrown e
      | None =>
          let config := merged p cliOptions in
          match validateConfig config with
          | Thrown e => Thrown e
          | Ok _ => Ok config
          end
      end
  end.

(** The part of a loaded configuration that the index manager reads, when
    the two numbers are integers. *)
Definition forManager (config : t) : option Config :=
  match batchSize config, maxLinesPerBlob config, excludePatterns config with
  | Value (Num b), Value (Num m), Value patterns =>
      Some (Build_Config (Z.to_nat b) (Z.to_nat m) patterns)
  | _, _, _ => None
  end.
End Settings.
(** ** Sample inputs used by the examples below *)

Definition sampleConfig : Config :=
  {| batchSize := 1; maxLinesPerBlob := 2; excludePatterns := ["node_modules"; "*.pyc"] |}.

Definition fiveLines : string :=
  join_with newline ["a"; "b"; "c"; "d"; "e"].

Fixpoint strip_prefix (prefix s : string) : option string :=
  match prefix, s with
  | EmptyString, _ => Some s
  | String a prefix', String b s' =>
      if bool_decide (a = b) then strip_prefix prefix' s' else None
  | String _ _, EmptyString => None
  end.

(** A path module that agrees with POSIX [path.relative] on a file below
    an absolute, normalized root; the examples use it on such files only. *)
Definition samplePath : PathModule :=
  {| path_sep := "/";
     path_relative := fun root file => strip_prefix (root +:+ "/") file |}.

(** A path module whose [path.relative] throws. *)
Definition throwingPath : PathModule :=
  {| path_sep := "/"; path_relative := fun _ _ => None |}.

Definition plusConfig : Config :=
  {| batchSize := 10; maxLinesPerBlob := 800; excludePatterns := ["a+b"] |}.

Definition emptyWorld : World :=
  {| projectsFile := FileMissing; requests := 0; effects := [] |}.

(** A service that is down (HTTP 503 on every request), one that answers
    404 on every request, and a caller-side failure that is not an axios
    error. *)
Definition serviceUnavailable : JsError :=
  AxiosError (Some "ERR_BAD_RESPONSE") (Some 503) "Request failed with status code 503".
Definition notFound : JsError :=
  AxiosError (Some "ERR_BAD_REQUEST") (Some 404) "Request failed with status code 404".
Definition connectionReset : JsError :=
  AxiosError (Some "ECONNRESET") None "read ECONNRESET".
Definition plainFailure : JsError := OtherError "boom".

Definition oneBlob : list Blob :=
  [ {| blob_path := "a.ts"; blob_content := "x"; blob_hash := None |} ].

Definition envFailing (e : JsError) : Env :=
  {| env_resolve := fun p => p;
     env_collectFiles := fun _ => Ok oneBlob;
     env_post := fun _ _ => Thrown e;
     env_write := None |}.

Definition pingRequest : Request := CodebaseRetrieval "q" ["h"].

Definition retry3 (delay : nat) : RetryOptions :=
  {| opt_maxRetries := Some 3; opt_retryDelay := Some delay |}.

Definition blobA : Blob := {| blob_path := "a.ts"; blob_content := "x"; blob_hash := None |}.
Definition blobB : Blob := {| blob_path := "b.ts"; blob_content := "y"; blob_hash := None |}.

Definition named (names : list string) : ResponseData :=
  Body (Some names) None.


(** A service that returns, for every batch, the hashes of the blobs in
    it, and a retrieval text for every query. *)
Definition echoService (text : string) (r : Request) : result ResponseData :=
  match r with
  | BatchUpload blobs =>
      Ok (named (map (fun pc => calculateHash pc.1 pc.2) blobs))
  | CodebaseRetrieval _ _ =>
      Ok (Body None (Some text))
  end.

Definition envEcho (blobs : list Blob) (text : string) : Env :=
  {| env_resolve := fun p => p;
     env_collectFiles := fun _ => Ok blobs;
     env_post := fun _ r => echoService text r;
     env_write := None |}.

(** The same, on a disk that is full. *)
Definition envDiskFull : Env :=
  {| env_resolve := fun p => p;
     env_collectFiles := fun _ => Ok [blobA];
     env_post := fun _ r => echoService "" r;
     env_write := Some (OtherError "ENOSPC: no space left on device", FileUnreadable) |}.

Definition blobC : Blob := {| blob_path := "c.ts"; blob_content := "z"; blob_hash := None |}.

(** Three blobs in batches of one; the service is down for the second,
    third and fourth request, that is, for all three attempts of batch 2. *)
Definition envSecondFails : Env :=
  {| env_resolve := fun p => p;
     env_collectFiles := fun _ => Ok [blobA; blobB; blobC];
     env_post := fun n r =>
       if bool_decide (1 <= n <= 3) then Thrown serviceUnavailable
       else echoService "" r;
     env_write := None |}.

(** A world in which another project has been indexed before. *)
Definition worldWithOther : World :=
  {| projectsFile := FileJson {[ "/other" := ["0f"; "1e"] ]};
     requests := 0; effects := [] |}.


(** The runs the examples look at. *)
Definition runNotFound : result IndexResult * World :=
  indexProject (envFailing notFound) sampleConfig "/p" emptyWorld.


Definition runDiskFull : result IndexResult * World :=
  indexProject envDiskFull sampleConfig "/p" emptyWorld.

Definition runBesideOther : result IndexResult * World :=
  indexProject envSecondFails sampleConfig "/p" worldWithOther.

Definition envTwoBlobs : Env := envEcho [blobA; blobB] "".
Definition firstPass : result IndexResult * World :=
  indexProject envTwoBlobs sampleConfig "/p" emptyWorld.
Definition secondPass : result IndexResult * World :=
  indexProject envTwoBlobs sampleConfig "/p" firstPass.2.

(** A pass over a projects file that holds [null]. *)
Definition nullProjects : JsError :=
  OtherError "Cannot read properties of null (reading '/p')".
Definition runNullFile : IndexResult * AnyJson.File * World :=
  AnyJson.indexProject envTwoBlobs sampleConfig "/p"
    (AnyJson.Holds (AnyJson.JsonNull nullProjects)) emptyWorld.

(** The second pass over the two blobs on a disk that is full; the file
    is left as the first pass wrote it. *)
Definition envTwoBlobsFull : Env :=
  {| env_resolve := fun p => p;
     env_collectFiles := fun _ => Ok [blobA; blobB];
     env_post := fun _ r => echoService "" r;
     env_write := Some (OtherError "ENOSPC: no space left on device",
                        projectsFile firstPass.2) |}.
Definition secondPassFull : result IndexResult * World :=
  indexProject envTwoBlobsFull sampleConfig "/p" firstPass.2.

(** A service that names the blob it is sent twice. *)
Definition envNamedTwice : Env :=
  {| env_resolve := fun p => p;
     env_collectFiles := fun _ => Ok [blobA];
     env_post := fun _ _ => Ok (named [hashOf blobA; hashOf blobA]);
     env_write := None |}.
Definition firstPassTwice : result IndexResult * World :=
  indexProject envNamedTwice sampleConfig "/p" emptyWorld.
Definition secondPassTwice : result IndexResult * World :=
  indexProject envNamedTwice sampleConfig "/p" firstPassTwice.2.


(** A retrieval service that answers with the body [null]. *)
Definition nullText : JsError :=
  OtherError "Cannot read properties of null (reading 'formatted_retrieval')".
Definition envNullBody : Env :=
  {| env_resolve := fun p => p;
     env_collectFiles := fun _ => Ok [blobA];
     env_post := fun _ r => match r with
                            | BatchUpload _ => echoService "" r
                            | CodebaseRetrieval _ _ => Ok (NullBody nullText)
                            end;
     env_write := None |}.
Definition searchNullBody : result string * World :=
  searchContext envNullBody sampleConfig "/p" "q" emptyWorld.


(** The scenario of the design document: three files of 10, 50 and 2000
    lines, at most 800 lines to a blob, batches of 10. *)
Definition scenarioConfig : Config :=
  {| batchSize := 10; maxLinesPerBlob := 800; excludePatterns := [] |}.

Definition linesOfX (n : nat) : string := join_with newline (replicate n "x").

Definition scenarioBlobs : list Blob :=
  splitFileContent scenarioConfig "small.ts" (linesOfX 10)
  ++ splitFileContent scenarioConfig "medium.ts" (linesOfX 50)
  ++ splitFileContent scenarioConfig "large.ts" (linesOfX 2000).

Definition scenarioFirst : result IndexResult * World :=
  indexProject (envEcho scenarioBlobs "") scenarioConfig "/p" emptyWorld.
Definition scenarioSecond : result IndexResult * World :=
  indexProject (envEcho scenarioBlobs "") scenarioConfig "/p" scenarioFirst.2.


(** ** More sample inputs *)

Definition brokenPatternConfig : Config :=
  {| batchSize := 10; maxLinesPerBlob := 800;
     excludePatterns := ["c++"; "node_modules"] |}.

Definition namesConfig : Config :=
  {| batchSize := 10; maxLinesPerBlob := 800;
     excludePatterns := ["node_modules"; ".git"] |}.

Definition nothingExcluded : Config :=
  {| batchSize := 10; maxLinesPerBlob := 800; excludePatterns := [] |}.

Definition defaultSampleConfig : Config :=
  {| batchSize := defaultBatchSize; maxLinesPerBlob := defaultMaxLinesPerBlob;
     excludePatterns := defaultExcludePatterns |}.





(** A project tree: a source file, a dependency directory, a source
    directory with a file that cannot be read and an image, and a symbolic
    link. *)
Definition accessDenied : JsError := OtherError "EACCES: permission denied".

Definition sampleTree : list Dirent :=
  [ File "a.ts" (Ok "x");
    Directory "node_modules" (Ok [ File "m.js" (Ok "y") ]);
    Directory "src" (Ok [ File "b.ts" (Ok "y");
                          File "secret.ts" (Thrown accessDenied);
                          File "logo.png" (Ok "z") ]);
    Other "link" ].

(** The same tree with a directory that cannot be listed. *)
Definition lockedTree : list Dirent :=
  sampleTree ++ [ Directory "private" (Thrown accessDenied) ].

(** The text from the last dot on; it is [path.extname] on the names used
    here (one dot, not in first place). *)
Fixpoint fromLastDot (s : string) : string :=
  match s with
  | EmptyString => ""
  | String c rest =>
      let found := fromLastDot rest in
      if bool_decide (found = "") then
        if bool_decide (c = "."%char) then s else ""
      else found
  end.

Definition sampleNode (tree : list Dirent) : NodeFs :=
  {| path_join := fun dir name => dir +:+ "/" +:+ name;
     path_extname := fromLastDot;
     toLowerCase := fun s => s;
     fs_root := fun p => if bool_decide (p = "/r") then Some (Ok tree) else None |}.

Definition sampleExtensions : list string := [".ts"; ".js"].


(** A process with a settings file that sets the batch size and a token,
    and an environment that sets the service address and a batch size that
    is not a number. *)
Definition sampleSettings : Settings.t :=
  {| Settings.baseUrl := Value "https://file.example";
     Settings.token := Value "t0";
     Settings.batchSize := Value (Num 25);
     Settings.maxLinesPerBlob := Missing;
     Settings.textExtensions := Missing;
     Settings.excludePatterns := Missing;
     Settings.storagePath := Value "/elsewhere";
     Settings.defaultProject := Missing |}.

Definition sampleProcess (batchSizeText : string) : Settings.Process :=
  {| Settings.homedir := "/home/u";
     Settings.join := fun a b => a +:+ "/" +:+ b;
     Settings.getenv := fun name =>
       if bool_decide (name = "MCP_ACE_BASE_URL") then Some "https://env.example"
       else if bool_decide (name = "MCP_ACE_BATCH_SIZE") then Some batchSizeText
       else None;
     Settings.parseInt := fun text =>
       if bool_decide (text = "50") then Num 50 else NaN;
     Settings.settingsFile := Some (Ok sampleSettings);
     Settings.ensureConfigDir := None;
     Settings.ensureStorageDir := None |}.

Definition cliMaxLines : Settings.t :=
  {| Settings.baseUrl := Missing; Settings.token := Missing;
     Settings.batchSize := Missing;
     Settings.maxLinesPerBlob := Value (Num 100);
     Settings.textExtensions := Missing;
     Settings.excludePatterns := Missing;
     Settings.storagePath := Value "/cli";
     Settings.defaultProject := Missing |}.

Definition worldUnreadable : World :=
  {| projectsFile := FileUnreadable; requests := 0; effects := [] |}.

(** * Properties *)

(** ** Content hasher *)

Example sha256_empty :
  Hasher.digest_hex Hasher.createHash
  = "e3b0c44298fc1c149afbf4c8996fb92427ae41e4649b934ca495991b7852b855".
Proof. vm_compute. reflexivity. Qed.

Example sha256_abc :
  calculateHash "a" "bc"
  = "ba7816bf8f01cfea414140de5dae2223b00361a396177a9cb410ff61f20015ad".
Proof. vm_compute. reflexivity. Qed.

Example sha256_two_blocks :
  calculateHash "abcdbcdecdefdefgefghfghighijhijk" "ijkljklmklmnlmnomnopnopq"
  = "248d6a61d20638b8e5c026930c3e6039a33ce45964ff2167f6ecedd419db06c1".
Proof. vm_compute. reflexivity. Qed.

Lemma chars_app (a b : string) : chars (a +:+ b) = chars a ++ chars b.
Proof. induction a as [|c a IH]; simpl; [done | by rewrite IH]. Qed.

Lemma chars_of_chars (l : list ascii) : chars (of_chars l) = l.
Proof. induction l as [|c l IH]; simpl; [done | by rewrite IH]. Qed.

Lemma of_chars_chars (s : string) : of_chars (chars s) = s.
Proof. induction s as [|c s IH]; simpl; [done | by rewrite IH]. Qed.

Lemma chars_inj (a b : string) : chars a = chars b -> a = b.
Proof. intros H. by rewrite <- (of_chars_chars a), H, of_chars_chars. Qed.

Lemma calculateHash_concat (filePath content : string) :
  calculateHash filePath content
  = Hasher.digest_hex (Hasher.update Hasher.createHash (filePath +:+ content)).
Proof.
  unfold calculateHash, Hasher.update, Hasher.createHash. simpl.
  by rewrite chars_app, map_app.
Qed.

Lemma hex_digit_is_hex (n : Z) : is_hex_digit (SHA256.hex_digit n) = true.
Proof.
  unfold SHA256.hex_digit.
  destruct (Z.land n 15) as [|p|p]; try reflexivity.
  do 4 (destruct p as [p|p|]; try reflexivity).
Qed.

Lemma hex_length (s : SHA256.state) : String.length (SHA256.hex s) = 64.
Proof. reflexivity. Qed.

Lemma hex_all_hex (s : SHA256.state) :
  Forall (fun c => is_hex_digit c = true) (chars (SHA256.hex s)).
Proof.
  unfold SHA256.hex, SHA256.hex_word. simpl chars.
  repeat (apply Forall_cons; split; [apply hex_digit_is_hex |]).
  apply Forall_nil_2.
Qed.

(** C6, as the code has it: the identifier is the SHA-256 digest of the
    path followed by the content, rendered as 64 lower-case hexadecimal
    digits. It is a function of that concatenation alone: two pairs with
    the same concatenation (in particular the same pair, hashed twice)
    receive the same identifier. *)
Theorem hash_of_concatenation (path1 content1 path2 content2 : string) :
  path1 +:+ content1 = path2 +:+ content2 ->
  calculateHash path1 content1 = calculateHash path2 content2
  ∧ String.length (calculateHash path1 content1) = 64
  ∧ Forall (fun c => is_hex_digit c = true) (chars (calculateHash path1 content1)).
Proof.
  intros Heq. split; [| split].
  - by rewrite !calculateHash_concat, Heq.
  - apply hex_length.
  - apply hex_all_hex.
Qed.

Lemma hash_of_concatenation_witness :
  "ab" +:+ "c" = "a" +:+ "bc"
  ∧ calculateHash "ab" "c" = calculateHash "a" "bc"
  ∧ String.length (calculateHash "ab" "c") = 64.
Proof.
  split; [reflexivity |].
  pose proof (hash_of_concatenation "ab" "c" "a" "bc" eq_refl) as (H1 & H2 & _).
  exact (conj H1 H2).
Defined.

(** C6 as stated fails: the pairs ("ab", "c") and ("a", "bc") differ in
    both components and hash to the same identifier. *)
Lemma hash_distinctness_counterexample :
  ("ab" ≠ "a" ∧ "c" ≠ "bc")
  ∧ calculateHash "ab" "c" = calculateHash "a" "bc".
Proof. split; [split; discriminate | reflexivity]. Qed.

(** ** Splitting and joining *)

Lemma split_on_cons (sep c : ascii) (s : string) :
  split_on sep (String c s)
  = if bool_decide (c = sep) then "" :: split_on sep s
    else match split_on sep s with
         | h :: t => String c h :: t
         | [] => [String c ""]
         end.
Proof. reflexivity. Qed.

Lemma split_on_nonempty (sep : ascii) (s : string) : split_on sep s ≠ [].
Proof.
  induction s as [|c s IH]; [done |].
  rewrite split_on_cons. case_bool_decide; [done |].
  by destruct (split_on sep s).
Qed.

Lemma split_on_length (sep : ascii) (s : string) : 0 < length (split_on sep s).
Proof.
  pose proof (split_on_nonempty sep s). destruct (split_on sep s); [done | simpl; lia].
Qed.

Lemma join_with_cons (sep : ascii) (x y : string) (rest : list string) :
  join_with sep (x :: y :: rest) = x +:+ String sep (join_with sep (y :: rest)).
Proof. reflexivity. Qed.

(** [content.split(sep).join(sep)] gives the content back. *)
Lemma join_split (sep : ascii) (s : string) :
  join_with sep (split_on sep s) = s.
Proof.
  induction s as [|c s IH]; [done |].
  rewrite split_on_cons. pose proof (split_on_nonempty sep s) as Hne.
  case_bool_decide as Hc.
  - destruct (split_on sep s) as [|h t] eqn:E; [done |].
    rewrite join_with_cons, IH. simpl. by subst.
  - destruct (split_on sep s) as [|h t] eqn:E; [done |].
    destruct t as [|h' t].
    + simpl in *. by subst.
    + rewrite join_with_cons. rewrite join_with_cons in IH.
      by rewrite <- IH.
Qed.

Lemma split_pieces_free (sep : ascii) (s : string) :
  Forall (fun piece => sep ∉ chars piece) (split_on sep s).
Proof.
  induction s as [|c s IH].
  - simpl. apply Forall_cons; split; [apply not_elem_of_nil | apply Forall_nil_2].
  - rewrite split_on_cons. case_bool_decide as Hc.
    + apply Forall_cons; split; [apply not_elem_of_nil | done].
    + destruct (split_on sep s) as [|h t].
      * apply Forall_cons; split; [| apply Forall_nil_2].
        simpl. rewrite not_elem_of_cons. split; [congruence | apply not_elem_of_nil].
      * apply Forall_cons in IH as [Hh Ht]. apply Forall_cons; split; [| done].
        simpl. rewrite not_elem_of_cons. split; [congruence | done].
Qed.

Lemma split_on_free (sep : ascii) (s : string) :
  sep ∉ chars s -> split_on sep s = [s].
Proof.
  induction s as [|c s IH]; [done |].
  simpl chars. rewrite not_elem_of_cons. intros [Hc Hs].
  rewrite split_on_cons, bool_decide_false by congruence.
  by rewrite IH.
Qed.

Lemma split_on_app (sep : ascii) (x rest : string) :
  sep ∉ chars x ->
  split_on sep (x +:+ String sep rest) = x :: split_on sep rest.
Proof.
  induction x as [|c x IH]; intros Hx.
  - simpl. by rewrite bool_decide_true.
  - simpl chars in Hx. rewrite not_elem_of_cons in Hx. destruct Hx as [Hc Hx].
    change (String c x +:+ String sep rest) with (String c (x +:+ String sep rest)).
    rewrite split_on_cons, bool_decide_false by congruence.
    by rewrite IH.
Qed.

(** Joining pieces that are free of the separator and splitting again
    gives the pieces back. *)
Lemma split_join (sep : ascii) (pieces : list string) :
  pieces ≠ [] ->
  Forall (fun piece => sep ∉ chars piece) pieces ->
  split_on sep (join_with sep pieces) = pieces.
Proof.
  induction pieces as [|x rest IH]; [done |]. intros _ Hall.
  apply Forall_cons in Hall as [Hx Hrest].
  destruct rest as [|y rest].
  - simpl. by apply split_on_free.
  - rewrite join_with_cons, split_on_app by done.
    by rewrite IH.
Qed.

(** ** Chunker *)

Lemma ceil_div_upper (a b : nat) : 0 < b -> a <= ceil_div a b * b.
Proof.
  intros Hb. unfold ceil_div.
  pose proof (Nat.div_mod_eq (a + (b - 1)) b) as Hdm.
  pose proof (Nat.mod_upper_bound (a + (b - 1)) b ltac:(lia)) as Hlt.
  nia.
Qed.

Lemma ceil_div_lower (a b : nat) : 0 < b -> 0 < a -> (ceil_div a b - 1) * b < a.
Proof.
  intros Hb Ha. unfold ceil_div.
  pose proof (Nat.div_mod_eq (a + (b - 1)) b) as Hdm.
  pose proof (Nat.mod_upper_bound (a + (b - 1)) b ltac:(lia)) as Hlt.
  nia.
Qed.

Lemma ceil_div_pos (a b : nat) : 0 < b -> 0 < a -> 0 < ceil_div a b.
Proof.
  intros Hb Ha. pose proof (ceil_div_upper a b Hb).
  destruct (ceil_div a b); simpl in *; lia.
Qed.

Lemma slice_group {A} (l : list A) (i m : nat) :
  slice (i * m) (min (i * m + m) (length l)) l = take m (drop (i * m) l).
Proof.
  unfold slice. destruct (decide (i * m + m <= length l)) as [Hle | Hgt].
  - rewrite Nat.min_l by done. f_equal. lia.
  - rewrite Nat.min_r by lia.
    rewrite !take_ge; [done | |]; rewrite length_drop; lia.
Qed.

Lemma fold_left_push {A B} (f : B -> A) (l : list B) (init : list A) :
  fold_left (fun acc i => acc ++ [f i]) l init = init ++ map f l.
Proof.
  revert init. induction l as [|x l IH]; intros init; simpl.
  - by rewrite app_nil_r.
  - by rewrite IH, <- app_assoc.
Qed.

Lemma concat_groups {A} (l : list A) (m n : nat) :
  concat (map (fun i => take m (drop (i * m) l)) (seq 0 n)) = take (n * m) l.
Proof.
  induction n as [|n IH]; [done |].
  rewrite seq_S, map_app, concat_app, IH. simpl.
  rewrite app_nil_r, take_take_drop. f_equal. lia.
Qed.

(** The chunks as a list comprehension. *)
Lemma splitFileContent_chunks (cfg : Config) (filePath content : string) :
  let lines := split_on newline content in
  let m := maxLinesPerBlob cfg in
  let n := ceil_div (length lines) m in
  m < length lines ->
  splitFileContent cfg filePath content
  = map (fun i => {| blob_path := chunkPath filePath i n;
                     blob_content := join_with newline (take m (drop (i * m) lines));
                     blob_hash := None |}) (seq 0 n).
Proof.
  intros lines m n Hlt. unfold splitFileContent.
  rewrite bool_decide_false by (fold lines m; lia).
  rewrite fold_left_push. simpl. apply map_ext. intros i.
  by rewrite slice_group.
Qed.

(** C4: a content of at most [maxLinesPerBlob] lines comes back as the one
    blob it is; a longer one is cut into [n = ceil(totalLines /
    maxLinesPerBlob)] blobs, the i-th of which (counting from 1) is named
    [<path>#chunk<i>of<n>] and holds the i-th group of [maxLinesPerBlob]
    consecutive lines (the last group holding what is left, at least one
    line); the groups, in order, add up to the original lines. *)
Theorem chunker_correct (cfg : Config) (filePath content : string) :
  0 < maxLinesPerBlob cfg ->
  let lines := split_on newline content in
  let m := maxLinesPerBlob cfg in
  let n := ceil_div (length lines) m in
  let blobs := splitFileContent cfg filePath content in
  (length lines <= m ->
     blobs = [ {| blob_path := filePath; blob_content := content; blob_hash := None |} ])
  ∧ (m < length lines ->
     length blobs = n
     ∧ (n - 1) * m < length lines <= n * m
     ∧ (forall i b, blobs !! i = Some b ->
          blob_path b = filePath +:+ "#chunk" +:+ pretty (i + 1) +:+ "of" +:+ pretty n
          ∧ blobLines b = take m (drop (i * m) lines)
          ∧ (i < n - 1 -> length (blobLines b) = m)
          ∧ (i = n - 1 -> 0 < length (blobLines b) <= m))
     ∧ concat (map blobLines blobs) = lines
     ∧ join_with newline (concat (map blobLines blobs)) = content).
Proof.
  intros Hm lines m n blobs. split.
  - intros Hle. unfold blobs, splitFileContent.
    by rewrite bool_decide_true by (fold lines m; lia).
  - intros Hlt.
    pose proof (ceil_div_upper (length lines) m Hm) as Hup.
    pose proof (ceil_div_lower (length lines) m Hm ltac:(lia)) as Hlow.
    fold n in Hup, Hlow.
    assert (Hgroup : forall i, i < n ->
      split_on newline (join_with newline (take m (drop (i * m) lines)))
      = take m (drop (i * m) lines)).
    { intros i Hi. apply split_join.
      - intros Hnil. apply (f_equal length) in Hnil.
        rewrite length_take, length_drop in Hnil. simpl in Hnil. nia.
      - apply Forall_take, Forall_drop, split_pieces_free. }
    assert (Hblobs : blobs = map (fun i =>
        {| blob_path := chunkPath filePath i n;
           blob_content := join_with newline (take m (drop (i * m) lines));
           blob_hash := None |}) (seq 0 n))
      by (by apply splitFileContent_chunks).
    assert (Hlines : map blobLines blobs
                     = map (fun i => take m (drop (i * m) lines)) (seq 0 n)).
    { rewrite Hblobs, map_map. apply map_ext_in. intros i Hi.
      apply in_seq in Hi. unfold blobLines. simpl. apply Hgroup. lia. }
    assert (Hconcat : concat (map blobLines blobs) = lines).
    { rewrite Hlines, concat_groups. apply take_ge. lia. }
    split; [| split; [| split; [| split]]].
    + by rewrite Hblobs, length_map, length_seq.
    + lia.
    + intros i b Hb. rewrite Hblobs in Hb.
      apply list_lookup_fmap_Some in Hb as (j & -> & Hj).
      apply lookup_seq in Hj as [-> Hi]. simpl in Hi |- *.
      unfold blobLines. simpl. rewrite (Hgroup i Hi).
      split; [done |]. split; [done |].
      rewrite length_take, length_drop. split; intros; nia.
    + done.
    + rewrite Hconcat. apply join_split.
Qed.

Lemma chunker_correct_witness :
  0 < maxLinesPerBlob sampleConfig
  ∧ map blob_path (splitFileContent sampleConfig "f.ts" fiveLines)
    = ["f.ts#chunk1of3"; "f.ts#chunk2of3"; "f.ts#chunk3of3"]
  ∧ concat (map blobLines (splitFileContent sampleConfig "f.ts" fiveLines))
    = ["a"; "b"; "c"; "d"; "e"].
Proof.
  assert (Hm : 0 < maxLinesPerBlob sampleConfig) by (simpl; lia).
  split; [exact Hm |].
  destruct (chunker_correct sampleConfig "f.ts" fiveLines Hm) as [_ Hlong].
  destruct Hlong as (_ & _ & _ & Hconcat & _); [vm_compute; lia |].
  split; [vm_compute; reflexivity | exact Hconcat].
Defined.

(** ** Exclusion matcher *)

Example star_pyc : matchPattern "foo.pyc" "*.pyc" = Matched true.
Proof. reflexivity. Qed.

Example star_pyc_bak : matchPattern "foo.pyc.bak" "*.pyc" = Matched false.
Proof. reflexivity. Qed.

Example dot_is_literal : matchPattern "xenv.local" ".env.*" = Matched false.
Proof. reflexivity. Qed.

Example question_mark : matchPattern "a1" "a?" = Matched true.
Proof. reflexivity. Qed.

Example plus_repeats : matchPattern "aab" "a+b" = Matched true.
Proof. reflexivity. Qed.

Example nothing_to_repeat : matchPattern "c++" "c++" = MatchThrows.
Proof. reflexivity. Qed.

Example group_is_outside : matchPattern "a" "(a)" = MatchUnmodelled.
Proof. reflexivity. Qed.

Lemma string_app_assoc (a b c : string) : (a +:+ b) +:+ c = a +:+ (b +:+ c).
Proof.
  induction a as [|x a IH]; [done |].
  change (String x ((a +:+ b) +:+ c) = String x (a +:+ b +:+ c)).
  by rewrite IH.
Qed.

Lemma string_app_cons (x : ascii) (a b : string) :
  String x a +:+ b = String x (a +:+ b).
Proof. reflexivity. Qed.

Lemma replace_all_app (c : ascii) (rep a b : string) :
  replace_all c rep (a +:+ b) = replace_all c rep a +:+ replace_all c rep b.
Proof.
  induction a as [|x a IH]; [done |].
  rewrite string_app_cons. simpl. 
  case_bool_decide; rewrite IH; [symmetry; apply string_app_assoc | done].
Qed.

Lemma regexPattern_cons (c : ascii) (p : string) :
  regexPattern (String c p) = regexPiece c +:+ regexPattern p.
Proof.
  unfold regexPattern, regexPiece. simpl replace_all at 3.
  case_bool_decide as Hdot.
  - by rewrite !replace_all_app.
  - simpl replace_all at 2. case_bool_decide as Hstar.
    + by rewrite !replace_all_app.
    + simpl replace_all at 1. by case_bool_decide.
Qed.

Lemma parse_plain (p : string) (acc : RegExp.items) :
  plain_pattern p ->
  RegExp.parse (chars (regexPattern p +:+ "$")) acc
  = RegExp.Regex (rev acc ++ map globItem (chars p)).
Proof.
  revert acc. induction p as [|c p IH]; intros acc Hplain.
  - simpl. by rewrite app_nil_r.
  - apply Forall_cons in Hplain as [Hc Hp].
    rewrite regexPattern_cons, string_app_assoc, chars_app.
    unfold regexPiece, globItem. simpl chars at 3.
    case_bool_decide as Hdot.
    { subst c. simpl. rewrite IH by done. simpl. by rewrite <- app_assoc. }
    case_bool_decide as Hstar.
    { subst c. simpl. rewrite IH by done. simpl. by rewrite <- app_assoc. }
    case_bool_decide as Hq.
    { subst c. simpl. rewrite IH by done. simpl. by rewrite <- app_assoc. }
    unfold is_glob_char in Hc.
    rewrite !bool_decide_false, !orb_false_l in Hc by done.
    apply negb_true_iff in Hc.
    assert (Hnot : forall x, x ∈ RegExp.syntax_chars -> c ≠ x).
    { intros x Hx ->. unfold RegExp.is_syntax_char in Hc.
      by apply bool_decide_eq_false in Hc. }
    simpl.
    rewrite !bool_decide_false, Hc by (try done; apply Hnot; vm_compute; set_solver).
    rewrite IH by done. simpl. by rewrite <- app_assoc.
Qed.

Lemma matches_star (a : RegExp.atom) (r : RegExp.items) (s : list ascii) :
  RegExp.matches ((a, RegExp.Star) :: r) s
  = RegExp.matches r s
    || match s with
       | c :: s' => RegExp.atom_matches a c && RegExp.matches ((a, RegExp.Star) :: r) s'
       | [] => false
       end.
Proof. by destruct s. Qed.

Lemma glob_match_star (p s : list ascii) :
  glob_match ("*"%char :: p) s
  = glob_match p s
    || match s with
       | _ :: s' => glob_match ("*"%char :: p) s'
       | [] => false
       end.
Proof. by destruct s. Qed.

(** On a plain pattern and a string without line terminators the compiled
    expression and the glob agree. *)
Lemma matches_glob (p s : list ascii) :
  Forall (fun c => RegExp.is_line_terminator c = false) s ->
  RegExp.matches (map globItem p) s = glob_match p s.
Proof.
  revert s. induction p as [|c p IH]; intros s Hs; [by destruct s |].
  rewrite map_cons. unfold globItem at 1.
  case_bool_decide as Hstar.
  - subst c. induction s as [|x s IHs].
    + rewrite matches_star, glob_match_star. by rewrite IH.
    + apply Forall_cons in Hs as Hs'. destruct Hs' as [Hx Hs'].
      rewrite matches_star, glob_match_star, IH, IHs by done.
      simpl. by rewrite Hx.
  - case_bool_decide as Hq.
    + subst c. destruct s as [|x s]; [done |].
      apply Forall_cons in Hs as [Hx Hs].
      simpl. rewrite Hx, IH by done. reflexivity.
    + destruct s as [|x s]; simpl; rewrite (bool_decide_false (c = "*"%char)) by done;
        [done |].
      apply Forall_cons in Hs as [Hx Hs].
      rewrite IH by done.
      by rewrite (bool_decide_false (c = "?"%char)) by done.
Qed.

Lemma matchPattern_plain (str pattern : string) :
  plain_pattern pattern ->
  no_line_terminator str ->
  matchPattern str pattern = Matched (glob_match (chars pattern) (chars str)).
Proof.
  intros Hp Hs. unfold matchPattern, RegExp.compile.
  change (chars ("^" +:+ regexPattern pattern +:+ "$"))
    with ("^"%char :: chars (regexPattern pattern +:+ "$")).
  cbv beta iota. rewrite bool_decide_true by done.
  rewrite parse_plain by done. simpl. by rewrite matches_glob.
Qed.

Lemma anyPartMatches_plain (parts : list string) (pattern : string) :
  plain_pattern pattern ->
  Forall no_line_terminator parts ->
  anyPartMatches parts pattern
  = Some (inl (existsb (fun part => glob_match (chars pattern) (chars part)) parts)).
Proof.
  intros Hp. induction parts as [|part rest IH]; intros Hall; [done |].
  apply Forall_cons in Hall as [Hpart Hrest].
  simpl. rewrite matchPattern_plain by done.
  destruct (glob_match (chars pattern) (chars part)); [done |].
  by rewrite IH.
Qed.

Lemma excludeLoop_plain (patterns parts : list string) (relativePath : string) :
  Forall plain_pattern patterns ->
  Forall no_line_terminator parts ->
  no_line_terminator relativePath ->
  excludeLoop patterns parts relativePath
  = Some (inl (existsb (fun pattern =>
                 existsb (fun part => glob_match (chars pattern) (chars part)) parts
                 || glob_match (chars pattern) (chars relativePath)) patterns)).
Proof.
  intros Hpats Hparts Hrel.
  induction patterns as [|pattern rest IH]; [done |].
  apply Forall_cons in Hpats as [Hp Hrest].
  simpl. rewrite anyPartMatches_plain by done.
  destruct (existsb _ parts); [done |].
  rewrite matchPattern_plain by done.
  destruct (glob_match (chars pattern) (chars relativePath)); [done |].
  by rewrite IH.
Qed.

Lemma split_pieces_chars (sep : ascii) (s piece : string) (c : ascii) :
  piece ∈ split_on sep s -> c ∈ chars piece -> c ∈ chars s.
Proof.
  revert piece. induction s as [|x s IH]; intros piece Hpiece Hc.
  - simpl in Hpiece. apply list_elem_of_singleton in Hpiece. by subst.
  - rewrite split_on_cons in Hpiece. simpl chars.
    case_bool_decide as Hx.
    + apply elem_of_cons in Hpiece as [-> | Hin]; [by apply elem_of_nil in Hc |].
      apply elem_of_cons. right. by eapply IH.
    + pose proof (split_on_nonempty sep s) as Hne.
      destruct (split_on sep s) as [|h t]; [done |].
      apply elem_of_cons in Hpiece as [-> | Hin].
      * simpl in Hc. apply elem_of_cons in Hc as [-> | Hc]; [by left |].
        apply elem_of_cons. right. apply (IH h); [by left | done].
      * apply elem_of_cons. right. apply (IH piece); [by right | done].
Qed.

Lemma split_no_line_terminator (sep : ascii) (s : string) :
  no_line_terminator s -> Forall no_line_terminator (split_on sep s).
Proof.
  intros Hs. apply Forall_forall. intros piece Hpiece.
  apply Forall_forall. intros c Hc.
  unfold no_line_terminator in Hs. rewrite Forall_forall in Hs.
  apply Hs. by eapply split_pieces_chars.
Qed.

(** Where the matcher is the glob it is meant to be: on patterns made of
    wildcards, dots and characters that mean nothing special in a regular
    expression, and on a relative path without line terminators, a path is
    excluded exactly when some pattern, read as an anchored glob, matches
    one of the segments of the relative path or the whole relative path;
    when the relative path cannot be computed the path is not excluded. A
    pattern naming a segment (such as node_modules) therefore excludes
    every path that has that segment. *)
Theorem exclusion_matching (pm : PathModule) (cfg : Config) (filePath rootPath : string) :
  Forall plain_pattern (excludePatterns cfg) ->
  (forall rel, path_relative pm rootPath filePath = Some rel -> no_line_terminator rel) ->
  shouldExclude pm cfg filePath rootPath
  = Some (match path_relative pm rootPath filePath with
          | Some rel => glob_excludes (path_sep pm) (excludePatterns cfg) rel
          | None => false
          end)
  ∧ (shouldExclude pm cfg filePath rootPath = Some true
     <-> exists rel pattern,
           path_relative pm rootPath filePath = Some rel
           ∧ pattern ∈ excludePatterns cfg
           ∧ ((exists part, part ∈ split_on (path_sep pm) rel
                            ∧ glob_match (chars pattern) (chars part) = true)
              ∨ glob_match (chars pattern) (chars rel) = true))
  ∧ (forall rel segment,
       path_relative pm rootPath filePath = Some rel ->
       plain_pattern segment ->
       (forall c, c ∈ chars segment -> c ≠ "*"%char ∧ c ≠ "?"%char) ->
       segment ∈ excludePatterns cfg ->
       segment ∈ split_on (path_sep pm) rel ->
       shouldExclude pm cfg filePath rootPath = Some true).
Proof.
  intros Hpats Hrel.
  assert (Heq : shouldExclude pm cfg filePath rootPath
    = Some (match path_relative pm rootPath filePath with
            | Some rel => glob_excludes (path_sep pm) (excludePatterns cfg) rel
            | None => false
            end)).
  { unfold shouldExclude.
    destruct (path_relative pm rootPath filePath) as [rel|] eqn:E; [| done].
    rewrite excludeLoop_plain; [done | done | | by apply Hrel].
    apply split_no_line_terminator. by apply Hrel. }
  assert (Hiff : shouldExclude pm cfg filePath rootPath = Some true
     <-> exists rel pattern,
           path_relative pm rootPath filePath = Some rel
           ∧ pattern ∈ excludePatterns cfg
           ∧ ((exists part, part ∈ split_on (path_sep pm) rel
                            ∧ glob_match (chars pattern) (chars part) = true)
              ∨ glob_match (chars pattern) (chars rel) = true)).
  { rewrite Heq. destruct (path_relative pm rootPath filePath) as [rel|] eqn:E.
    - unfold glob_excludes. split.
      + intros [= Hex]. apply existsb_exists in Hex as (pattern & Hin & Hm).
        exists rel, pattern. split; [done |]. split; [by apply list_elem_of_In |].
        apply orb_true_iff in Hm as [Hm | Hm]; [left | by right].
        apply existsb_exists in Hm as (part & Hpin & Hpm).
        exists part. split; [by apply list_elem_of_In | done].
      + intros (rel' & pattern & [= <-] & Hin & Hm). f_equal.
        apply existsb_exists. exists pattern. split; [by apply list_elem_of_In |].
        apply orb_true_iff. destruct Hm as [(part & Hpin & Hpm) | Hm]; [left | by right].
        apply existsb_exists. exists part. split; [by apply list_elem_of_In | done].
    - split; [done |]. by intros (rel' & pattern & [=] & _). }
  split; [exact Heq |]. split; [exact Hiff |].
  intros rel segment Erel Hplain Hlit Hin Hseg. apply Hiff.
  exists rel, segment. split; [done |]. split; [done |]. left.
  exists segment. split; [done |].
  clear -Hlit. induction (chars segment) as [|c l IH]; [done |].
  destruct (Hlit c ltac:(by left)) as [Hs Hq].
  simpl. rewrite bool_decide_false by done.
  rewrite (bool_decide_true (c = c)) by done. rewrite orb_true_r. simpl.
  apply IH. intros x Hx. apply Hlit. by right.
Qed.

Lemma exclusion_matching_witness :
  Forall plain_pattern (excludePatterns sampleConfig)
  ∧ (forall rel, path_relative samplePath "/r" "/r/src/node_modules/x.js" = Some rel ->
                 no_line_terminator rel)
  ∧ shouldExclude samplePath sampleConfig "/r/src/node_modules/x.js" "/r" = Some true.
Proof.
  assert (H1 : Forall plain_pattern (excludePatterns sampleConfig)).
  { unfold plain_pattern. simpl. repeat constructor. }
  assert (H2 : forall rel,
             path_relative samplePath "/r" "/r/src/node_modules/x.js" = Some rel ->
             no_line_terminator rel).
  { intros rel [= <-]. repeat constructor. }
  split; [exact H1 |]. split; [exact H2 |].
  destruct (exclusion_matching samplePath sampleConfig
              "/r/src/node_modules/x.js" "/r" H1 H2) as (Heq & _ & _).
  rewrite Heq. reflexivity.
Defined.

Example pyc_excluded :
  shouldExclude samplePath sampleConfig "/r/pkg/foo.pyc" "/r" = Some true.
Proof. reflexivity. Qed.

Example pyc_bak_kept :
  shouldExclude samplePath sampleConfig "/r/pkg/foo.pyc.bak" "/r" = Some false.
Proof. reflexivity. Qed.

Example relative_throws_kept :
  shouldExclude throwingPath sampleConfig "/r/node_modules" "/r" = Some false.
Proof. reflexivity. Qed.

(** C7: exclusion by an anchored glob, in which every character but [*]
    and [?] stands for itself, is what the matcher is written for, and it
    is not what it does on the pattern [a+b]: only the dot is escaped, so
    the pattern is compiled as a regular expression in which [+] repeats
    the [a]. The file named a+b, which the glob excludes, is kept; the
    file named aab, which the glob keeps, is excluded. *)
Lemma exclusion_glob_counterexample :
  (shouldExclude samplePath plusConfig "/r/a+b" "/r" = Some false
   ∧ glob_excludes "/" (excludePatterns plusConfig) "a+b" = true)
  ∧ (shouldExclude samplePath plusConfig "/r/aab" "/r" = Some true
     ∧ glob_excludes "/" (excludePatterns plusConfig) "aab" = false).
Proof. repeat split; reflexivity. Qed.

(** ** Retry policy *)

Lemma retryLoop_zero {T} (fn : M T) (n d a : nat) (last : JsError) (w : World) :
  retryLoop fn n d 0 a last w = (Thrown last, w).
Proof. reflexivity. Qed.

Lemma retryLoop_ok {T} (fn : M T) (n d r a : nat) (last : JsError) (w w1 : World) (v : T) :
  fn w = (Ok v, w1) ->
  retryLoop fn n d (S r) a last w = (Ok v, w1).
Proof. intros H. simpl. unfold try_catch. by rewrite H. Qed.

Lemma retryLoop_stop {T} (fn : M T) (n d r a : nat) (last e : JsError) (w w1 : World) :
  fn w = (Thrown e, w1) -> goesOn e = false ->
  retryLoop fn n d (S r) a last w = (Thrown e, w1).
Proof.
  intros H Hgo. simpl. unfold try_catch. rewrite H.
  unfold goesOn in Hgo. apply negb_false_iff in Hgo. by rewrite Hgo.
Qed.

Lemma retryLoop_again {T} (fn : M T) (n d r a : nat) (last e : JsError) (w w1 : World) :
  fn w = (Thrown e, w1) -> goesOn e = true ->
  retryLoop fn n d (S r) a last w
  = retryLoop fn n d r (S a) e
      (if bool_decide (a < n - 1)
       then {| projectsFile := projectsFile w1; requests := requests w1;
               effects := effects w1 ++ [Waited (d * 2 ^ a)] |}
       else w1).
Proof.
  intros H Hgo. simpl. unfold try_catch. rewrite H.
  unfold goesOn in Hgo. apply negb_true_iff in Hgo. rewrite Hgo.
  unfold bind. by case_bool_decide.
Qed.

Local Arguments retryLoop : simpl never.

(** [k] failed attempts that the policy retries, with more attempts left:
    the loop arrives at attempt [a + k] having sent [k] requests and waited
    after each. *)
Lemma retryLoop_skip (env : Env) (req : Request) (n d : nat) :
  forall (k r a : nat) (last : JsError) (w : World),
    a + k + r < n ->
    (forall i, i < k -> exists e,
        env_post env (requests w + i) req = Thrown e ∧ goesOn e = true) ->
    exists last',
      retryLoop (axios_post env req) n d (k + S r) a last w
      = retryLoop (axios_post env req) n d (S r) (a + k) last'
          {| projectsFile := projectsFile w;
             requests := requests w + k;
             effects := effects w ++ backoffEffects req d a k |}.
Proof.
  induction k as [|k IH]; intros r a last w Hlt Hfail.
  - exists last. simpl. rewrite Nat.add_0_r. unfold backoffEffects. simpl.
    rewrite app_nil_r, Nat.add_0_r. by destruct w.
  - destruct (Hfail 0 ltac:(lia)) as (e & He & Hgo).
    rewrite Nat.add_0_r in He.
    change (S k + S r) with (S (k + S r)).
    erewrite retryLoop_again; [| unfold axios_post; rewrite He; reflexivity | done].
    rewrite bool_decide_true by lia. simpl.
    edestruct (IH r (S a) e) as (last' & ->); [lia | |].
    { intros i Hi. simpl. destruct (Hfail (S i) ltac:(lia)) as (e' & He' & Hgo').
      exists e'. split; [| done]. rewrite <- He'. f_equal. lia. }
    exists last'. replace (S a + k) with (a + S k) by lia.
    f_equal. simpl. f_equal; [lia |].
    unfold backoffEffects. simpl. by rewrite <- !app_assoc.
Qed.

Lemma goesOn_spec (e : JsError) :
  goesOn e = true
  <-> match e with
      | AxiosError code st _ =>
          code = Some "ECONNABORTED" ∨ code = Some "ETIMEDOUT"
          ∨ code = Some "ECONNREFUSED" ∨ st = Some 429
          ∨ (exists s, st = Some s ∧ 500 <= s)
      | OtherError _ | NullValue => True
      end.
Proof.
  destruct e as [code st msg | msg |]; [| done | done].
  unfold goesOn. simpl. rewrite negb_involutive.
  rewrite !orb_true_iff, !bool_decide_eq_true.
  split.
  - intros [[[[H | H] | H] | H] | H]; auto.
    destruct st as [s|]; simpl in H; [| lia]. do 4 right. by exists s.
  - intros [H | [H | [H | [H | (s & -> & H)]]]]; auto.
Qed.

(** C5, as the code has it. After a failed attempt the policy goes on
    unless the error is an axios error that is neither one of the codes
    ECONNABORTED, ETIMEDOUT, ECONNREFUSED nor a status 429 or of 500 and
    more; an error that is not an axios error is retried like a transient
    one. Attempt [i] (from 0), when it fails and another attempt is left,
    is followed by a wait of [retryDelay * 2 ^ i]. With [k] such failures
    first, the request ends at attempt [k] with the value that attempt
    returns, or with the error it throws when that error is not retried or
    when attempt [k] was the last of the [maxRetries] attempts; nothing is
    sent and no wait is made after that. *)
Theorem retry_policy (env : Env) (req : Request) (options : RetryOptions)
    (w : World) (k : nat) :
  let n := default 3 (opt_maxRetries options) in
  let d := default 1000 (opt_retryDelay options) in
  let after := {| projectsFile := projectsFile w;
                  requests := requests w + k + 1;
                  effects := effects w ++ backoffEffects req d 0 k ++ [Requested req] |} in
  k < n ->
  (forall i, i < k -> exists e,
      env_post env (requests w + i) req = Thrown e ∧ goesOn e = true) ->
  (forall v, env_post env (requests w + k) req = Ok v ->
     retryRequest (axios_post env req) options w = (Ok v, after))
  ∧ (forall e, env_post env (requests w + k) req = Thrown e -> goesOn e = false ->
       retryRequest (axios_post env req) options w = (Thrown e, after))
  ∧ (forall e, env_post env (requests w + k) req = Thrown e -> goesOn e = true ->
       k = n - 1 ->
       retryRequest (axios_post env req) options w = (Thrown e, after))
  ∧ (forall e, goesOn e = true
       <-> match e with
           | AxiosError code st _ =>
               code = Some "ECONNABORTED" ∨ code = Some "ETIMEDOUT"
               ∨ code = Some "ECONNREFUSED" ∨ st = Some 429
               ∨ (exists s, st = Some s ∧ 500 <= s)
           | OtherError _ | NullValue => True
           end).
Proof.
  intros n d after Hk Hfail.
  assert (Hskip : exists last',
    retryRequest (axios_post env req) options w
    = retryLoop (axios_post env req) n d (S (n - k - 1)) k last'
        {| projectsFile := projectsFile w;
           requests := requests w + k;
           effects := effects w ++ backoffEffects req d 0 k |}).
  { unfold retryRequest. fold n d.
    destruct (retryLoop_skip env req n d k (n - k - 1) 0 NullValue w
                ltac:(lia) Hfail) as (last' & Heq).
    exists last'. simpl in Heq. rewrite <- Heq. f_equal. lia. }
  destruct Hskip as (last' & ->).
  assert (Hafter : forall o,
    env_post env (requests w + k) req = o ->
    axios_post env req
      {| projectsFile := projectsFile w;
         requests := requests w + k;
         effects := effects w ++ backoffEffects req d 0 k |} = (o, after)).
  { intros o Ho. unfold axios_post, after. simpl. rewrite Ho.
    f_equal. f_equal; [lia | by rewrite <- app_assoc]. }
  split; [| split; [| split]].
  - intros v Hv. by apply retryLoop_ok, Hafter.
  - intros e He Hgo. by apply retryLoop_stop; [apply Hafter |].
  - intros e He Hgo Hlast.
    erewrite retryLoop_again; [| by apply Hafter | done].
    rewrite bool_decide_false by lia.
    replace (n - k - 1) with 0 by lia. apply retryLoop_zero.
  - apply goesOn_spec.
Qed.

Lemma retry_policy_witness :
  2 < default 3 (opt_maxRetries (retry3 1000))
  ∧ (forall i, i < 2 -> exists e,
        env_post (envFailing serviceUnavailable) (requests emptyWorld + i) pingRequest
        = Thrown e ∧ goesOn e = true)
  ∧ retryRequest (axios_post (envFailing serviceUnavailable) pingRequest)
                 (retry3 1000) emptyWorld
    = (Thrown serviceUnavailable,
       {| projectsFile := FileMissing;
          requests := 3;
          effects := [Requested pingRequest; Waited 1000;
                      Requested pingRequest; Waited 2000;
                      Requested pingRequest] |}).
Proof.
  assert (H1 : 2 < default 3 (opt_maxRetries (retry3 1000))) by (simpl; lia).
  assert (H2 : forall i, i < 2 -> exists e,
        env_post (envFailing serviceUnavailable) (requests emptyWorld + i) pingRequest
        = Thrown e ∧ goesOn e = true).
  { intros i _. exists serviceUnavailable. split; reflexivity. }
  split; [exact H1 |]. split; [exact H2 |].
  destruct (retry_policy (envFailing serviceUnavailable) pingRequest (retry3 1000)
              emptyWorld 2 H1 H2) as (_ & _ & Hlast & _).
  rewrite (Hlast serviceUnavailable eq_refl eq_refl eq_refl). reflexivity.
Defined.

Example not_found_is_not_retried :
  retryRequest (axios_post (envFailing notFound) pingRequest) (retry3 1000) emptyWorld
  = (Thrown notFound,
     {| projectsFile := FileMissing; requests := 1;
        effects := [Requested pingRequest] |}).
Proof. reflexivity. Qed.

(** C5 as stated fails in both directions of its classification. An error
    that is not an axios error is none of the listed transient conditions,
    yet it is retried to the last attempt, with both waits. A connection
    reset is on the list, yet it is thrown on at the first attempt. *)
Lemma retry_classification_counterexample :
  (spec_transient plainFailure = false
   ∧ retryRequest (axios_post (envFailing plainFailure) pingRequest)
                  (retry3 1000) emptyWorld
     = (Thrown plainFailure,
        {| projectsFile := FileMissing;
           requests := 3;
           effects := [Requested pingRequest; Waited 1000;
                       Requested pingRequest; Waited 2000;
                       Requested pingRequest] |}))
  ∧ (spec_transient connectionReset = true
     ∧ retryRequest (axios_post (envFailing connectionReset) pingRequest)
                    (retry3 1000) emptyWorld
       = (Thrown connectionReset,
          {| projectsFile := FileMissing; requests := 1;
             effects := [Requested pingRequest] |})).
Proof. repeat split; reflexivity. Qed.

(** ** The batch loop *)

Lemma onlyNetwork_refl (w : World) : onlyNetwork w w.
Proof.
  split; [done |]. split; [done |]. exists []. by rewrite app_nil_r.
Qed.

Lemma onlyNetwork_trans (w1 w2 w3 : World) :
  onlyNetwork w1 w2 -> onlyNetwork w2 w3 -> onlyNetwork w1 w3.
Proof.
  intros (Hf1 & Hr1 & es1 & He1 & Hs1) (Hf2 & Hr2 & es2 & He2 & Hs2).
  split; [congruence |]. split; [lia |].
  exists (es1 ++ es2). split; [by rewrite He2, He1, app_assoc |].
  by apply Forall_app.
Qed.

Lemma onlyNetwork_log (w : World) (e : Effect) (k : nat) :
  (forall m, e ≠ Saved m) ->
  onlyNetwork w {| projectsFile := projectsFile w; requests := requests w + k;
                   effects := effects w ++ [e] |}.
Proof.
  intros He. split; [done |]. split; [simpl; lia |].
  exists [e]. split; [done |]. by apply Forall_singleton.
Qed.

(** One turn of the loop around an HTTP request. *)
Lemma retryLoop_post (env : Env) (req : Request) (n d r a : nat)
    (last : JsError) (w : World) :
  retryLoop (axios_post env req) n d (S r) a last w
  = let sent := {| projectsFile := projectsFile w; requests := S (requests w);
                   effects := effects w ++ [Requested req] |} in
    match env_post env (requests w) req with
    | Ok v => (Ok v, sent)
    | Thrown e =>
        if goesOn e then
          retryLoop (axios_post env req) n d r (S a) e
            (if bool_decide (a < n - 1)
             then {| projectsFile := projectsFile w; requests := S (requests w);
                     effects := (effects w ++ [Requested req]) ++ [Waited (d * 2 ^ a)] |}
             else sent)
        else (Thrown e, sent)
    end.
Proof.
  cbv zeta. destruct (env_post env (requests w) req) as [v | e] eqn:E.
  - apply retryLoop_ok. unfold axios_post. by rewrite E.
  - destruct (goesOn e) eqn:Hgo.
    + erewrite retryLoop_again; [| unfold axios_post; by rewrite E | done]. done.
    + apply retryLoop_stop; [| done]. unfold axios_post. by rewrite E.
Qed.

Create HintDb network.

Lemma onlyNetwork_sent (w : World) (req : Request) :
  onlyNetwork w {| projectsFile := projectsFile w; requests := S (requests w);
                   effects := effects w ++ [Requested req] |}.
Proof.
  replace (S (requests w)) with (requests w + 1) by lia. by apply onlyNetwork_log.
Qed.

Lemma onlyNetwork_waited (w : World) (req : Request) (ms : nat) :
  onlyNetwork w {| projectsFile := projectsFile w; requests := S (requests w);
                   effects := (effects w ++ [Requested req]) ++ [Waited ms] |}.
Proof.
  eapply onlyNetwork_trans; [apply (onlyNetwork_sent w req) |].
  split; [done |]. split; [done |]. exists [Waited ms].
  split; [done |]. by apply Forall_singleton.
Qed.

#[local] Hint Resolve onlyNetwork_refl onlyNetwork_sent onlyNetwork_waited : network.

Lemma retryLoop_network (env : Env) (req : Request) (n d : nat) :
  forall (r a : nat) (last : JsError) (w : World),
    onlyNetwork w (snd (retryLoop (axios_post env req) n d r a last w)).
Proof.
  induction r as [|r IH]; intros a last w; [apply onlyNetwork_refl |].
  rewrite retryLoop_post. cbv zeta.
  destruct (env_post env (requests w) req) as [v | e];
    [cbn [snd]; auto with network |].
  destruct (goesOn e); [| cbn [snd]; auto with network].
  eapply onlyNetwork_trans; [| apply IH].
  case_bool_decide; auto with network.
Qed.

Lemma retryLoop_requests_first (env : Env) (req : Request) (n d r a : nat)
    (last : JsError) (w : World) :
  Requested req ∈ effects (snd (retryLoop (axios_post env req) n d (S r) a last w)).
Proof.
  assert (Hin : forall w0 w1,
            Requested req ∈ effects w0 -> onlyNetwork w0 w1 ->
            Requested req ∈ effects w1).
  { intros w0 w1 Hw0 (_ & _ & es & -> & _). apply elem_of_app. by left. }
  assert (Hlast : forall l : list Effect, Requested req ∈ l ++ [Requested req]).
  { intros l. apply elem_of_app. right. by left. }
  rewrite retryLoop_post. cbv zeta.
  destruct (env_post env (requests w) req) as [v | e]; [apply Hlast |].
  destruct (goesOn e); [| apply Hlast].
  eapply Hin; [| apply retryLoop_network].
  case_bool_decide; simpl; [apply elem_of_app; left |]; apply Hlast.
Qed.



Lemma batchCall_network (env : Env) (cfg : Config) (toUpload : list Blob)
    (k : nat) (w : World) :
  onlyNetwork w (snd (batchCall env cfg toUpload k w)).
Proof. apply retryLoop_network. Qed.

Lemma worldBeforeBatch_network (env : Env) (cfg : Config) (toUpload : list Blob)
    (w : World) (k : nat) :
  onlyNetwork w (worldBeforeBatch env cfg toUpload w k).
Proof.
  induction k as [|k IH]; [apply onlyNetwork_refl |].
  simpl. eapply onlyNetwork_trans; [exact IH | apply batchCall_network].
Qed.

Lemma worldBeforeBatch_mono (env : Env) (cfg : Config) (toUpload : list Blob)
    (w : World) (j k : nat) :
  j <= k ->
  onlyNetwork (worldBeforeBatch env cfg toUpload w j)
              (worldBeforeBatch env cfg toUpload w k).
Proof.
  induction 1 as [|k Hle IH]; [apply onlyNetwork_refl |].
  simpl. eapply onlyNetwork_trans; [exact IH | apply batchCall_network].
Qed.

(** Every batch is sent at least once, whatever happened to the batches
    before it. *)
Lemma batch_attempted (env : Env) (cfg : Config) (toUpload : list Blob)
    (w : World) (k total : nat) :
  k < total ->
  Requested (BatchUpload (map (fun b => (blob_path b, blob_content b))
                              (batchBlobsOf cfg toUpload k)))
  ∈ effects (worldBeforeBatch env cfg toUpload w total).
Proof.
  intros Hk.
  destruct (worldBeforeBatch_mono env cfg toUpload w (S k) total ltac:(lia))
    as (_ & _ & es & -> & _).
  apply elem_of_app. left. simpl.
  unfold batchCall, retryRequest. simpl. apply retryLoop_requests_first.
Qed.

Lemma uploadLoop_spec (env : Env) (cfg : Config) (toUpload : list Blob) (w : World) :
  forall (n k : nat) (acc : list string * list nat),
    uploadLoop env cfg toUpload n k acc (worldBeforeBatch env cfg toUpload w k)
    = (Ok (fst acc
             ++ concat (map (fun j => returnedNames (batchOutcome env cfg toUpload w j))
                            (seq k n)),
           snd acc
             ++ map S (filter (fun j => batchFailed (batchOutcome env cfg toUpload w j) = true)
                              (seq k n))),
       worldBeforeBatch env cfg toUpload w (k + n)).
Proof.
  induction n as [|n IH]; intros k acc.
  - simpl. rewrite !app_nil_r, Nat.add_0_r. by destruct acc.
  - replace (k + S n) with (S k + n) by lia.
    simpl uploadLoop. unfold bind at 1. unfold try_catch. unfold bind at 1.
    fold (batchBlobsOf cfg toUpload k). fold (batchCall env cfg toUpload k).
    destruct (batchCall env cfg toUpload k (worldBeforeBatch env cfg toUpload w k))
      as [o w1] eqn:E.
    assert (Hw1 : worldBeforeBatch env cfg toUpload w (S k) = w1)
      by (simpl; by rewrite E).
    assert (Ho : batchOutcome env cfg toUpload w k = o)
      by (unfold batchOutcome; by rewrite E).
    simpl seq. rewrite filter_cons. simpl map. simpl concat. rewrite Ho.
    assert (Hnext : forall acc',
      acc' = (fst acc ++ returnedNames o,
              snd acc ++ (if batchFailed o then [S k] else [])) ->
      uploadLoop env cfg toUpload n (S k) acc' w1
      = (Ok (fst acc ++ returnedNames o
               ++ concat (map (fun j => returnedNames (batchOutcome env cfg toUpload w j))
                              (seq (S k) n)),
             snd acc ++ map S
               (if decide (batchFailed o = true)
                then k :: filter (fun j => batchFailed (batchOutcome env cfg toUpload w j) = true)
                                 (seq (S k) n)
                else filter (fun j => batchFailed (batchOutcome env cfg toUpload w j) = true)
                            (seq (S k) n))),
         worldBeforeBatch env cfg toUpload w (S k + n))).
    { intros acc' ->. rewrite <- Hw1, IH. simpl fst. simpl snd.
      f_equal. f_equal. f_equal; [by rewrite <- app_assoc |].
      destruct (batchFailed o); simpl; rewrite <- app_assoc; [done |].
      by rewrite app_nil_l. }
    destruct o as [[thrown | [[|name names]|] retrieval] | e];
      unfold batchFailed, returnedNames, field, bind, throw in Hnext |- *;
      simpl in Hnext |- *; unfold ret; apply Hnext;
      by rewrite ?Nat.add_1_r, ?app_nil_r.
Qed.

Lemma uploadAll_spec (env : Env) (cfg : Config) (toUpload : list Blob) (w : World) :
  let total := ceil_div (length toUpload) (batchSize cfg) in
  uploadAll env cfg toUpload w
  = (Ok (uploadedBy env cfg toUpload w total, failedIn env cfg toUpload w total),
     worldBeforeBatch env cfg toUpload w total).
Proof.
  intros total. unfold uploadAll. case_bool_decide as Hlen.
  - apply (uploadLoop_spec env cfg toUpload w total 0 ([], [])).
  - assert (Htotal : total = 0).
    { unfold total, ceil_div. replace (length toUpload) with 0 by lia.
      simpl. destruct (batchSize cfg) as [|b]; [done |].
      apply Nat.div_small. lia. }
    rewrite Htotal. done.
Qed.

(** ** Sets, maps and the diff *)

Lemma set_add_elem (s : list string) (h x : string) :
  x ∈ set_add s h <-> x ∈ s ∨ x = h.
Proof.
  unfold set_add, set_has. case_bool_decide as Hin.
  - split; [by left | intros [H | ->]; done].
  - rewrite elem_of_app, list_elem_of_singleton. done.
Qed.

Lemma set_add_NoDup (s : list string) (h : string) :
  NoDup s -> NoDup (set_add s h).
Proof.
  intros Hs. unfold set_add, set_has. case_bool_decide as Hin; [done |].
  apply NoDup_app. split; [done |]. split; [| apply NoDup_singleton].
  intros x Hx Hx'. apply list_elem_of_singleton in Hx'. by subst.
Qed.

Lemma fold_set_add (l acc : list string) :
  NoDup acc ->
  NoDup (fold_left set_add l acc)
  ∧ (forall h, h ∈ fold_left set_add l acc <-> h ∈ acc ∨ h ∈ l).
Proof.
  revert acc. induction l as [|x l IH]; intros acc Hacc; simpl.
  - split; [done |]. intros h. rewrite elem_of_nil. tauto.
  - destruct (IH (set_add acc x) (set_add_NoDup acc x Hacc)) as [Hnd Hel].
    split; [done |]. intros h. rewrite Hel, set_add_elem, elem_of_cons. tauto.
Qed.

Lemma new_Set_NoDup (l : list string) : NoDup (new_Set l).
Proof. apply fold_set_add, NoDup_nil_2. Qed.

Lemma new_Set_elem (l : list string) (h : string) : h ∈ new_Set l <-> h ∈ l.
Proof.
  unfold new_Set. pose proof (fold_set_add l [] (NoDup_nil_2)) as [_ H].
  rewrite H, elem_of_nil. tauto.
Qed.

Lemma fold_set_add_id (l acc : list string) :
  NoDup (acc ++ l) -> fold_left set_add l acc = acc ++ l.
Proof.
  revert acc. induction l as [|x l IH]; intros acc Hnd; simpl.
  - by rewrite app_nil_r.
  - assert (Hx : x ∉ acc).
    { apply NoDup_app in Hnd as (_ & Hdisj & _). intros Hin.
      apply (Hdisj x Hin). by left. }
    unfold set_add at 2, set_has. rewrite bool_decide_false by done.
    rewrite IH; rewrite <- app_assoc; done.
Qed.

(** A [Set] built from a list without repetitions lists it as it is. *)
Lemma new_Set_id (l : list string) : NoDup l -> new_Set l = l.
Proof. intros H. unfold new_Set. by rewrite fold_set_add_id. Qed.

Lemma map_keys_set (k : string) (v : Blob) (m : list (string * Blob)) :
  map_keys (map_set k v m) = set_add (map_keys m) k.
Proof.
  induction m as [|[k' v'] m IH]; [done |].
  unfold set_add, set_has, map_keys in IH |- *. simpl.
  destruct (decide (k = k')) as [-> | Hne].
  - rewrite (bool_decide_true (k' = k')) by done.
    rewrite bool_decide_true by (by left). done.
  - rewrite (bool_decide_false (k = k')) by done. simpl. rewrite IH.
    destruct (decide (k ∈ map fst m)) as [Hin | Hin].
    + rewrite (bool_decide_true (k ∈ map fst m)) by done.
      rewrite bool_decide_true by (by right). done.
    + rewrite (bool_decide_false (k ∈ map fst m)) by done.
      rewrite bool_decide_false; [done |].
      rewrite not_elem_of_cons. done.
Qed.

Lemma map_set_values (k : string) (v : Blob) (m : list (string * Blob)) :
  blob_hash v = Some k ->
  Forall (fun kv => blob_hash kv.2 = Some kv.1) m ->
  Forall (fun kv => blob_hash kv.2 = Some kv.1) (map_set k v m).
Proof.
  intros Hv. induction m as [|[k' v'] m IH]; intros Hm.
  - by apply Forall_singleton.
  - apply Forall_cons in Hm as [Hkv Hm]. simpl. case_bool_decide.
    + by apply Forall_cons.
    + apply Forall_cons. split; [done | by apply IH].
Qed.

Lemma map_get_elem (k : string) (v : Blob) (m : list (string * Blob)) :
  map_get k m = Some v -> (k, v) ∈ m.
Proof.
  induction m as [|[k' v'] m IH]; [done |]. simpl.
  case_bool_decide as Hk.
  - intros [= ->]. subst. by left.
  - intros H. right. by apply IH.
Qed.

Lemma map_get_key (k : string) (m : list (string * Blob)) :
  k ∈ map_keys m -> is_Some (map_get k m).
Proof.
  unfold map_keys. induction m as [|[k' v'] m IH]; simpl.
  - by intros ?%elem_of_nil.
  - case_bool_decide as Hk; [by eexists |].
    intros [Hin | Hin]%elem_of_cons; [done | by apply IH].
Qed.

Lemma hashBlobs_fold (blobs : list Blob) (m : list (string * Blob)) :
  let step := fun blobHashMap blob =>
    let hash := calculateHash (blob_path blob) (blob_content blob) in
    map_set hash {| blob_path := blob_path blob;
                    blob_content := blob_content blob;
                    blob_hash := Some hash |} blobHashMap in
  map_keys (fold_left step blobs m)
  = fold_left set_add (map hashOf blobs) (map_keys m)
  ∧ (Forall (fun kv => blob_hash kv.2 = Some kv.1) m ->
     Forall (fun kv => blob_hash kv.2 = Some kv.1) (fold_left step blobs m)).
Proof.
  intros step. revert m. induction blobs as [|b blobs IH]; intros m; [done |].
  simpl. destruct (IH (step m b)) as [Hk Hv]. split.
  - rewrite Hk. f_equal. unfold step. apply map_keys_set.
  - intros Hm. apply Hv. unfold step. by apply map_set_values.
Qed.

(** The keys of [blobHashMap] are the hashes of the blobs, each once, in
    the order of first appearance. *)
Lemma hashBlobs_keys (blobs : list Blob) :
  map_keys (hashBlobs blobs) = new_Set (map hashOf blobs).
Proof. apply (hashBlobs_fold blobs []). Qed.

Lemma hashBlobs_values (blobs : list Blob) :
  Forall (fun kv => blob_hash kv.2 = Some kv.1) (hashBlobs blobs).
Proof. apply (hashBlobs_fold blobs []), Forall_nil_2. Qed.

Lemma currentHashes_eq (blobs : list Blob) :
  currentHashes (hashBlobs blobs) = new_Set (map hashOf blobs).
Proof.
  unfold currentHashes. rewrite hashBlobs_keys.
  apply new_Set_id, new_Set_NoDup.
Qed.

Lemma unchangedHashes_eq (existing current : list string) :
  NoDup current ->
  unchangedHashes existing current
  = filter (fun h => set_has h existing = true) current.
Proof. intros H. by apply new_Set_id, NoDup_filter. Qed.

Lemma newHashes_eq (existing current : list string) :
  NoDup current ->
  newHashes existing current
  = filter (fun h => negb (set_has h existing) = true) current.
Proof. intros H. by apply new_Set_id, NoDup_filter. Qed.

Lemma filter_split_Permutation (f : string -> bool) (l : list string) :
  filter (fun h => f h = true) l ++ filter (fun h => negb (f h) = true) l ≡ₚ l.
Proof.
  induction l as [|x l IH]; [done |].
  rewrite !filter_cons. destruct (f x) eqn:E; simpl.
  - by rewrite IH.
  - rewrite <- Permutation_middle. by rewrite IH.
Qed.

(** The diff on the level of list membership. *)
Lemma diff_members (stored : list string) (blobs : list Blob) :
  let existingHashes := new_Set stored in
  let current := currentHashes (hashBlobs blobs) in
  let unchanged := unchangedHashes existingHashes current in
  let new := newHashes existingHashes current in
  NoDup current
  ∧ (forall h, h ∈ existingHashes <-> h ∈ stored)
  ∧ (forall h, h ∈ current <-> h ∈ map hashOf blobs)
  ∧ (forall h, h ∈ unchanged <-> h ∈ stored ∧ h ∈ current)
  ∧ (forall h, h ∈ new <-> h ∈ current ∧ h ∉ stored)
  ∧ unchanged ++ new ≡ₚ current.
Proof.
  intros existingHashes current unchanged new.
  assert (Hcur : current = new_Set (map hashOf blobs)) by apply currentHashes_eq.
  assert (Hnd : NoDup current) by (rewrite Hcur; apply new_Set_NoDup).
  assert (Hun : unchanged = filter (fun h => set_has h existingHashes = true) current)
    by (by apply unchangedHashes_eq).
  assert (Hnew : new = filter (fun h => negb (set_has h existingHashes) = true) current)
    by (by apply newHashes_eq).
  assert (Hprev : forall h, h ∈ existingHashes <-> h ∈ stored)
    by (intros h; apply new_Set_elem).
  split; [done |]. split; [done |].
  split; [intros h; rewrite Hcur; apply new_Set_elem |].
  split.
  { intros h. rewrite Hun, list_elem_of_filter. unfold set_has.
    by rewrite bool_decide_eq_true, Hprev. }
  split.
  { intros h. rewrite Hnew, list_elem_of_filter. unfold set_has.
    rewrite negb_true_iff, bool_decide_eq_false, Hprev. tauto. }
  rewrite Hun, Hnew. apply filter_split_Permutation.
Qed.

(** C1: the diff step partitions the freshly computed hash set. With
    S_prev the stored hashes and S_curr the hashes of the collected
    blobs, [unchanged] is S_prev ∩ S_curr and [new] is S_curr − S_prev;
    the two are disjoint, together they are S_curr and nothing else, and
    no hash is listed twice. *)
Theorem diff_correct (stored : list string) (blobs : list Blob) :
  let S_prev : gset string := list_to_set stored in
  let S_curr : gset string := list_to_set (map hashOf blobs) in
  let existingHashes := new_Set stored in
  let current := currentHashes (hashBlobs blobs) in
  let unchanged := unchangedHashes existingHashes current in
  let new := newHashes existingHashes current in
  list_to_set existingHashes = S_prev
  ∧ list_to_set current = S_curr
  ∧ list_to_set unchanged = S_prev ∩ S_curr
  ∧ list_to_set new = S_curr ∖ S_prev
  ∧ list_to_set unchanged ∪ list_to_set new = S_curr
  ∧ list_to_set unchanged ## (list_to_set new : gset string)
  ∧ NoDup unchanged ∧ NoDup new ∧ NoDup (unchanged ++ new)
  ∧ unchanged ++ new ≡ₚ current.
Proof.
  intros S_prev S_curr existingHashes current unchanged new.
  destruct (diff_members stored blobs) as (Hnd & Hprev & Hcurr & Hu & Hn & Hperm).
  fold existingHashes current unchanged new in Hnd, Hprev, Hcurr, Hu, Hn, Hperm.
  assert (Hndall : NoDup (unchanged ++ new)) by (by rewrite Hperm).
  unfold S_prev, S_curr.
  split; [apply set_eq; intros h; rewrite !elem_of_list_to_set; apply Hprev |].
  split; [apply set_eq; intros h; rewrite !elem_of_list_to_set; apply Hcurr |].
  split; [apply set_eq; intros h;
          by rewrite elem_of_intersection, !elem_of_list_to_set, Hu, Hcurr |].
  split; [apply set_eq; intros h;
          by rewrite elem_of_difference, !elem_of_list_to_set, Hn, Hcurr |].
  split.
  { apply set_eq. intros h.
    rewrite elem_of_union, !elem_of_list_to_set, Hu, Hn, <- Hcurr.
    destruct (decide (h ∈ stored)); tauto. }
  split.
  { apply elem_of_disjoint. intros h.
    rewrite !elem_of_list_to_set, Hu, Hn. tauto. }
  apply NoDup_app in Hndall as Hparts. destruct Hparts as (H1 & _ & H2).
  done.
Qed.

(** ** The indexing pass *)

Lemma loadProjects_run (w : World) :
  loadProjects w = (Ok (storedProjects (projectsFile w)), w).
Proof. unfold loadProjects. by destruct (projectsFile w). Qed.

(** The pass, case by case. *)
Lemma indexProject_run (env : Env) (cfg : Config) (path : string) (w : World) :
  indexProject env cfg path w
  = match env_collectFiles env path with
    | Thrown e => (Ok (errorResult (error_text e)), w)
    | Ok blobs =>
        if bool_decide (length blobs = 0)
        then (Ok (errorResult "项目中未找到文本文件"), w)
        else
          let w1 := passWorld env cfg path w blobs in
          let effects' := effects w1 ++ [Saved (passSaved env cfg path w blobs)] in
          match env_write env with
          | None =>
              (Ok (passResult env cfg path w blobs),
               {| projectsFile := FileJson (passSaved env cfg path w blobs);
                  requests := requests w1; effects := effects' |})
          | Some (e, leftover) =>
              (Ok (errorResult (error_text e)),
               {| projectsFile := leftover;
                  requests := requests w1; effects := effects' |})
          end
    end.
Proof.
  unfold indexProject, try_catch. unfold bind at 1.
  destruct (env_collectFiles env path) as [blobs | e]; [| done].
  case_bool_decide as Hlen; [done |].
  unfold bind at 1. rewrite loadProjects_run.
  unfold bind at 1.
  fold (passStored env path w). fold (passCurrent blobs).
  fold (passUnchanged env path w blobs). fold (passNew env path w blobs).
  fold (passToUpload env path w blobs).
  rewrite uploadAll_spec.
  fold (passBatches env cfg path w blobs).
  fold (passUploaded env cfg path w blobs). fold (passFailed env cfg path w blobs).
  fold (passWorld env cfg path w blobs).
  cbn [fst snd]. fold (passAll env cfg path w blobs).
  fold (passSaved env cfg path w blobs).
  unfold bind, saveProjects.
  destruct (env_write env) as [[e leftover]|]; reflexivity.
Qed.

Lemma passWorld_network (env : Env) (cfg : Config) (path : string) (w : World)
    (blobs : list Blob) :
  onlyNetwork w (passWorld env cfg path w blobs).
Proof. apply worldBeforeBatch_network. Qed.


Lemma failedIn_elem (env : Env) (cfg : Config) (toUpload : list Blob)
    (w : World) (total k : nat) :
  S k ∈ failedIn env cfg toUpload w total
  <-> k < total ∧ batchFailed (batchOutcome env cfg toUpload w k) = true.
Proof.
  unfold failedIn. rewrite list_elem_of_fmap. split.
  - intros (j & [= ->] & Hj). apply list_elem_of_filter in Hj as [Hf Hj].
    apply elem_of_seq in Hj. split; [lia | done].
  - intros [Hk Hf]. exists k. split; [done |].
    apply list_elem_of_filter. split; [done |]. apply elem_of_seq. lia.
Qed.








(** ** Status of the pass *)

Lemma failedIn_nil (env : Env) (cfg : Config) (toUpload : list Blob)
    (w : World) (total : nat) :
  failedIn env cfg toUpload w total = []
  <-> forall k, k < total -> batchFailed (batchOutcome env cfg toUpload w k) = false.
Proof.
  split.
  - intros Hnil k Hk. apply not_true_is_false. intros Hf.
    assert (Hin : S k ∈ failedIn env cfg toUpload w total)
      by (by apply failedIn_elem).
    rewrite Hnil in Hin. by apply elem_of_nil in Hin.
  - intros Hall. destruct (failedIn env cfg toUpload w total) as [|x l] eqn:E; [done |].
    assert (Hx : x ∈ failedIn env cfg toUpload w total) by (rewrite E; by left).
    unfold failedIn in Hx. apply list_elem_of_fmap in Hx as (k & -> & Hk).
    apply list_elem_of_filter in Hk as [Hf Hk]. apply elem_of_seq in Hk.
    rewrite Hall in Hf by lia. done.
Qed.

(** The status of a pass that reaches its end. *)
Lemma status_of_failed (env : Env) (cfg : Config) (toUpload : list Blob)
    (w : World) (total : nat) :
  let st := match failedIn env cfg toUpload w total with
            | [] => success
            | _ :: _ => partial_success
            end in
  st ≠ error
  ∧ (st = partial_success
     <-> exists k, k < total ∧ batchFailed (batchOutcome env cfg toUpload w k) = true)
  ∧ (st = success
     <-> forall k, k < total -> batchFailed (batchOutcome env cfg toUpload w k) = false).
Proof.
  pose proof (failedIn_nil env cfg toUpload w total) as Hnil.
  destruct (failedIn env cfg toUpload w total) as [|x l] eqn:E; cbv zeta.
  - split; [done |]. split; [| split; [intros _; by apply Hnil | done]].
    split; [done |]. intros (k & Hk & Hf).
    destruct Hnil as [Hnil _]. rewrite (Hnil eq_refl k Hk) in Hf. done.
  - split; [done |]. split.
    + split; [| done]. intros _.
      assert (Hx : x ∈ failedIn env cfg toUpload w total) by (rewrite E; by left).
      unfold failedIn in Hx. apply list_elem_of_fmap in Hx as (k & -> & Hk).
      apply list_elem_of_filter in Hk as [Hf Hk]. apply elem_of_seq in Hk.
      exists k. split; [lia | done].
    + split; [done |]. intros Hall. apply Hnil in Hall. done.
Qed.

(** Whether the assignment throws does not depend on what is assigned. *)
Lemma assign_cases (projects : AnyJson.Json) (key : string) :
  (exists e, forall hashes, AnyJson.assign projects key hashes = Thrown e)
  ∨ (forall hashes, exists projects', AnyJson.assign projects key hashes = Ok projects').
Proof.
  destruct projects as [entries | | e | e]; simpl.
  - right. intros hashes. by eexists.
  - right. intros hashes. by eexists.
  - left. by exists e.
  - left. by exists e.
Qed.

(** On a projects file of the sections above, the pass over any JSON value
    is [indexProject]: same result, same requests, same file. *)
Lemma indexProject_mapping (env : Env) (cfg : Config) (path : string) (w : World) :
  exists r w',
    indexProject env cfg path w = (Ok r, w')
    ∧ exists w1,
        AnyJson.indexProject env cfg path (AnyJson.ofProjectsFile (projectsFile w)) w
        = (r, AnyJson.ofProjectsFile (projectsFile w'), w1)
        ∧ requests w' = requests w1
        ∧ (effects w' = effects w1 ∨ exists saved, effects w' = effects w1 ++ [Saved saved]).
Proof.
  rewrite indexProject_run. unfold AnyJson.indexProject.
  destruct (env_collectFiles env path) as [blobs | e].
  2: { eexists _, _. split; [reflexivity |]. eexists. split; [reflexivity |]. by auto. }
  case_bool_decide as Hlen.
  { eexists _, _. split; [reflexivity |]. eexists. split; [reflexivity |]. by auto. }
  assert (Hstored : AnyJson.storedHashes
                      (AnyJson.loadProjects (AnyJson.ofProjectsFile (projectsFile w)))
                      (normalizePath env path)
                    = Ok (new_Set (passStored env path w))).
  { unfold passStored. destruct (projectsFile w) as [| | projects]; simpl;
      rewrite ?lookup_empty; [done | done |].
    rewrite lookup_fmap. by destruct (projects !! normalizePath env path). }
  rewrite Hstored. cbv zeta.
  fold (passCurrent blobs).
  fold (passUnchanged env path w blobs). fold (passNew env path w blobs).
  fold (passToUpload env path w blobs).
  rewrite uploadAll_spec.
  fold (passBatches env cfg path w blobs).
  fold (passUploaded env cfg path w blobs). fold (passFailed env cfg path w blobs).
  fold (passWorld env cfg path w blobs).
  cbn [fst snd]. fold (passAll env cfg path w blobs).
  assert (Hassign : AnyJson.assign
                      (AnyJson.loadProjects (AnyJson.ofProjectsFile (projectsFile w)))
                      (normalizePath env path) (passAll env cfg path w blobs)
                    = Ok (AnyJson.JsonObject
                            (AnyJson.Strings <$> passSaved env cfg path w blobs))).
  { unfold passSaved. rewrite fmap_insert.
    destruct (projectsFile w) as [| | projects]; simpl; by rewrite ?fmap_empty. }
  rewrite Hassign. unfold AnyJson.saveProjects.
  destruct (env_write env) as [[e leftover]|];
    eexists _, _; (split; [reflexivity |]); eexists; (split; [reflexivity |]);
    cbn [requests effects projectsFile]; (split; [done |]); right; by eexists.
Qed.

(** C3, as the code has it. With a batch size of at least one the pass
    always returns a result. Its status is [error] exactly when the
    collection throws, when it finds no blob, when reading the entry of
    the project in the projects file throws (the file holds [null], or
    under the path a value that cannot be iterated), when assigning the
    entry throws (the file holds a number, a boolean or a string), or when
    the projects file cannot be written. In the first three cases nothing
    is sent and nothing is written. In the last two every batch has been
    sent before; when the assignment throws the file is left as it was.
    Otherwise the status is [partial_success] exactly when at least one
    batch failed, whether or not another one succeeded, and [success]
    exactly when none did. *)
Theorem index_status (env : Env) (cfg : Config) (path : string)
    (f : AnyJson.File) (w : World) :
  0 < batchSize cfg ->
  let normalizedPath := normalizePath env path in
  let projects := AnyJson.loadProjects f in
  exists r f' w',
    AnyJson.indexProject env cfg path f w = (r, f', w')
    ∧ (status r = error
       <-> (exists e, env_collectFiles env path = Thrown e)
           ∨ env_collectFiles env path = Ok []
           ∨ (exists e, AnyJson.storedHashes projects normalizedPath = Thrown e)
           ∨ (exists e hashes, AnyJson.assign projects normalizedPath hashes = Thrown e)
           ∨ env_write env ≠ None)
    ∧ ((exists e, env_collectFiles env path = Thrown e)
       ∨ env_collectFiles env path = Ok []
       ∨ (exists e, AnyJson.storedHashes projects normalizedPath = Thrown e)
       -> f' = f ∧ w' = w)
    ∧ (forall blobs existingHashes,
         env_collectFiles env path = Ok blobs -> blobs ≠ [] ->
         AnyJson.storedHashes projects normalizedPath = Ok existingHashes ->
         let toUpload :=
           blobsToUpload (hashBlobs blobs)
                         (newHashes existingHashes (currentHashes (hashBlobs blobs))) in
         let total := ceil_div (length toUpload) (batchSize cfg) in
         let outcome := batchOutcome env cfg toUpload w in
         w' = worldBeforeBatch env cfg toUpload w total
         ∧ (forall k, k < total -> Requested (batchRequest cfg toUpload k) ∈ effects w')
         ∧ ((exists e hashes, AnyJson.assign projects normalizedPath hashes = Thrown e)
            -> f' = f)
         ∧ ((forall e hashes, AnyJson.assign projects normalizedPath hashes ≠ Thrown e) ->
            env_write env = None ->
            (status r = partial_success
             <-> exists k, k < total ∧ batchFailed (outcome k) = true)
            ∧ (status r = success
               <-> forall k, k < total -> batchFailed (outcome k) = false))).
Proof.
  intros Hbs normalizedPath projects. unfold AnyJson.indexProject.
  fold normalizedPath. fold projects.
  destruct (env_collectFiles env path) as [blobs | e] eqn:Hc.
  2: { eexists _, _, _. split; [reflexivity |]. simpl.
       split; [split; [intros _; left; by eexists | done] |].
       split; [done |]. by intros blobs stored [=]. }
  case_bool_decide as Hlen.
  { destruct blobs; [| done].
    eexists _, _, _. split; [reflexivity |]. simpl.
    split; [split; [by auto | done] |]. split; [done |].
    by intros blobs stored [= <-] Hne. }
  assert (Hne : blobs ≠ []) by (by destruct blobs).
  destruct (AnyJson.storedHashes projects normalizedPath) as [stored | e] eqn:Hst.
  2: { eexists _, _, _. split; [reflexivity |]. simpl.
       split; [split; [intros _; do 2 right; left; by eexists | done] |].
       split; [done |]. by intros blobs' stored _ _ [=]. }
  cbv zeta. rewrite uploadAll_spec. cbn [fst snd].
  set (toUpload := blobsToUpload (hashBlobs blobs)
                     (newHashes stored (currentHashes (hashBlobs blobs)))).
  set (total := ceil_div (length toUpload) (batchSize cfg)).
  set (allHashes := unchangedHashes stored (currentHashes (hashBlobs blobs))
                    ++ uploadedBy env cfg toUpload w total).
  assert (Hsent : forall k, k < total ->
            Requested (batchRequest cfg toUpload k)
            ∈ effects (worldBeforeBatch env cfg toUpload w total))
    by (intros k Hk; by apply batch_attempted).
  assert (Hfirst : ¬ ((exists e, Ok blobs = @Thrown (list Blob) e)
                      ∨ Ok blobs = Ok []
                      ∨ (exists e, @Ok (list string) stored = Thrown e))).
  { intros [(e & [=]) | [[= ->] | (e & [=])]]. done. }
  destruct (assign_cases projects normalizedPath) as [(e & Hthrows) | Hassigns].
  { rewrite Hthrows. eexists _, _, _. split; [reflexivity |]. simpl.
    split; [split; [intros _; do 3 right; left; by exists e, [] | done] |].
    split; [by intros H; destruct (Hfirst H) |].
    intros blobs' stored' [= <-] _ [= <-].
    split; [done |]. split; [exact Hsent |]. split; [done |].
    intros Hno. destruct (Hno e [] (Hthrows [])). }
  destruct (Hassigns allHashes) as (projects' & Hassign). rewrite Hassign.
  assert (Hno : ¬ exists e hashes, AnyJson.assign projects normalizedPath hashes = Thrown e).
  { intros (e & hashes & He). destruct (Hassigns hashes) as (p' & Hp').
    rewrite Hp' in He. done. }
  unfold AnyJson.saveProjects.
  destruct (env_write env) as [[e leftover]|] eqn:Hw.
  { eexists _, _, _. split; [reflexivity |]. simpl.
    split; [split; [intros _; by do 4 right | done] |].
    split; [by intros H; destruct (Hfirst H) |].
    intros blobs' stored' [= <-] _ [= <-].
    split; [done |]. split; [exact Hsent |]. split; [by intros H; destruct (Hno H) |].
    by intros _ [=]. }
  destruct (status_of_failed env cfg toUpload w total) as (Herr & Hpartial & Hsuccess).
  eexists _, _, _. split; [reflexivity |]. cbn [status].
  split.
  { split; [done |].
    intros [H | [H | [H | [H | H]]]];
      [destruct Hfirst; by left | destruct Hfirst; by right; left
      | destruct Hfirst; by right; right | by destruct (Hno H) | done]. }
  split; [by intros H; destruct (Hfirst H) |].
  intros blobs' stored' [= <-] _ [= <-].
  split; [done |]. split; [exact Hsent |]. split; [by intros H; destruct (Hno H) |].
  intros _ _. split; [exact Hpartial | exact Hsuccess].
Qed.

Lemma index_status_witness :
  0 < batchSize sampleConfig
  ∧ exists r f' w',
      AnyJson.indexProject envSecondFails sampleConfig "/p" AnyJson.Missing emptyWorld
      = (r, f', w')
      ∧ status r = partial_success.
Proof.
  assert (H1 : 0 < batchSize sampleConfig) by (simpl; lia).
  split; [exact H1 |].
  destruct (index_status envSecondFails sampleConfig "/p" AnyJson.Missing emptyWorld H1)
    as (r & f' & w' & Hrun & _ & _ & Hst).
  exists r, f', w'. split; [exact Hrun |].
  destruct (Hst [blobA; blobB; blobC] [] eq_refl ltac:(discriminate) eq_refl)
    as (_ & _ & _ & Hend).
  destruct Hend as [Hp _]; [by intros e hashes | reflexivity |].
  apply Hp. exists 1. split; vm_compute; [lia | reflexivity].
Defined.

(** C3 as stated fails three times. When the only batch of a pass fails,
    the status is [partial_success] although no batch succeeded. When the
    projects file cannot be written, the status is [error] although the
    batch was sent and accepted. When the projects file holds [null], the
    status is [error] although the collection found two blobs; nothing is
    sent. *)
Lemma index_status_counterexample :
  ((status <$> returned runNotFound) = Some partial_success
   ∧ (returned runNotFound ≫= failedBatches) = Some [1]
   ∧ passBatches (envFailing notFound) sampleConfig "/p" emptyWorld oneBlob = 1
   ∧ passUploaded (envFailing notFound) sampleConfig "/p" emptyWorld oneBlob = [])
  ∧ ((status <$> returned runDiskFull) = Some error
     ∧ requests runDiskFull.2 = 1
     ∧ passOutcome envDiskFull sampleConfig "/p" emptyWorld [blobA] 0
       = Ok (named [hashOf blobA]))
  ∧ (env_collectFiles envTwoBlobs "/p" = Ok [blobA; blobB]
     ∧ status runNullFile.1.1 = error
     ∧ message runNullFile.1.1 = error_text nullProjects
     ∧ runNullFile.2 = emptyWorld).
Proof.
  split; [split; [| split; [| split]] | split; [split; [| split] | split; [| split; [| split]]]];
    vm_compute; reflexivity.
Qed.

Lemma indexProject_returns (env : Env) (cfg : Config) (path : string) (w : World) :
  exists r w', indexProject env cfg path w = (Ok r, w').
Proof.
  rewrite indexProject_run.
  destruct (env_collectFiles env path) as [blobs | e]; [| by eexists _, _].
  case_bool_decide; [by eexists _, _ |].
  destruct (env_write env) as [[e leftover]|]; by eexists _, _.
Qed.

(** ** Frame of the save *)

(** C10: the one mapping a pass hands to the save is the loaded mapping
    with the entry of the normalized project path replaced; every other
    project's entry is written back as it was read. When the pass does not
    reach the save, the projects file is left as it was. *)
Theorem per_project_frame (env : Env) (cfg : Config) (path : string)
    (w w' : World) (r : IndexResult) :
  indexProject env cfg path w = (Ok r, w') ->
  let normalizedPath := normalizePath env path in
  let loaded := storedProjects (projectsFile w) in
  exists es,
    effects w' = effects w ++ es
    ∧ (forall m, Saved m ∈ es ->
         (exists hashes, m = <[normalizedPath := hashes]> loaded)
         ∧ (forall other, other ≠ normalizedPath -> m !! other = loaded !! other))
    ∧ (status r ≠ error ->
         exists m, Saved m ∈ es ∧ projectsFile w' = FileJson m
                   ∧ (forall other, other ≠ normalizedPath ->
                        storedProjects (projectsFile w') !! other = loaded !! other))
    ∧ ((forall m, Saved m ∉ es) -> projectsFile w' = projectsFile w).
Proof.
  intros Hrun normalizedPath loaded. rewrite indexProject_run in Hrun.
  assert (Hnone : exists es, effects w = effects w ++ es
    ∧ (forall m, Saved m ∈ es ->
         (exists hashes, m = <[normalizedPath := hashes]> loaded)
         ∧ (forall other, other ≠ normalizedPath -> m !! other = loaded !! other))
    ∧ (forall m, Saved m ∉ es)).
  { exists []. split; [by rewrite app_nil_r |].
    split; intros m; [by intros ?%elem_of_nil | apply not_elem_of_nil]. }
  destruct (env_collectFiles env path) as [blobs | e].
  2: { injection Hrun as <- <-. destruct Hnone as (es & He & Hs & Hno).
       exists es. split; [done |]. split; [done |]. split; done. }
  case_bool_decide as Hlen.
  { injection Hrun as <- <-. destruct Hnone as (es & He & Hs & Hno).
    exists es. split; [done |]. split; [done |]. split; done. }
  clear Hnone.
  destruct (passWorld_network env cfg path w blobs) as (Hfile & _ & es1 & Hes1 & Hno1).
  rewrite Forall_forall in Hno1.
  assert (Hsaved : forall m, Saved m ∈ es1 ++ [Saved (passSaved env cfg path w blobs)] ->
                             m = passSaved env cfg path w blobs).
  { intros m [Hin | Hin]%elem_of_app.
    - by destruct (Hno1 _ Hin m).
    - apply list_elem_of_singleton in Hin. congruence. }
  assert (Hframe : forall m, Saved m ∈ es1 ++ [Saved (passSaved env cfg path w blobs)] ->
         (exists hashes, m = <[normalizedPath := hashes]> loaded)
         ∧ (forall other, other ≠ normalizedPath -> m !! other = loaded !! other)).
  { intros m Hm. rewrite (Hsaved m Hm). split; [by eexists |].
    intros other Hother. unfold passSaved. by rewrite lookup_insert_ne. }
  assert (Hin : Saved (passSaved env cfg path w blobs)
                ∈ es1 ++ [Saved (passSaved env cfg path w blobs)]).
  { apply elem_of_app. right. by left. }
  exists (es1 ++ [Saved (passSaved env cfg path w blobs)]).
  destruct (env_write env) as [[e leftover]|]; injection Hrun as <- <-; simpl.
  - split; [by rewrite Hes1, app_assoc |]. split; [exact Hframe |].
    split; [done |]. intros Hno. by destruct (Hno _ Hin).
  - split; [by rewrite Hes1, app_assoc |]. split; [exact Hframe |].
    split.
    + intros _. eexists. split; [exact Hin |]. split; [done |].
      by apply Hframe.
    + intros Hno. by destruct (Hno _ Hin).
Qed.

Lemma per_project_frame_witness :
  (exists r, runBesideOther = (Ok r, runBesideOther.2))
  ∧ storedProjects (projectsFile runBesideOther.2) !! "/other" = Some ["0f"; "1e"]
  ∧ storedProjects (projectsFile runBesideOther.2) !! "/p"
    = Some [hashOf blobA; hashOf blobC].
Proof.
  assert (Hs : status <$> returned runBesideOther = Some partial_success)
    by (vm_compute; reflexivity).
  assert (Hp : storedProjects (projectsFile runBesideOther.2) !! "/p"
               = Some [hashOf blobA; hashOf blobC])
    by (vm_compute; reflexivity).
  revert Hs Hp. unfold runBesideOther. intros Hs Hp.
  destruct (indexProject_returns envSecondFails sampleConfig "/p" worldWithOther)
    as (r & w' & Hrun).
  rewrite Hrun in Hs, Hp |- *. simpl in Hs, Hp |- *.
  split; [exists r; reflexivity |].
  destruct (per_project_frame envSecondFails sampleConfig "/p" worldWithOther w' r Hrun)
    as (es & _ & _ & Hok & _).
  injection Hs as Hs.
  destruct Hok as (m & _ & _ & Hother); [rewrite Hs; discriminate |].
  split; [| exact Hp].
  rewrite (Hother "/other") by discriminate. reflexivity.
Defined.

(** ** Re-indexing an unchanged project *)

Lemma filter_keeps_all {A} (P : A -> Prop) `{forall x, Decision (P x)} (l : list A) :
  (forall x, x ∈ l -> P x) -> filter P l = l.
Proof.
  induction l as [|x l IH]; intros Hall; [done |].
  rewrite filter_cons, decide_True by (apply Hall; by left).
  rewrite IH; [done |]. intros y Hy. apply Hall. by right.
Qed.

Lemma filter_keeps_none {A} (P : A -> Prop) `{forall x, Decision (P x)} (l : list A) :
  (forall x, x ∈ l -> ¬ P x) -> filter P l = [].
Proof.
  induction l as [|x l IH]; intros Hall; [done |].
  rewrite filter_cons, decide_False by (apply Hall; by left).
  apply IH. intros y Hy. apply Hall. by right.
Qed.

(** When every computed hash is among the stored ones, everything is
    unchanged and nothing is new. *)
Lemma diff_of_covered (stored : list string) (blobs : list Blob) :
  (forall h, h ∈ currentHashes (hashBlobs blobs) -> h ∈ stored) ->
  unchangedHashes (new_Set stored) (currentHashes (hashBlobs blobs))
  = currentHashes (hashBlobs blobs)
  ∧ newHashes (new_Set stored) (currentHashes (hashBlobs blobs)) = [].
Proof.
  intros Hsub.
  destruct (diff_members stored blobs) as (Hnd & Hprev & _).
  rewrite unchangedHashes_eq, newHashes_eq by done.
  assert (Hin : forall h, h ∈ currentHashes (hashBlobs blobs) ->
                          set_has h (new_Set stored) = true).
  { intros h Hh. unfold set_has. apply bool_decide_eq_true.
    apply Hprev. by apply Hsub. }
  split.
  - by apply filter_keeps_all.
  - apply filter_keeps_none. intros h Hh. rewrite (Hin h Hh). done.
Qed.

Lemma ceil_div_zero (b : nat) : ceil_div 0 b = 0.
Proof.
  unfold ceil_div. destruct b as [|b]; [done |].
  apply Nat.div_small. lia.
Qed.

(** A list without duplicates is no longer than a list that holds its
    elements, and as long exactly when that list has no duplicates
    either. *)
Lemma distinct_count (current stored : list string) :
  NoDup current ->
  (forall h, h ∈ stored <-> h ∈ current) ->
  length current <= length stored
  ∧ (length current = length stored <-> NoDup stored).
Proof.
  intros Hnd Hsame.
  assert (Hsub : current ⊆+ stored).
  { apply NoDup_submseteq; [done |]. intros h Hh. by apply Hsame. }
  split; [by apply submseteq_length |]. split.
  - intros Hlen.
    assert (Hperm : current ≡ₚ stored)
      by (apply submseteq_length_Permutation; [done | lia]).
    by rewrite <- Hperm.
  - intros Hnd'. apply Permutation_length, NoDup_Permutation; [done | done |].
    intros h. symmetry. apply Hsame.
Qed.

(** C9, as the code has it. A project is indexed, and the hashes then
    stored for it are, as a set, the hashes computed from its blobs. A
    second pass over the same blobs sends no request and hands to the save
    the loaded mapping with the computed hashes, each once, under the
    project. When the save fails the pass returns [error]. When it
    succeeds the pass returns [success] with no failed batch and no new
    blob, and the stored hash set is the same again; the total it reports
    is the number of distinct hashes, which is at most the total of the
    first pass, and equal to it exactly when the first pass stored no hash
    twice. *)
Theorem idempotent_reindex (env1 env2 : Env) (cfg : Config) (path : string)
    (w0 w1 : World) (r1 : IndexResult) (blobs : list Blob) :
  0 < batchSize cfg ->
  env_collectFiles env1 path = Ok blobs ->
  env_collectFiles env2 path = Ok blobs ->
  env_resolve env2 path = env_resolve env1 path ->
  indexProject env1 cfg path w0 = (Ok r1, w1) ->
  status r1 ≠ error ->
  (forall h, h ∈ passStored env2 path w1 <-> h ∈ passCurrent blobs) ->
  exists r2 w2,
    indexProject env2 cfg path w1 = (Ok r2, w2)
    ∧ requests w2 = requests w1
    ∧ effects w2
      = effects w1
        ++ [Saved (<[normalizePath env2 path := passCurrent blobs]>
                     (storedProjects (projectsFile w1)))]
    ∧ (env_write env2 ≠ None -> status r2 = error)
    ∧ (env_write env2 = None ->
       exists s1 s2,
         status r2 = success
         ∧ failedBatches r2 = Some []
         ∧ stats r1 = Some s1 ∧ stats r2 = Some s2
         ∧ newBlobs s2 = 0
         ∧ existingBlobs s2 = totalBlobs s2
         ∧ totalBlobs s2 = length (passCurrent blobs)
         ∧ totalBlobs s2 <= totalBlobs s1
         ∧ (totalBlobs s2 = totalBlobs s1 <-> NoDup (passStored env2 path w1))
         ∧ passStored env2 path w2 = passCurrent blobs
         ∧ (forall h, h ∈ passStored env2 path w2 <-> h ∈ passStored env2 path w1)).
Proof.
  intros Hbs Hc1 Hc2 Hres Hrun1 Hst1 Hsame.
  assert (Hnp : normalizePath env2 path = normalizePath env1 path)
    by (unfold normalizePath; by rewrite Hres).
  (* the first pass *)
  rewrite indexProject_run, Hc1 in Hrun1.
  case_bool_decide as Hlen; [by injection Hrun1 as <- <- |].
  destruct (env_write env1) as [[e leftover]|]; [by injection Hrun1 as <- <- |].
  injection Hrun1 as <- <-.
  assert (Hstored1 : passStored env2 path
            {| projectsFile := FileJson (passSaved env1 cfg path w0 blobs);
               requests := requests (passWorld env1 cfg path w0 blobs);
               effects := effects (passWorld env1 cfg path w0 blobs)
                          ++ [Saved (passSaved env1 cfg path w0 blobs)] |}
          = passAll env1 cfg path w0 blobs).
  { unfold passStored, passSaved. simpl. rewrite Hnp. by rewrite lookup_insert_eq. }
  set (w1 := {| projectsFile := FileJson (passSaved env1 cfg path w0 blobs);
                requests := requests (passWorld env1 cfg path w0 blobs);
                effects := effects (passWorld env1 cfg path w0 blobs)
                           ++ [Saved (passSaved env1 cfg path w0 blobs)] |}) in *.
  (* the second pass: nothing is new *)
  destruct (diff_of_covered (passStored env2 path w1) blobs) as [Hun Hnew].
  { intros h Hh. by apply Hsame. }
  fold (passCurrent blobs) in Hun, Hnew.
  fold (passUnchanged env2 path w1 blobs) in Hun.
  fold (passNew env2 path w1 blobs) in Hnew.
  assert (Hto : passToUpload env2 path w1 blobs = [])
    by (unfold passToUpload; by rewrite Hnew).
  assert (Hn : passBatches env2 cfg path w1 blobs = 0)
    by (unfold passBatches; rewrite Hto; apply ceil_div_zero).
  assert (Hup : passUploaded env2 cfg path w1 blobs = [])
    by (unfold passUploaded; by rewrite Hn).
  assert (Hfl : passFailed env2 cfg path w1 blobs = [])
    by (unfold passFailed; by rewrite Hn).
  assert (Hw : passWorld env2 cfg path w1 blobs = w1)
    by (unfold passWorld; by rewrite Hn).
  assert (Hall : passAll env2 cfg path w1 blobs = passCurrent blobs)
    by (unfold passAll; by rewrite Hup, Hun, app_nil_r).
  assert (Hsaved : passSaved env2 cfg path w1 blobs
                   = <[normalizePath env2 path := passCurrent blobs]>
                       (storedProjects (projectsFile w1)))
    by (unfold passSaved; by rewrite Hall).
  assert (Hcount : length (passCurrent blobs) <= length (passStored env2 path w1)
                   ∧ (length (passCurrent blobs) = length (passStored env2 path w1)
                      <-> NoDup (passStored env2 path w1))).
  { apply distinct_count; [| done].
    by destruct (diff_members (passStored env2 path w1) blobs) as (Hnd & _). }
  rewrite indexProject_run, Hc2. rewrite bool_decide_false by done.
  cbv zeta. rewrite Hw, Hsaved.
  destruct (env_write env2) as [[e leftover]|] eqn:Hwrite.
  { eexists _, _. split; [reflexivity |]. by cbn [requests effects]. }
  eexists _, _. split; [reflexivity |]. cbn [requests effects].
  split; [done |]. split; [done |]. split; [done |]. intros _.
  eexists _, _. unfold passResult. cbn [status failedBatches stats].
  rewrite Hfl, Hup, Hun, Hall.
  split; [done |]. split; [done |].
  split; [reflexivity |]. split; [reflexivity |].
  cbn [newBlobs existingBlobs totalBlobs]. rewrite <- Hstored1.
  split; [done |]. split; [done |]. split; [done |].
  split; [apply Hcount |]. split; [apply Hcount |].
  assert (Hstored2 : forall rq ef, passStored env2 path
            {| projectsFile :=
                 FileJson (<[normalizePath env2 path := passCurrent blobs]>
                             (storedProjects (projectsFile w1)));
               requests := rq; effects := ef |}
          = passCurrent blobs).
  { intros rq ef. unfold passStored. simpl. by rewrite lookup_insert_eq. }
  rewrite Hstored2. split; [done |]. intros h. symmetry. apply Hsame.
Qed.

Lemma idempotent_reindex_witness :
  0 < batchSize sampleConfig
  ∧ (status <$> returned firstPass) = Some success
  ∧ requests firstPass.2 = 2
  ∧ passStored envTwoBlobs "/p" firstPass.2 = passCurrent [blobA; blobB]
  ∧ (status <$> returned secondPass) = Some success
  ∧ requests secondPass.2 = requests firstPass.2.
Proof.
  assert (H1 : 0 < batchSize sampleConfig) by (simpl; lia).
  assert (Hs1 : (status <$> returned firstPass) = Some success)
    by (vm_compute; reflexivity).
  assert (Hsame : passStored envTwoBlobs "/p" firstPass.2 = passCurrent [blobA; blobB])
    by (vm_compute; reflexivity).
  split; [exact H1 |]. split; [exact Hs1 |].
  split; [vm_compute; reflexivity |]. split; [exact Hsame |].
  revert Hs1 Hsame. unfold secondPass, firstPass. intros Hs1 Hsame.
  destruct (indexProject_returns envTwoBlobs sampleConfig "/p" emptyWorld)
    as (r1 & w1 & Hrun1).
  rewrite Hrun1 in Hs1, Hsame |- *. simpl in Hs1, Hsame |- *.
  assert (Hst : status r1 ≠ error).
  { injection Hs1 as Hs1. rewrite Hs1. discriminate. }
  assert (Hset : forall h, h ∈ passStored envTwoBlobs "/p" w1
                           <-> h ∈ passCurrent [blobA; blobB])
    by (intros h; by rewrite Hsame).
  destruct (idempotent_reindex envTwoBlobs envTwoBlobs sampleConfig "/p" emptyWorld
              w1 r1 [blobA; blobB] H1 eq_refl eq_refl eq_refl Hrun1 Hst Hset)
    as (r2 & w2 & Hrun2 & Hreq & _ & _ & Hok).
  destruct (Hok eq_refl) as (s1 & s2 & Hstatus & _).
  rewrite Hrun2. simpl. rewrite Hstatus, Hreq.
  split; reflexivity.
Defined.

(** C9 as stated fails twice. The stored hashes are the computed ones and
    the second pass runs on a disk that is full: it returns [error] with
    no statistics. The service names the one blob of a project twice: the
    first pass stores the hash twice and reports a total of two, the stored
    and the computed hash sets are equal, and the second pass reports a
    total of one. *)
Lemma idempotent_reindex_counterexample :
  ((status <$> returned firstPass) = Some success
   ∧ passStored envTwoBlobsFull "/p" firstPass.2 = passCurrent [blobA; blobB]
   ∧ (status <$> returned secondPassFull) = Some error
   ∧ (returned secondPassFull ≫= stats) = None
   ∧ requests secondPassFull.2 = requests firstPass.2)
  ∧ ((status <$> returned firstPassTwice) = Some success
     ∧ passStored envNamedTwice "/p" firstPassTwice.2 = [hashOf blobA; hashOf blobA]
     ∧ passCurrent [blobA] = [hashOf blobA]
     ∧ (totalBlobs <$> (returned firstPassTwice ≫= stats)) = Some 2
     ∧ (status <$> returned secondPassTwice) = Some success
     ∧ (totalBlobs <$> (returned secondPassTwice ≫= stats)) = Some 1
     ∧ requests secondPassTwice.2 = requests firstPassTwice.2).
Proof.
  split; [split; [| split; [| split; [| split]]]
         | split; [| split; [| split; [| split; [| split; [| split]]]]]];
    vm_compute; reflexivity.
Qed.

(** ** Search orchestration *)







Example search_after_failed_upload :
  returned (searchContext (envFailing serviceUnavailable) sampleConfig "/p" "q" emptyWorld)
  = Some "Error: 索引后未找到 blobs".
Proof. vm_compute. reflexivity. Qed.

(** A response whose body is [null]: reading the text from it throws, and
    the search returns the message of that exception. *)
Example search_null_body :
  returned searchNullBody
  = Some ("Error: " +:+ error_text nullText).
Proof. vm_compute. reflexivity. Qed.


(** ** The scenario of the design document, end to end *)

Example scenario_blobs :
  (map blob_path scenarioBlobs, map (fun b => length (blobLines b)) scenarioBlobs)
  = (["small.ts"; "medium.ts";
      "large.ts#chunk1of3"; "large.ts#chunk2of3"; "large.ts#chunk3of3"],
     [10; 50; 800; 800; 400]).
Proof. vm_compute. reflexivity. Qed.

(** The first pass uploads the five blobs in one batch and persists five
    hashes. *)
Example scenario_first_pass :
  (returned scenarioFirst ≫= stats,
   status <$> returned scenarioFirst,
   requests scenarioFirst.2,
   length <$> (storedProjects (projectsFile scenarioFirst.2) !! "/p"))
  = (Some {| totalBlobs := 5; existingBlobs := 0; newBlobs := 5; skippedBlobs := 0 |},
     Some success, 1, Some 5).
Proof. vm_compute. reflexivity. Qed.

(** The second pass finds the five blobs unchanged and sends nothing. *)
Example scenario_second_pass :
  (returned scenarioSecond ≫= stats,
   status <$> returned scenarioSecond,
   requests scenarioSecond.2)
  = (Some {| totalBlobs := 5; existingBlobs := 5; newBlobs := 0; skippedBlobs := 5 |},
     Some success, 1).
Proof. vm_compute. reflexivity. Qed.

(** * Further properties of the code *)

(** ** Path normalization *)

Lemma replace_all_absent (c d : ascii) (s : string) :
  c ≠ d -> c ∉ chars (replace_all c (String d "") s).
Proof.
  intros Hcd. induction s as [|x s IH]; simpl; [apply not_elem_of_nil |].
  case_bool_decide as Hx.
  - change (String d "" +:+ replace_all c (String d "") s)
      with (String d (replace_all c (String d "") s)).
    simpl. rewrite not_elem_of_cons. done.
  - simpl. rewrite not_elem_of_cons. split; [congruence | done].
Qed.

Lemma replace_all_id (c : ascii) (rep s : string) :
  c ∉ chars s -> replace_all c rep s = s.
Proof.
  induction s as [|x s IH]; [done |]. simpl chars.
  rewrite not_elem_of_cons. intros [Hx Hs]. simpl.
  rewrite bool_decide_false by congruence. by rewrite IH.
Qed.

(** X1: the keys of the projects file never contain a backslash: whatever
    [path.resolve] returns, [normalizePath] leaves no backslash in it, and
    a resolved path that has none is returned as it is. *)
Theorem normalizePath_no_backslash (env : Env) (filePath : string) :
  ("\"%char ∉ chars (normalizePath env filePath))
  ∧ (("\"%char ∉ chars (env_resolve env filePath)) ->
     normalizePath env filePath = env_resolve env filePath).
Proof.
  split.
  - by apply replace_all_absent.
  - intros Hres. by apply replace_all_id.
Qed.

Lemma normalizePath_no_backslash_witness :
  ("\"%char ∉ chars (env_resolve envTwoBlobs "/home/u/p"))
  ∧ normalizePath envTwoBlobs "/home/u/p" = "/home/u/p".
Proof.
  assert (H : "\"%char ∉ chars (env_resolve envTwoBlobs "/home/u/p")).
  { apply (bool_decide_unpack _). vm_compute. exact I. }
  split; [exact H |].
  destruct (normalizePath_no_backslash envTwoBlobs "/home/u/p") as [_ Hsame].
  exact (Hsame H).
Defined.

(** ** Patterns that are plain names *)

(** Refutes membership in a list of constants none of which is the
    element. *)
Ltac refute_elem H :=
  repeat (apply elem_of_cons in H as [H | H]; [discriminate H |]);
  by apply elem_of_nil in H.

Lemma literal_plain (pattern : string) :
  literal_pattern pattern -> plain_pattern pattern.
Proof.
  unfold literal_pattern, plain_pattern. intros H.
  eapply Forall_impl; [exact H |].
  intros c (_ & _ & [-> | Hc]); unfold is_glob_char; [done |].
  rewrite Hc. simpl. by rewrite !orb_true_r.
Qed.

Lemma literal_no_wildcard (pattern : string) :
  literal_pattern pattern ->
  Forall (fun c => c ≠ "*"%char ∧ c ≠ "?"%char) (chars pattern).
Proof.
  intros H. eapply Forall_impl; [exact H |]. by intros c (? & ? & _).
Qed.

Lemma matches_literal (p s : list ascii) :
  Forall (fun c => c ≠ "*"%char ∧ c ≠ "?"%char) p ->
  RegExp.matches (map globItem p) s = bool_decide (s = p).
Proof.
  revert s. induction p as [|c p IH]; intros s Hp.
  - destruct s; [by rewrite bool_decide_true | by rewrite bool_decide_false].
  - apply Forall_cons in Hp as [[Hstar Hq] Hp].
    rewrite map_cons. unfold globItem at 1.
    rewrite !bool_decide_false by done.
    destruct s as [|x s]; [by rewrite bool_decide_false |]. simpl.
    rewrite IH by done.
    destruct (decide (c = x)) as [-> | Hne].
    + rewrite (bool_decide_true (x = x)) by done. simpl.
      apply bool_decide_ext. split; [by intros -> | by intros [=]].
    + rewrite (bool_decide_false (c = x)) by done. simpl.
      symmetry. apply bool_decide_false. intros [=]. congruence.
Qed.

Lemma matchPattern_literal (str pattern : string) :
  literal_pattern pattern ->
  matchPattern str pattern = Matched (bool_decide (str = pattern)).
Proof.
  intros Hp. unfold matchPattern, RegExp.compile.
  change (chars ("^" +:+ regexPattern pattern +:+ "$"))
    with ("^"%char :: chars (regexPattern pattern +:+ "$")).
  cbv beta iota. rewrite bool_decide_true by done.
  rewrite parse_plain by (by apply literal_plain). simpl.
  rewrite matches_literal by (by apply literal_no_wildcard).
  f_equal. apply bool_decide_ext. split; [apply chars_inj | by intros ->].
Qed.

Lemma anyPartMatches_literal (parts : list string) (pattern : string) :
  literal_pattern pattern ->
  anyPartMatches parts pattern = Some (inl (bool_decide (pattern ∈ parts))).
Proof.
  intros Hp. induction parts as [|part rest IH].
  - by rewrite bool_decide_false by apply not_elem_of_nil.
  - simpl. rewrite matchPattern_literal by done.
    destruct (decide (part = pattern)) as [-> | Hne].
    + rewrite (bool_decide_true (pattern = pattern)) by done.
      by rewrite bool_decide_true by left.
    + rewrite (bool_decide_false (part = pattern)) by done. rewrite IH.
      do 2 f_equal. apply bool_decide_ext. rewrite elem_of_cons.
      split; [by right | by intros [-> | ?]].
Qed.

Lemma excludeLoop_literal (patterns parts : list string) (relativePath : string) :
  Forall literal_pattern patterns ->
  exists b,
    excludeLoop patterns parts relativePath = Some (inl b)
    ∧ (b = true <-> exists pattern,
                      pattern ∈ patterns
                      ∧ (pattern ∈ parts ∨ pattern = relativePath)).
Proof.
  induction patterns as [|pattern rest IH]; intros Hall.
  - exists false. split; [done |]. split; [done |].
    intros (p & Hp & _). by apply elem_of_nil in Hp.
  - apply Forall_cons in Hall as [Hp Hrest]. simpl.
    rewrite anyPartMatches_literal by done.
    destruct (decide (pattern ∈ parts)) as [Hin | Hnot].
    { rewrite bool_decide_true by done. exists true. split; [done |].
      split; [| done]. intros _. exists pattern. split; [by left | by left]. }
    rewrite bool_decide_false by done.
    rewrite matchPattern_literal by done.
    destruct (decide (relativePath = pattern)) as [Heq | Hne].
    { rewrite bool_decide_true by done. exists true. split; [done |].
      split; [| done]. intros _. exists pattern. split; [by left | by right]. }
    rewrite bool_decide_false by done.
    destruct (IH Hrest) as (b & Hb & Hiff). exists b. split; [done |].
    rewrite Hiff. split.
    + intros (p & Hin & Hm). exists p. split; [by right | done].
    + intros (p & Hin & Hm). apply elem_of_cons in Hin as [-> | Hin].
      * destruct Hm as [? | ?]; [done | by subst].
      * by exists p.
Qed.

(** X2: when every exclusion pattern is a plain name (no wildcard, no
    character with a meaning in a regular expression but the dot, which is
    escaped), a path is excluded exactly when one of the patterns is equal
    to a segment of the relative path or to the whole relative path:
    nothing is matched by prefix, suffix or substring. *)
Theorem literal_patterns_exact (pm : PathModule) (cfg : Config)
    (filePath rootPath rel : string) :
  Forall literal_pattern (excludePatterns cfg) ->
  path_relative pm rootPath filePath = Some rel ->
  exists b,
    shouldExclude pm cfg filePath rootPath = Some b
    ∧ (b = true <-> exists pattern,
                      pattern ∈ excludePatterns cfg
                      ∧ (pattern ∈ split_on (path_sep pm) rel ∨ pattern = rel)).
Proof.
  intros Hall Hrel. unfold shouldExclude. rewrite Hrel. cbv zeta.
  destruct (excludeLoop_literal (excludePatterns cfg)
              (split_on (path_sep pm) rel) rel Hall) as (b & -> & Hiff).
  by exists b.
Qed.

Lemma literal_patterns_exact_witness :
  Forall literal_pattern (excludePatterns namesConfig)
  ∧ path_relative samplePath "/r" "/r/src/node_modules_old/.gitignore"
    = Some "src/node_modules_old/.gitignore"
  ∧ shouldExclude samplePath namesConfig "/r/src/node_modules_old/.gitignore" "/r"
    = Some false.
Proof.
  assert (H1 : Forall literal_pattern (excludePatterns namesConfig)).
  { unfold literal_pattern. simpl.
    repeat (apply Forall_cons; split;
            [ apply Forall_forall; intros c Hc;
              repeat (apply elem_of_cons in Hc as [-> | Hc];
                      [split; [done | split; [done | (by left) || (by right)]] |]);
              by apply elem_of_nil in Hc
            | ]).
    apply Forall_nil_2. }
  assert (H2 : path_relative samplePath "/r" "/r/src/node_modules_old/.gitignore"
               = Some "src/node_modules_old/.gitignore") by reflexivity.
  split; [exact H1 |]. split; [exact H2 |].
  destruct (literal_patterns_exact samplePath namesConfig
              "/r/src/node_modules_old/.gitignore" "/r" _ H1 H2) as (b & -> & Hiff).
  destruct b; [| done].
  destruct Hiff as [Hex _]. destruct (Hex eq_refl) as (p & Hp & Hm).
  exfalso. simpl in Hp.
  repeat (apply elem_of_cons in Hp as [-> | Hp];
          [destruct Hm as [Hm | Hm]; [vm_compute in Hm; refute_elem Hm | done] |]).
  by apply elem_of_nil in Hp.
Defined.

(** ** A pattern that does not compile *)

Lemma matchPattern_invalid (str pattern : string) :
  invalid_pattern pattern -> matchPattern str pattern = MatchThrows.
Proof. unfold invalid_pattern, matchPattern. by intros ->. Qed.

Lemma excludeLoop_invalid (pre post parts : list string) (bad relativePath : string) :
  invalid_pattern bad ->
  parts ≠ [] ->
  excludeLoop (pre ++ bad :: post) parts relativePath
  = match excludeLoop pre parts relativePath with
    | Some (inl false) => Some (inr tt)
    | other => other
    end.
Proof.
  intros Hbad Hparts. induction pre as [|p pre IH].
  - simpl. destruct parts as [|part rest]; [done |].
    simpl. by rewrite matchPattern_invalid.
  - simpl. destruct (anyPartMatches parts p) as [[[|] | []] |]; try done.
    destruct (matchPattern relativePath p) as [[|] | |]; try done.
Qed.

(** X3: a pattern on which the regular-expression constructor throws ends the
    matching: the exception is caught by [shouldExclude], which answers
    "not excluded", so the outcome is the one of the patterns before it in
    the list; the pattern itself and every pattern after it exclude
    nothing. *)
Theorem invalid_pattern_disables_rest (pm : PathModule) (cfg cfg' : Config)
    (pre post : list string) (bad filePath rootPath : string) :
  invalid_pattern bad ->
  excludePatterns cfg = pre ++ bad :: post ->
  excludePatterns cfg' = pre ->
  shouldExclude pm cfg filePath rootPath = shouldExclude pm cfg' filePath rootPath.
Proof.
  intros Hbad Hcfg Hcfg'. unfold shouldExclude. rewrite Hcfg, Hcfg'.
  destruct (path_relative pm rootPath filePath) as [rel|]; [| done]. cbv zeta.
  rewrite excludeLoop_invalid by (done || apply split_on_nonempty).
  by destruct (excludeLoop pre _ rel) as [[[|] | []] |].
Qed.

Lemma invalid_pattern_disables_rest_witness :
  invalid_pattern "c++"
  ∧ excludePatterns brokenPatternConfig = [] ++ "c++" :: ["node_modules"]
  ∧ excludePatterns nothingExcluded = []
  ∧ shouldExclude samplePath brokenPatternConfig "/r/node_modules/x.js" "/r"
    = Some false.
Proof.
  assert (H1 : invalid_pattern "c++") by reflexivity.
  assert (H2 : excludePatterns brokenPatternConfig = [] ++ "c++" :: ["node_modules"])
    by reflexivity.
  assert (H3 : excludePatterns nothingExcluded = []) by reflexivity.
  split; [exact H1 |]. split; [exact H2 |]. split; [exact H3 |].
  rewrite (invalid_pattern_disables_rest samplePath brokenPatternConfig nothingExcluded
             [] ["node_modules"] "c++" "/r/node_modules/x.js" "/r" H1 H2 H3).
  reflexivity.
Defined.

(** ** The default exclusion patterns *)

Lemma glob_match_literal (lit s : list ascii) :
  Forall (fun c => c ≠ "*"%char ∧ c ≠ "?"%char) lit ->
  glob_match lit s = bool_decide (s = lit).
Proof.
  revert s. induction lit as [|c lit IH]; intros s Hlit.
  - destruct s; [by rewrite bool_decide_true | by rewrite bool_decide_false].
  - apply Forall_cons in Hlit as [[Hstar Hq] Hlit].
    destruct s as [|x s]; simpl; rewrite (bool_decide_false (c = "*"%char)) by done;
      [first [done | by rewrite bool_decide_false] |].
    rewrite (bool_decide_false (c = "?"%char)), IH by done. simpl.
    destruct (decide (c = x)) as [-> | Hne].
    + rewrite (bool_decide_true (x = x)) by done. simpl.
      apply bool_decide_ext. split; [by intros -> | by intros [=]].
    + rewrite (bool_decide_false (c = x)) by done. simpl.
      symmetry. apply bool_decide_false. intros [=]. congruence.
Qed.

Lemma glob_match_suffix (lit s : list ascii) :
  Forall (fun c => c ≠ "*"%char ∧ c ≠ "?"%char) lit ->
  glob_match ("*"%char :: lit) s = true <-> exists stem, s = stem ++ lit.
Proof.
  intros Hlit. induction s as [|x s IH]; rewrite glob_match_star, orb_true_iff,
    glob_match_literal, bool_decide_eq_true by done.
  - split.
    + intros [<- | ?]; [by exists [] | done].
    + intros (stem & Hs). left. symmetry in Hs.
      by apply app_eq_nil in Hs as [_ ->].
  - rewrite IH. split.
    + intros [<- | (stem & ->)]; [by exists [] | by exists (x :: stem)].
    + intros ([|y stem] & Hs); [left; by rewrite Hs |].
      right. exists stem. by injection Hs.
Qed.

Lemma glob_match_any (s : list ascii) : glob_match ["*"%char] s = true.
Proof.
  induction s as [|x s IH]; rewrite glob_match_star; [done |].
  rewrite IH. apply orb_true_r.
Qed.

Lemma glob_match_prefix (lit s : list ascii) :
  Forall (fun c => c ≠ "*"%char ∧ c ≠ "?"%char) lit ->
  glob_match (lit ++ ["*"%char]) s = true <-> exists rest, s = lit ++ rest.
Proof.
  revert s. induction lit as [|c lit IH]; intros s Hlit.
  - rewrite glob_match_any. split; [by exists s | done].
  - apply Forall_cons in Hlit as [[Hstar Hq] Hlit].
    destruct s as [|x s]; simpl; rewrite (bool_decide_false (c = "*"%char)) by done.
    + split; [done | by intros (rest & [=])].
    + rewrite (bool_decide_false (c = "?"%char)) by done. simpl.
      rewrite andb_true_iff, bool_decide_eq_true, IH by done. split.
      * intros [-> (rest & ->)]. by exists rest.
      * intros (rest & [= -> ->]). split; [done | by exists rest].
Qed.

Lemma glob_excludes_spec (sep : ascii) (patterns : list string) (rel : string) :
  glob_excludes sep patterns rel = true
  <-> exists pattern s,
        pattern ∈ patterns
        ∧ (s ∈ split_on sep rel ∨ s = rel)
        ∧ glob_match (chars pattern) (chars s) = true.
Proof.
  unfold glob_excludes. rewrite existsb_exists. split.
  - intros (pattern & Hin & Hm). apply list_elem_of_In in Hin.
    apply orb_true_iff in Hm as [Hm | Hm].
    + apply existsb_exists in Hm as (part & Hpin & Hpm).
      apply list_elem_of_In in Hpin. exists pattern, part. auto.
    + exists pattern, rel. auto.
  - intros (pattern & s & Hin & Hs & Hm). exists pattern.
    split; [by apply list_elem_of_In |]. apply orb_true_iff.
    destruct Hs as [Hs | ->]; [left | by right].
    apply existsb_exists. exists s. split; [by apply list_elem_of_In | done].
Qed.

Lemma default_patterns_plain : Forall plain_pattern defaultExcludePatterns.
Proof.
  unfold plain_pattern. apply Forall_forall. intros p Hp.
  repeat (apply elem_of_cons in Hp as [-> | Hp]; [by repeat constructor |]).
  by apply elem_of_nil in Hp.
Qed.

(** Settles a decidable statement about constants by evaluating its
    decision procedure. *)
Ltac by_computation := apply (bool_decide_unpack _); vm_compute; exact I.

Lemma literal_name_match (name s : string) :
  Forall (fun c => c ≠ "*"%char ∧ c ≠ "?"%char) (chars name) ->
  glob_match (chars name) (chars s) = true <-> s = name.
Proof.
  intros Hname. rewrite glob_match_literal, bool_decide_eq_true by done.
  split; [apply chars_inj | by intros ->].
Qed.

Lemma glob_match_literal_self (name : string) :
  Forall (fun c => c ≠ "*"%char ∧ c ≠ "?"%char) (chars name) ->
  glob_match (chars name) (chars name) = true.
Proof. intros Hname. by apply literal_name_match. Qed.

Lemma suffix_name_match (ext s : string) :
  Forall (fun c => c ≠ "*"%char ∧ c ≠ "?"%char) (chars ext) ->
  glob_match (chars ("*" +:+ ext)) (chars s) = true <-> exists stem, s = stem +:+ ext.
Proof.
  intros Hext. change (chars ("*" +:+ ext)) with ("*"%char :: chars ext).
  rewrite glob_match_suffix by done. split.
  - intros (stem & Hs). exists (of_chars stem). apply chars_inj.
    by rewrite chars_app, chars_of_chars.
  - intros (stem & ->). exists (chars stem). apply chars_app.
Qed.

Lemma prefix_name_match (pre s : string) :
  Forall (fun c => c ≠ "*"%char ∧ c ≠ "?"%char) (chars pre) ->
  glob_match (chars (pre +:+ "*")) (chars s) = true <-> exists rest, s = pre +:+ rest.
Proof.
  intros Hpre. rewrite chars_app. change (chars "*") with ["*"%char].
  rewrite glob_match_prefix by done. split.
  - intros (rest & Hs). exists (of_chars rest). apply chars_inj.
    by rewrite chars_app, chars_of_chars.
  - intros (rest & ->). exists (chars rest). apply chars_app.
Qed.

(** X4: what the default patterns of [DEFAULT_CONFIG] exclude: a path (whose
    relative path has no line terminator: no LF, no CR, and neither of the
    separators U+2028 and U+2029) is excluded exactly when a
    segment of its relative path, or the relative path as a whole, is one
    of the fifteen names of the list, or ends in .pyc, .pyo or .pyd, or
    begins with ".env.". *)
Theorem default_patterns_exclusion (pm : PathModule) (cfg : Config)
    (filePath rootPath rel : string) :
  excludePatterns cfg = defaultExcludePatterns ->
  path_relative pm rootPath filePath = Some rel ->
  no_line_terminator rel ->
  no_separator rel ->
  exists b,
    shouldExclude pm cfg filePath rootPath = Some b
    ∧ (b = true
       <-> exists s,
             (s ∈ split_on (path_sep pm) rel ∨ s = rel)
             ∧ (s ∈ [ "node_modules"; ".git"; ".venv"; "venv"; "__pycache__";
                      ".pytest_cache"; ".mypy_cache"; "dist"; "build"; "out";
                      ".next"; ".nuxt"; "coverage"; ".DS_Store"; ".env" ]
                ∨ (exists stem, s = stem +:+ ".pyc" ∨ s = stem +:+ ".pyo"
                                ∨ s = stem +:+ ".pyd")
                ∨ (exists rest, s = ".env." +:+ rest))).
Proof.
  intros Hcfg Hrel Hterm _.
  exists (glob_excludes (path_sep pm) defaultExcludePatterns rel). split.
  { unfold shouldExclude. rewrite Hrel, Hcfg. cbv zeta.
    rewrite excludeLoop_plain;
      [done | apply default_patterns_plain
       | by apply split_no_line_terminator | done]. }
  rewrite glob_excludes_spec. split.
  - intros (pattern & s & Hin & Hs & Hm). exists s. split; [done |].
    unfold defaultExcludePatterns in Hin.
    repeat (apply elem_of_cons in Hin as [-> | Hin];
      [ first
          [ apply literal_name_match in Hm; [| by_computation];
            left; rewrite Hm; by_computation
          | apply (suffix_name_match ".pyc") in Hm; [| by_computation];
            destruct Hm as [stem ->]; right; left; exists stem; by left
          | apply (suffix_name_match ".pyo") in Hm; [| by_computation];
            destruct Hm as [stem ->]; right; left; exists stem; right; by left
          | apply (suffix_name_match ".pyd") in Hm; [| by_computation];
            destruct Hm as [stem ->]; right; left; exists stem; right; by right
          | apply (prefix_name_match ".env.") in Hm; [| by_computation];
            destruct Hm as [rest ->]; right; right; by exists rest ]
      | ]).
    by apply elem_of_nil in Hin.
  - intros (s & Hs & [Hname | [(stem & Hext) | (rest & ->)]]).
    + exists s, s. split; [| split; [done |]].
      * unfold defaultExcludePatterns.
        repeat (apply elem_of_cons in Hname as [-> | Hname];
                [by_computation |]).
        by apply elem_of_nil in Hname.
      * apply glob_match_literal_self.
        repeat (apply elem_of_cons in Hname as [-> | Hname]; [by_computation |]).
        by apply elem_of_nil in Hname.
    + destruct Hext as [-> | [-> | ->]].
      * exists "*.pyc", (stem +:+ ".pyc"). split; [| split; [done |]].
        -- by_computation.
        -- apply (suffix_name_match ".pyc"); [by_computation | by exists stem].
      * exists "*.pyo", (stem +:+ ".pyo"). split; [| split; [done |]].
        -- by_computation.
        -- apply (suffix_name_match ".pyo"); [by_computation | by exists stem].
      * exists "*.pyd", (stem +:+ ".pyd"). split; [| split; [done |]].
        -- by_computation.
        -- apply (suffix_name_match ".pyd"); [by_computation | by exists stem].
    + exists ".env.*", (".env." +:+ rest). split; [| split; [done |]].
      * by_computation.
      * apply (prefix_name_match ".env."); [by_computation | by exists rest].
Qed.

Lemma default_patterns_exclusion_witness :
  excludePatterns defaultSampleConfig = defaultExcludePatterns
  ∧ path_relative samplePath "/r" "/r/app/.env.local" = Some "app/.env.local"
  ∧ no_line_terminator "app/.env.local"
  ∧ no_separator "app/.env.local"
  ∧ shouldExclude samplePath defaultSampleConfig "/r/app/.env.local" "/r" = Some true.
Proof.
  assert (H1 : excludePatterns defaultSampleConfig = defaultExcludePatterns)
    by reflexivity.
  assert (H2 : path_relative samplePath "/r" "/r/app/.env.local"
               = Some "app/.env.local") by reflexivity.
  assert (H3 : no_line_terminator "app/.env.local") by (by repeat constructor).
  assert (H4 : no_separator "app/.env.local").
  { assert (Hfree : "226"%char ∉ chars "app/.env.local") by by_computation.
    intros pre post. split; intros Heq; apply Hfree; rewrite Heq;
      apply elem_of_app; right; by left. }
  split; [exact H1 |]. split; [exact H2 |]. split; [exact H3 |].
  split; [exact H4 |].
  destruct (default_patterns_exclusion samplePath defaultSampleConfig
              "/r/app/.env.local" "/r" _ H1 H2 H3 H4) as (b & -> & Hiff).
  f_equal. apply Hiff. exists ".env.local". split.
  - left. by_computation.
  - right. right. by exists "local".
Defined.

(** ** Chunk names and chunk contents *)

Lemma string_app_inv_tail (a b s : string) : a +:+ s = b +:+ s -> a = b.
Proof.
  intros H. apply chars_inj. apply (f_equal chars) in H.
  rewrite !chars_app in H. by apply app_inv_tail in H.
Qed.

Lemma chunkPath_inj (filePath : string) (n i j : nat) :
  chunkPath filePath i n = chunkPath filePath j n -> i = j.
Proof.
  unfold chunkPath. intros H.
  apply String.app_inj in H. apply (String.app_inj "#chunk") in H.
  rewrite <- !string_app_assoc in H. apply string_app_inv_tail in H.
  apply string_app_inv_tail in H. apply pretty_nat_inj in H. lia.
Qed.

Lemma join_with_app (sep : ascii) (xs ys : list string) :
  xs ≠ [] -> ys ≠ [] ->
  join_with sep (xs ++ ys) = join_with sep xs +:+ String sep (join_with sep ys).
Proof.
  intros Hxs Hys. induction xs as [|x xs IH]; [done |].
  destruct xs as [|x' xs].
  - destruct ys as [|y ys]; [done |]. reflexivity.
  - change (join_with sep ((x :: x' :: xs) ++ ys))
      with (x +:+ String sep (join_with sep ((x' :: xs) ++ ys))).
    rewrite IH by done. rewrite join_with_cons.
    rewrite string_app_assoc. reflexivity.
Qed.

Lemma join_with_concat (sep : ascii) (groups : list (list string)) :
  Forall (fun g => g ≠ []) groups ->
  join_with sep (map (join_with sep) groups) = join_with sep (concat groups).
Proof.
  induction groups as [|g groups IH]; [done |]. intros Hall.
  apply Forall_cons in Hall as [Hg Hrest].
  destruct groups as [|g' groups].
  - simpl. by rewrite app_nil_r.
  - change (map (join_with sep) (g :: g' :: groups))
      with (join_with sep g :: map (join_with sep) (g' :: groups)).
    change (join_with sep (join_with sep g :: map (join_with sep) (g' :: groups)))
      with (join_with sep g
            +:+ String sep (join_with sep (map (join_with sep) (g' :: groups)))).
    rewrite IH by done. change (concat (g :: g' :: groups))
      with (g ++ concat (g' :: groups)).
    rewrite join_with_app; [done | done |].
    apply Forall_cons in Hrest as [Hg' _]. simpl.
    destruct g'; [done | done].
Qed.

(** X5: the blobs of a file can be told apart and put together again: there is
    always at least one, no two of them have the same path, every path
    begins with the path of the file, no blob has more than
    [maxLinesPerBlob] lines, and joining the contents with newlines, in
    order, gives the content of the file. *)
Theorem chunks_distinct_and_joinable (cfg : Config) (filePath content : string) :
  0 < maxLinesPerBlob cfg ->
  let blobs := splitFileContent cfg filePath content in
  blobs ≠ []
  ∧ NoDup (map blob_path blobs)
  ∧ Forall (fun b => exists tail, blob_path b = filePath +:+ tail) blobs
  ∧ Forall (fun b => 1 <= length (blobLines b) <= maxLinesPerBlob cfg) blobs
  ∧ join_with newline (map blob_content blobs) = content.
Proof.
  intros Hm blobs.
  set (lines := split_on newline content).
  set (m := maxLinesPerBlob cfg) in *.
  pose proof (split_on_length newline content) as Hpos. fold lines in Hpos.
  destruct (decide (length lines <= m)) as [Hle | Hgt].
  - assert (Hone : blobs = [ {| blob_path := filePath; blob_content := content;
                                blob_hash := None |} ]).
    { unfold blobs, splitFileContent. by rewrite bool_decide_true. }
    rewrite Hone. split; [done |]. split; [apply NoDup_singleton |].
    split; [| split; [| done]].
    + apply Forall_singleton. exists "". simpl.
      clear. induction filePath as [|c p IH]; [done |].
      rewrite string_app_cons. by rewrite <- IH.
    + apply Forall_singleton. unfold blobLines. simpl. fold lines. lia.
  - set (n := ceil_div (length lines) m).
    assert (Hchunks : blobs = map (fun i =>
        {| blob_path := chunkPath filePath i n;
           blob_content := join_with newline (take m (drop (i * m) lines));
           blob_hash := None |}) (seq 0 n)).
    { apply splitFileContent_chunks. fold lines m. lia. }
    pose proof (ceil_div_upper (length lines) m Hm) as Hup.
    pose proof (ceil_div_lower (length lines) m Hm ltac:(lia)) as Hlow.
    pose proof (ceil_div_pos (length lines) m Hm ltac:(lia)) as Hn.
    fold n in Hup, Hlow, Hn.
    assert (Hgroup : forall i, i < n -> take m (drop (i * m) lines) ≠ []).
    { intros i Hi Hnil. apply (f_equal length) in Hnil.
      rewrite length_take, length_drop in Hnil. simpl in Hnil. nia. }
    rewrite Hchunks. split; [| split; [| split; [| split]]].
    + destruct n; [lia | done].
    + rewrite map_map. simpl. apply NoDup_fmap_2_strong; [| apply NoDup_seq].
      intros i j _ _. apply chunkPath_inj.
    + apply Forall_forall. intros b Hb.
      apply list_elem_of_fmap in Hb as (i & -> & _). simpl.
      unfold chunkPath. eexists. reflexivity.
    + apply Forall_forall. intros b Hb.
      apply list_elem_of_fmap in Hb as (i & -> & Hi).
      apply elem_of_seq in Hi. unfold blobLines. simpl.
      rewrite split_join; [| by apply Hgroup; lia
                           | apply Forall_take, Forall_drop, split_pieces_free].
      rewrite length_take, length_drop. fold m. nia.
    + rewrite map_map. simpl.
      rewrite <- (map_map (fun i => take m (drop (i * m) lines)) (join_with newline)).
      rewrite join_with_concat.
      * rewrite concat_groups, take_ge by lia. apply join_split.
      * apply Forall_forall. intros g Hg.
        apply list_elem_of_fmap in Hg as (i & -> & Hi).
        apply elem_of_seq in Hi. apply Hgroup. lia.
Qed.

Lemma chunks_distinct_and_joinable_witness :
  0 < maxLinesPerBlob sampleConfig
  ∧ NoDup (map blob_path (splitFileContent sampleConfig "f.ts" fiveLines))
  ∧ join_with newline (map blob_content (splitFileContent sampleConfig "f.ts" fiveLines))
    = fiveLines.
Proof.
  assert (Hm : 0 < maxLinesPerBlob sampleConfig) by (simpl; lia).
  split; [exact Hm |].
  destruct (chunks_distinct_and_joinable sampleConfig "f.ts" fiveLines Hm)
    as (_ & Hnd & _ & _ & Hjoin).
  split; [exact Hnd | exact Hjoin].
Defined.

(** ** Every run of the retry loop *)

Lemma backoffEffects_S (req : Request) (d a k : nat) :
  backoffEffects req d a (S k)
  = [Requested req; Waited (d * 2 ^ a)] ++ backoffEffects req d (S a) k.
Proof. reflexivity. Qed.

Lemma waitedTotal_app (xs ys : list Effect) :
  waitedTotal (xs ++ ys) = waitedTotal xs + waitedTotal ys.
Proof.
  induction xs as [|[r | ms | m] xs IH]; simpl; lia.
Qed.

Lemma waitedTotal_backoff (req : Request) (d k a : nat) :
  waitedTotal (backoffEffects req d a k) + d * 2 ^ a = d * 2 ^ (a + k).
Proof.
  revert a. induction k as [|k IH]; intros a.
  - unfold backoffEffects. simpl. by rewrite Nat.add_0_r.
  - rewrite backoffEffects_S, waitedTotal_app. simpl waitedTotal at 1.
    specialize (IH (S a)). replace (a + S k) with (S a + k) by lia.
    rewrite <- IH. rewrite Nat.pow_succ_r'. lia.
Qed.

Lemma requestsIn_app (xs ys : list Effect) :
  requestsIn (xs ++ ys) = requestsIn xs ++ requestsIn ys.
Proof. apply omap_app. Qed.

Lemma requestsIn_backoff (req : Request) (d k a : nat) :
  requestsIn (backoffEffects req d a k) = replicate k req.
Proof.
  revert a. induction k as [|k IH]; intros a; [done |].
  rewrite backoffEffects_S, requestsIn_app, IH. reflexivity.
Qed.

Lemma retryLoop_shape (env : Env) (req : Request) (n d : nat) :
  forall (r a : nat) (last : JsError) (w : World),
    a + S r = n ->
    exists cnt,
      1 <= cnt <= S r
      ∧ (retryLoop (axios_post env req) n d (S r) a last w).1
        = env_post env (requests w + (cnt - 1)) req
      ∧ (retryLoop (axios_post env req) n d (S r) a last w).2
        = {| projectsFile := projectsFile w;
             requests := requests w + cnt;
             effects := effects w ++ backoffEffects req d a (cnt - 1)
                                  ++ [Requested req] |}
      ∧ (forall i, i < cnt - 1 -> exists e,
            env_post env (requests w + i) req = Thrown e ∧ goesOn e = true)
      ∧ (cnt < S r -> forall e,
            (retryLoop (axios_post env req) n d (S r) a last w).1 = Thrown e ->
            goesOn e = false).
Proof.
  induction r as [|r IH]; intros a last w Han; rewrite retryLoop_post; cbv zeta.
  - destruct (env_post env (requests w) req) as [v | e] eqn:E.
    + exists 1. simpl. rewrite Nat.add_0_r, E, (Nat.add_1_r (requests w)).
      split; [lia |]. split; [done |]. split; [done |].
      split; [intros; lia | by intros _ e [=]].
    + exists 1. simpl. rewrite Nat.add_0_r, E, (Nat.add_1_r (requests w)).
      destruct (goesOn e) eqn:Hgo.
      * rewrite retryLoop_zero, bool_decide_false by lia.
        split; [lia |]. split; [done |]. split; [done |].
        split; intros; lia.
      * split; [lia |]. split; [done |]. split; [done |].
        split; [intros; lia | by intros _ e' [= <-]].
  - destruct (env_post env (requests w) req) as [v | e] eqn:E.
    + exists 1. simpl. rewrite Nat.add_0_r, E, (Nat.add_1_r (requests w)).
      split; [lia |]. split; [done |]. split; [done |].
      split; [intros; lia | by intros _ e [=]].
    + destruct (goesOn e) eqn:Hgo.
      * rewrite bool_decide_true by lia.
        edestruct (IH (S a) e) as (cnt & Hcnt & Hout & Hworld & Hfail & Hstop);
          [lia |].
        exists (S cnt). rewrite Hout, Hworld. cbn [projectsFile requests effects].
        split; [lia |]. split; [f_equal; lia |]. split.
        { f_equal; [lia |]. replace (S cnt - 1) with (S (cnt - 1)) by lia.
          rewrite backoffEffects_S. by rewrite <- !app_assoc. }
        split.
        { intros [|i] Hi.
          - exists e. by rewrite Nat.add_0_r.
          - destruct (Hfail i ltac:(lia)) as (e' & He' & Hgo').
            exists e'. split; [| done]. rewrite <- He'. simpl. f_equal. lia. }
        intros Hlt e' He'. apply (Hstop ltac:(lia) e').
        by rewrite Hout.
      * exists 1. simpl. rewrite Nat.add_0_r, E, (Nat.add_1_r (requests w)).
        split; [lia |]. split; [done |]. split; [done |].
        split; [intros; lia | by intros _ e' [= <-]].
Qed.

(** X6: every call of [retryRequest] around an HTTP request, whatever the
    service does: with [maxRetries] 0 nothing is sent and [null] is thrown;
    otherwise between 1 and [maxRetries] requests are sent, all of them the
    same, each but the last followed by its backoff wait and the last by
    none, so that the time spent waiting after [cnt] requests is
    [retryDelay * (2 ^ (cnt - 1) - 1)]; the outcome is the outcome of the
    last request sent, every request before it failed with an error that
    is retried, and the projects file is not touched. *)
Theorem retry_run_shape (env : Env) (req : Request) (options : RetryOptions)
    (w : World) :
  let n := default 3 (opt_maxRetries options) in
  let d := default 1000 (opt_retryDelay options) in
  let run := retryRequest (axios_post env req) options w in
  (n = 0 -> run = (Thrown NullValue, w))
  ∧ (0 < n ->
     exists cnt es,
       1 <= cnt <= n
       ∧ run.1 = env_post env (requests w + (cnt - 1)) req
       ∧ projectsFile run.2 = projectsFile w
       ∧ requests run.2 = requests w + cnt
       ∧ effects run.2 = effects w ++ es
       ∧ es = backoffEffects req d 0 (cnt - 1) ++ [Requested req]
       ∧ requestsIn es = replicate cnt req
       ∧ waitedTotal es = d * (2 ^ (cnt - 1) - 1)
       ∧ (forall i, i < cnt - 1 -> exists e,
             env_post env (requests w + i) req = Thrown e ∧ goesOn e = true)
       ∧ (cnt < n -> forall e, run.1 = Thrown e -> goesOn e = false)).
Proof.
  intros n d run. unfold run, retryRequest. fold n d. split.
  - intros ->. apply retryLoop_zero.
  - intros Hn. destruct n as [|r]; [lia |].
    destruct (retryLoop_shape env req (S r) d r 0 NullValue w eq_refl)
      as (cnt & Hcnt & Hout & Hworld & Hfail & Hstop).
    exists cnt, (backoffEffects req d 0 (cnt - 1) ++ [Requested req]).
    rewrite Hworld. cbn [projectsFile requests effects].
    split; [done |]. split; [done |]. split; [done |]. split; [done |].
    split; [done |]. split; [done |]. split.
    { rewrite requestsIn_app, requestsIn_backoff. simpl.
      replace cnt with (S (cnt - 1)) at 2 by lia.
      rewrite replicate_S_end. done. }
    split.
    { rewrite waitedTotal_app. simpl.
      pose proof (waitedTotal_backoff req d (cnt - 1) 0) as Hw.
      simpl in Hw. rewrite Nat.add_0_r.
      rewrite Nat.mul_sub_distr_l. lia. }
    split; [done | done].
Qed.

(** ** The batches of an upload *)

Lemma batchBlobsOf_group (cfg : Config) (toUpload : list Blob) (k : nat) :
  batchBlobsOf cfg toUpload k
  = take (batchSize cfg) (drop (k * batchSize cfg) toUpload).
Proof. apply slice_group. Qed.

(** X7: the batches cut the upload list into consecutive pieces: put one after
    the other they are the list, so every blob to upload is in exactly one
    batch; every batch holds at least one blob and at most [batchSize],
    and every batch but the last holds exactly [batchSize]; there is no
    batch when there is nothing to upload. *)
Theorem batches_partition (cfg : Config) (toUpload : list Blob) :
  0 < batchSize cfg ->
  let total := ceil_div (length toUpload) (batchSize cfg) in
  concat (map (batchBlobsOf cfg toUpload) (seq 0 total)) = toUpload
  ∧ (forall k, k < total ->
       1 <= length (batchBlobsOf cfg toUpload k) <= batchSize cfg)
  ∧ (forall k, S k < total ->
       length (batchBlobsOf cfg toUpload k) = batchSize cfg)
  ∧ (total = 0 <-> toUpload = []).
Proof.
  intros Hb total.
  pose proof (ceil_div_upper (length toUpload) (batchSize cfg) Hb) as Hup.
  fold total in Hup.
  assert (Hlow : 0 < length toUpload ->
                 (total - 1) * batchSize cfg < length toUpload)
    by (by apply ceil_div_lower).
  split; [| split; [| split]].
  - rewrite (map_ext _ (fun k => take (batchSize cfg)
                                   (drop (k * batchSize cfg) toUpload)))
      by apply batchBlobsOf_group.
    rewrite concat_groups. apply take_ge. lia.
  - intros k Hk. rewrite batchBlobsOf_group, length_take, length_drop.
    assert (0 < length toUpload).
    { destruct toUpload; [| simpl; lia].
      unfold total in Hk. rewrite ceil_div_zero in Hk. lia. }
    specialize (Hlow ltac:(done)). nia.
  - intros k Hk. rewrite batchBlobsOf_group, length_take, length_drop.
    assert (0 < length toUpload).
    { destruct toUpload; [| simpl; lia].
      unfold total in Hk. rewrite ceil_div_zero in Hk. lia. }
    specialize (Hlow ltac:(done)). nia.
  - split.
    + intros H0. rewrite H0 in Hup. destruct toUpload; [done | simpl in Hup; lia].
    + intros ->. apply ceil_div_zero.
Qed.

Lemma batches_partition_witness :
  0 < batchSize sampleConfig
  ∧ concat (map (batchBlobsOf sampleConfig [blobA; blobB; blobC])
                (seq 0 (ceil_div (length [blobA; blobB; blobC])
                                 (batchSize sampleConfig))))
    = [blobA; blobB; blobC].
Proof.
  assert (Hb : 0 < batchSize sampleConfig) by (simpl; lia).
  split; [exact Hb |].
  exact (proj1 (batches_partition sampleConfig [blobA; blobB; blobC] Hb)).
Defined.

(** ** The blobs chosen for upload *)

Lemma map_set_Forall (P : string * Blob -> Prop) (k : string) (v : Blob)
    (m : list (string * Blob)) :
  P (k, v) -> Forall P m -> Forall P (map_set k v m).
Proof.
  intros Hkv. induction m as [|[k' v'] m IH]; intros Hm.
  - by apply Forall_singleton.
  - apply Forall_cons in Hm as [Hhd Htl]. simpl.
    case_bool_decide; apply Forall_cons; auto.
Qed.

Lemma hashBlobs_origin (blobs : list Blob) :
  Forall (fun kv => hashOf kv.2 = kv.1
                    ∧ exists b0, b0 ∈ blobs
                                 ∧ blob_path kv.2 = blob_path b0
                                 ∧ blob_content kv.2 = blob_content b0)
         (hashBlobs blobs).
Proof.
  unfold hashBlobs.
  set (P := fun kv : string * Blob =>
              hashOf kv.2 = kv.1
              ∧ exists b0, b0 ∈ blobs
                           ∧ blob_path kv.2 = blob_path b0
                           ∧ blob_content kv.2 = blob_content b0).
  assert (Hfold : forall todo m,
            (forall b, b ∈ todo -> b ∈ blobs) -> Forall P m ->
            Forall P (fold_left
              (fun blobHashMap blob =>
                 let hash := calculateHash (blob_path blob) (blob_content blob) in
                 map_set hash {| blob_path := blob_path blob;
                                 blob_content := blob_content blob;
                                 blob_hash := Some hash |} blobHashMap)
              todo m)).
  { induction todo as [|b todo IH]; intros m Hsub Hm; [done |].
    simpl. apply IH; [intros b' Hb'; apply Hsub; by right |].
    apply map_set_Forall; [| done].
    split; [done |]. exists b. split; [apply Hsub; by left | done]. }
  apply Hfold; [done | apply Forall_nil_2].
Qed.

Lemma omap_section {A B} (f : A -> option B) (g : B -> A) (l : list A) :
  (forall x, x ∈ l -> exists y, f x = Some y ∧ g y = x) ->
  map g (omap f l) = l.
Proof.
  induction l as [|x l IH]; intros H; [done |].
  destruct (H x ltac:(by left)) as (y & Hy & Hg).
  simpl. rewrite Hy. simpl. f_equal; [done |].
  apply IH. intros x' Hx'. apply H. by right.
Qed.

Lemma blobsToUpload_lookup (blobs : list Blob) (new : list string) (h : string) :
  h ∈ map hashOf blobs ->
  exists b, map_get h (hashBlobs blobs) = Some b
            ∧ hashOf b = h ∧ blob_hash b = Some h.
Proof.
  intros Hh.
  assert (Hkey : h ∈ map_keys (hashBlobs blobs))
    by (rewrite hashBlobs_keys; by apply new_Set_elem).
  destruct (map_get_key _ _ Hkey) as [b Hb]. exists b. split; [done |].
  pose proof (map_get_elem _ _ _ Hb) as Hin.
  pose proof (hashBlobs_origin blobs) as Ho. rewrite Forall_forall in Ho.
  pose proof (hashBlobs_values blobs) as Hv. rewrite Forall_forall in Hv.
  split; [apply (Ho _ Hin) | apply (Hv _ Hin)].
Qed.

(** X8: the upload list holds one blob for every new hash, in the order of the
    new hashes: the lookup in the hash map never misses. Each of its blobs
    carries the path and content of a collected blob and the hash of the
    two, no blob is listed twice, and a collected blob has its hash in
    the list exactly when that hash is not stored for the project. *)
Theorem upload_list_exact (stored : list string) (blobs : list Blob) :
  let blobHashMap := hashBlobs blobs in
  let new := newHashes (new_Set stored) (currentHashes blobHashMap) in
  let toUpload := blobsToUpload blobHashMap new in
  map hashOf toUpload = new
  ∧ map blob_hash toUpload = map Some new
  ∧ length toUpload = length new
  ∧ NoDup toUpload
  ∧ (forall b, b ∈ toUpload ->
       exists b0, b0 ∈ blobs ∧ blob_path b = blob_path b0
                  ∧ blob_content b = blob_content b0)
  ∧ (forall b0, b0 ∈ blobs ->
       hashOf b0 ∈ map hashOf toUpload <-> hashOf b0 ∉ stored).
Proof.
  intros blobHashMap new toUpload.
  destruct (diff_members stored blobs) as (Hnd & _ & Hcur & _ & Hnew & _).
  fold blobHashMap in Hnd, Hcur, Hnew. fold new in Hnew.
  assert (Hlook : forall h, h ∈ new ->
            exists b, map_get h blobHashMap = Some b
                      ∧ hashOf b = h ∧ blob_hash b = Some h).
  { intros h Hh. apply (blobsToUpload_lookup blobs new).
    apply Hcur. by apply Hnew. }
  assert (Hmap : map hashOf toUpload = new).
  { apply omap_section. intros h Hh.
    destruct (Hlook h Hh) as (b & Hb & Hhash & _). by exists b. }
  assert (Hnew_nd : NoDup new) by apply new_Set_NoDup.
  split; [exact Hmap |]. split; [| split; [| split; [| split]]].
  - unfold toUpload, blobsToUpload. clear Hmap Hnew_nd Hnew.
    induction new as [|h new IH]; [done |].
    destruct (Hlook h ltac:(by left)) as (b & Hb & _ & Hhash).
    simpl. rewrite Hb. simpl. f_equal; [done |].
    apply IH. intros h' Hh'. apply Hlook. by right.
  - pose proof (f_equal length Hmap) as Hlen. by rewrite length_map in Hlen.
  - apply (NoDup_fmap_1 hashOf). rewrite <- Hmap in Hnew_nd. exact Hnew_nd.
  - intros b Hb. unfold toUpload, blobsToUpload in Hb.
    apply list_elem_of_omap in Hb as (h & Hh & Hget).
    apply map_get_elem in Hget.
    pose proof (hashBlobs_origin blobs) as Ho. rewrite Forall_forall in Ho.
    apply (Ho _ Hget).
  - intros b0 Hb0. rewrite Hmap, Hnew, Hcur. split; [tauto |].
    intros Hns. split; [| done]. apply list_elem_of_fmap. by exists b0.
Qed.

(** ** The traffic of an indexing pass *)







(** ** The result of an indexing pass *)

Lemma filter_seq_increasing (P : nat -> Prop) `{forall k, Decision (P k)} (n : nat) :
  forall (a i j x y : nat),
    filter P (seq a n) !! i = Some x -> filter P (seq a n) !! j = Some y ->
    i < j -> x < y.
Proof.
  induction n as [|n IH]; intros a i j x y Hi Hj Hlt; [done |].
  simpl seq in Hi, Hj. rewrite filter_cons in Hi, Hj.
  destruct (decide (P a)); [| by eapply IH].
  destruct j as [|j]; [lia |]. simpl in Hj.
  destruct i as [|i].
  - injection Hi as <-. apply list_elem_of_lookup_2 in Hj.
    apply list_elem_of_filter in Hj as [_ Hj]. apply elem_of_seq in Hj. lia.
  - simpl in Hi. eapply IH; [exact Hi | exact Hj | lia].
Qed.

Lemma failedIn_increasing (env : Env) (cfg : Config) (toUpload : list Blob)
    (w : World) (total : nat) :
  (forall i j x y,
     failedIn env cfg toUpload w total !! i = Some x ->
     failedIn env cfg toUpload w total !! j = Some y ->
     i < j -> x < y)
  ∧ Forall (fun i => 1 <= i <= total) (failedIn env cfg toUpload w total).
Proof.
  unfold failedIn. split.
  - intros i j x y Hi Hj Hlt.
    apply list_lookup_fmap_Some in Hi as (x' & -> & Hi).
    apply list_lookup_fmap_Some in Hj as (y' & -> & Hj).
    pose proof (filter_seq_increasing _ _ _ _ _ _ _ Hi Hj Hlt). lia.
  - apply Forall_forall. intros i Hi.
    apply list_elem_of_fmap in Hi as (k & -> & Hk).
    apply list_elem_of_filter in Hk as [_ Hk]. apply elem_of_seq in Hk. lia.
Qed.

Lemma passUnchanged_length (env : Env) (path : string) (w : World)
    (blobs : list Blob) :
  length (passUnchanged env path w blobs) <= length (passStored env path w)
  ∧ length (passUnchanged env path w blobs) <= length blobs.
Proof.
  destruct (diff_members (passStored env path w) blobs)
    as (_ & _ & Hcur & Hun & _ & _).
  assert (Hnd : NoDup (passUnchanged env path w blobs)) by apply new_Set_NoDup.
  split.
  - apply submseteq_length, NoDup_submseteq; [done |].
    intros h Hh. by apply Hun in Hh as [? _].
  - rewrite <- (length_map hashOf blobs).
    apply submseteq_length, NoDup_submseteq; [done |].
    intros h Hh. apply Hun in Hh as [_ Hh]. by apply Hcur.
Qed.

(** X10: the shape of every result of [indexProject], for a batch size of at
    least one and a projects file that is missing, unreadable or a mapping
    from paths to hash lists. An error result carries
    a message and nothing else. Any other result carries the normalized
    project path, the failed batch ordinals in increasing order, none
    below 1, and statistics that add up: the total is the number of hashes
    now stored for the project, it is the sum of the existing and the new
    count, the skipped count is the existing count, and the existing count
    exceeds neither the number of hashes stored before nor the number of
    blobs collected. The status is [success] exactly when no batch is
    listed as failed. *)
Theorem index_result_shape (env : Env) (cfg : Config) (path : string) (w : World) :
  0 < batchSize cfg ->
  exists r w',
    indexProject env cfg path w = (Ok r, w')
    ∧ (status r = error ->
       projectPath r = None ∧ failedBatches r = None ∧ stats r = None)
    ∧ (status r ≠ error ->
       exists s failed hashes blobs,
         env_collectFiles env path = Ok blobs
         ∧ stats r = Some s
         ∧ failedBatches r = Some failed
         ∧ projectPath r = Some (normalizePath env path)
         ∧ storedProjects (projectsFile w') !! normalizePath env path = Some hashes
         ∧ totalBlobs s = length hashes
         ∧ totalBlobs s = existingBlobs s + newBlobs s
         ∧ skippedBlobs s = existingBlobs s
         ∧ existingBlobs s <= length (passStored env path w)
         ∧ existingBlobs s <= length blobs
         ∧ (forall i j x y,
              failed !! i = Some x -> failed !! j = Some y -> i < j -> x < y)
         ∧ Forall (fun i => 1 <= i) failed
         ∧ (status r = success <-> failed = [])).
Proof.
  intros _.
  pose proof (indexProject_run env cfg path w) as Hrun.
  destruct (env_collectFiles env path) as [blobs | e] eqn:Hcollect.
  2: { eexists _, _. split; [exact Hrun |]. split; [done |]. by intros []. }
  case_bool_decide as Hlen.
  { eexists _, _. split; [exact Hrun |]. split; [done |]. by intros []. }
  cbv zeta in Hrun. destruct (env_write env) as [[e leftover]|].
  { eexists _, _. split; [exact Hrun |]. split; [done |]. by intros []. }
  eexists _, _. split; [exact Hrun |].
  pose proof (failedIn_increasing env cfg (passToUpload env path w blobs) w
                (passBatches env cfg path w blobs)) as [Hsorted Hrange].
  fold (passFailed env cfg path w blobs) in Hsorted, Hrange.
  pose proof (passUnchanged_length env path w blobs) as [Hstored Hblobs].
  split.
  { unfold passResult. cbn [status]. by destruct (passFailed env cfg path w blobs). }
  intros _.
  exists {| totalBlobs := length (passAll env cfg path w blobs);
            existingBlobs := length (passUnchanged env path w blobs);
            newBlobs := length (passUploaded env cfg path w blobs);
            skippedBlobs := length (passUnchanged env path w blobs) |},
         (passFailed env cfg path w blobs), (passAll env cfg path w blobs), blobs.
  unfold passResult.
  cbn [status stats failedBatches projectPath projectsFile storedProjects
       totalBlobs existingBlobs newBlobs skippedBlobs].
  split; [done |]. split; [done |]. split; [done |]. split; [done |].
  split; [unfold passSaved; apply lookup_insert_eq |].
  split; [done |].
  split; [unfold passAll; apply length_app |].
  split; [done |]. split; [done |]. split; [done |]. split; [done |].
  split; [eapply Forall_impl; [exact Hrange | simpl; intros; lia] |].
  by destruct (passFailed env cfg path w blobs).
Qed.

Lemma index_result_shape_witness :
  0 < batchSize sampleConfig
  ∧ exists r w',
      runBesideOther = (Ok r, w')
      ∧ (status r = error ->
         projectPath r = None ∧ failedBatches r = None ∧ stats r = None)
      ∧ (status <$> returned runBesideOther) = Some partial_success.
Proof.
  assert (H1 : 0 < batchSize sampleConfig) by (simpl; lia).
  split; [exact H1 |].
  destruct (index_result_shape envSecondFails sampleConfig "/p" worldWithOther H1)
    as (r & w' & Hrun & Herr & _).
  exists r, w'. split; [exact Hrun |]. split; [exact Herr |].
  vm_compute. reflexivity.
Defined.

(** ** A service that answers every batch with the hashes of its blobs *)



Lemma passToUpload_hashes (env : Env) (path : string) (w : World)
    (blobs : list Blob) :
  map hashOf (passToUpload env path w blobs) = passNew env path w blobs.
Proof.
  apply omap_section. intros h Hh.
  destruct (diff_members (passStored env path w) blobs)
    as (_ & _ & Hcur & _ & Hnew & _).
  destruct (blobsToUpload_lookup blobs (passNew env path w blobs) h)
    as (b & Hb & Hhash & _); [| by exists b].
  apply Hcur. by apply Hnew.
Qed.




(** ** The traffic of a search *)





(** ** The search tool *)


Lemma falsy_false (s : option string) :
  falsy s = false <-> exists x, s = Some x ∧ x ≠ "".
Proof.
  destruct s as [[|c x]|]; simpl; split; try done.
  - by intros (x & [= <-] & ?).
  - intros _. by eexists.
  - by intros (x & [=] & _).
Qed.








(** ** The filesystem walk *)

Section DirentInduction.
Variable P : Dirent -> Prop.
Hypothesis file_case : forall name content, P (File name content).
Hypothesis unreadable_case : forall name e, P (Directory name (Thrown e)).
Hypothesis directory_case :
  forall name entries, Forall P entries -> P (Directory name (Ok entries)).
Hypothesis other_case : forall name, P (Other name).

Lemma Dirent_induction : forall entry, P entry.
Proof.
  fix IH 1. intros [name content | name [entries | e] | name].
  - apply file_case.
  - apply directory_case.
    induction entries as [|entry entries IHentries]; constructor;
      [apply IH | apply IHentries].
  - apply unreadable_case.
  - apply other_case.
Qed.
End DirentInduction.

Section Walk.
Context (pm : PathModule) (node : NodeFs) (cfg : Config)
        (textExtensions : list string) (projectPath : string).

Local Abbreviation walkEntry := (walkEntry pm node cfg textExtensions projectPath).
Local Abbreviation walkEntries := (walkEntries pm node cfg textExtensions projectPath).
Local Abbreviation walkDir := (walkDir pm node cfg textExtensions projectPath).
Local Abbreviation Reached := (Reached pm node cfg projectPath).
Local Abbreviation fileBlobs := (fileBlobs pm node cfg textExtensions projectPath).
Local Abbreviation contributed := (contributed pm node cfg textExtensions projectPath).
Local Abbreviation unreadableDirectory := (unreadableDirectory pm node cfg projectPath).
Local Abbreviation excluded fullPath := (shouldExclude pm cfg fullPath projectPath).
Local Abbreviation walked_as := (walked_as pm node cfg textExtensions projectPath).

Lemma walkEntry_eq (dir : string) (entry : Dirent) (blobs : list Blob) (n : nat) :
  walkEntry dir entry blobs n
  = let fullPath := path_join node dir (dirent_name entry) in
    match excluded fullPath with
    | None => WalkUnmodelled
    | Some true => Walk blobs (S n)
    | Some false =>
        match entry with
        | Directory _ listing => walkDir fullPath listing blobs n
        | File _ _ => Walk (blobs ++ fileBlobs fullPath entry) n
        | Other _ => Walk blobs n
        end
    end.
Proof.
  destruct entry as [name [content | e] | name [entries | e] | name]; simpl;
    destruct (excluded _) as [[|]|]; try done.
  - destruct (set_has _ textExtensions); [| by rewrite app_nil_r].
    destruct (path_relative pm projectPath _); [done | by rewrite app_nil_r].
  - rewrite app_nil_r. by destruct (set_has _ textExtensions).
  - revert blobs n. induction entries as [|entry entries IH]; intros blobs n;
      [done |].
    simpl. destruct (walkEntry _ entry blobs n); try done.
Qed.

Lemma Reached_mono (dir : string) (entries entries' : list Dirent)
    (fullPath : string) (entry : Dirent) :
  (forall x, x ∈ entries -> x ∈ entries') ->
  Reached dir entries fullPath entry -> Reached dir entries' fullPath entry.
Proof.
  intros Hsub Hr. destruct Hr as [dir entries entry Hin
                                 | dir entries name below fullPath entry Hin Hex Hr].
  - apply reached_entry. by apply Hsub.
  - eapply reached_below; [apply Hsub, Hin | done | done].
Qed.

Lemma Reached_cons (dir : string) (x : Dirent) (entries : list Dirent)
    (fullPath : string) (entry : Dirent) :
  Reached dir (x :: entries) fullPath entry
  <-> Reached dir [x] fullPath entry ∨ Reached dir entries fullPath entry.
Proof.
  split.
  - intros Hr. inversion Hr as [? ? ? Hin | ? ? name below ? ? Hin Hex Hb]; subst.
    + apply elem_of_cons in Hin as [-> | Hin].
      * left. apply reached_entry. by left.
      * right. by apply reached_entry.
    + apply elem_of_cons in Hin as [<- | Hin].
      * left. eapply reached_below; [by left | done | done].
      * right. eapply reached_below; [exact Hin | done | done].
  - intros [Hr | Hr]; (eapply Reached_mono; [| exact Hr]); intros y Hy.
    + apply list_elem_of_singleton in Hy as ->. by left.
    + by right.
Qed.

Lemma Reached_single (dir : string) (x : Dirent) (fullPath : string)
    (entry : Dirent) :
  Reached dir [x] fullPath entry
  <-> (fullPath = path_join node dir (dirent_name x) ∧ entry = x)
      ∨ (exists name below,
           x = Directory name (Ok below)
           ∧ excluded (path_join node dir name) = Some false
           ∧ Reached (path_join node dir name) below fullPath entry).
Proof.
  split.
  - intros Hr. inversion Hr as [? ? ? Hin | ? ? name below ? ? Hin Hex Hb]; subst.
    + apply list_elem_of_singleton in Hin as ->. by left.
    + apply list_elem_of_singleton in Hin as <-. right. by exists name, below.
  - intros [[-> ->] | (name & below & -> & Hex & Hb)].
    + apply reached_entry. by left.
    + eapply reached_below; [by left | done | done].
Qed.

Lemma Reached_nil (dir fullPath : string) (entry : Dirent) :
  ¬ Reached dir [] fullPath entry.
Proof.
  intros Hr. inversion Hr as [? ? ? Hin | ? ? name below ? ? Hin Hex Hb]; subst;
    by apply elem_of_nil in Hin.
Qed.

Lemma walkEntries_cons (dir : string) (x : Dirent) (entries : list Dirent)
    (blobs : list Blob) (n : nat) :
  walked_as dir [x] blobs (walkEntry dir x blobs n) ->
  (forall blobs' n', walked_as dir entries blobs' (walkEntries dir entries blobs' n')) ->
  walked_as dir (x :: entries) blobs (walkEntries dir (x :: entries) blobs n).
Proof.
  intros Hx Hrest. simpl.
  destruct (walkEntry dir x blobs n) as [blobs1 n1 | e |]; [| | done].
  - destruct Hx as (added1 & -> & Hmem1 & Hok1).
    specialize (Hrest (blobs ++ added1) n1).
    destruct (walkEntries dir entries (blobs ++ added1) n1)
      as [blobs2 n2 | e |]; [| | done].
    + destruct Hrest as (added2 & -> & Hmem2 & Hok2).
      exists (added1 ++ added2). split; [by rewrite app_assoc |]. split.
      * intros b. rewrite elem_of_app, Hmem1, Hmem2. split.
        -- intros [(f & e & Hr & Hex & Hb) | (f & e & Hr & Hex & Hb)];
             exists f, e; (split; [| done]); apply Reached_cons; auto.
        -- intros (f & e & Hr & Hex & Hb).
           apply Reached_cons in Hr as [Hr | Hr]; [left | right]; by exists f, e.
      * intros e (f & name & Hr & Hex).
        apply Reached_cons in Hr as [Hr | Hr];
          [apply (Hok1 e) | apply (Hok2 e)]; by exists f, name.
    + destruct Hrest as (f & name & Hr & Hex). exists f, name.
      split; [| done]. apply Reached_cons. by right.
  - destruct Hx as (f & name & Hr & Hex). exists f, name.
    split; [| done]. apply Reached_cons. by left.
Qed.

Lemma walkEntries_as (dir : string) (entries : list Dirent) :
  Forall (fun x => forall dir blobs n,
            walked_as dir [x] blobs (walkEntry dir x blobs n)) entries ->
  forall blobs n, walked_as dir entries blobs (walkEntries dir entries blobs n).
Proof.
  induction entries as [|x entries IH]; intros Hall blobs n.
  - exists []. split; [by rewrite app_nil_r |]. split.
    + intros b. split; [by intros ?%elem_of_nil |].
      intros (f & e & Hr & _). by apply Reached_nil in Hr.
    + intros e (f & name & Hr & _). by apply Reached_nil in Hr.
  - apply Forall_cons in Hall as [Hx Hrest].
    apply walkEntries_cons; [apply Hx | intros; by apply IH].
Qed.

Lemma excluded_entry_as (dir : string) (entry : Dirent) (blobs : list Blob)
    (n : nat) :
  excluded (path_join node dir (dirent_name entry)) = Some true ->
  walked_as dir [entry] blobs (Walk blobs n).
Proof.
  intros Hex. exists []. split; [by rewrite app_nil_r |]. split.
  - intros b. split; [by intros ?%elem_of_nil |].
    intros (f & e & Hr & Hex' & _).
    apply Reached_single in Hr as [[-> ->] | (name & below & -> & Hex'' & _)];
      simpl in Hex; congruence.
  - intros e (f & name & Hr & Hex').
    apply Reached_single in Hr as [[-> Heq] | (name' & below & -> & Hex'' & _)];
      simpl in Hex; congruence.
Qed.

Lemma leaf_entry_as (dir : string) (entry : Dirent) (blobs : list Blob) (n : nat) :
  match entry with Directory _ _ => False | _ => True end ->
  excluded (path_join node dir (dirent_name entry)) = Some false ->
  walked_as dir [entry] blobs
    (Walk (blobs ++ fileBlobs (path_join node dir (dirent_name entry)) entry) n).
Proof.
  intros Hleaf Hex. eexists. split; [reflexivity |]. split.
  - intros b. split.
    + intros Hb. eexists _, entry. split; [apply reached_entry; by left | done].
    + intros (f & e & Hr & _ & Hb).
      apply Reached_single in Hr as [[-> ->] | (name & below & -> & _)]; done.
  - intros e (f & name & Hr & _).
    apply Reached_single in Hr as [[-> <-] | (name' & below & -> & _)]; done.
Qed.

Lemma walkEntry_as (entry : Dirent) :
  forall dir blobs n, walked_as dir [entry] blobs (walkEntry dir entry blobs n).
Proof.
  induction entry as [name content | name e | name below IH | name]
    using Dirent_induction; intros dir blobs n; rewrite walkEntry_eq; cbv zeta;
    destruct (excluded _) as [[|]|] eqn:Hex; try done;
    try (by apply excluded_entry_as).
  - by apply leaf_entry_as.
  - exists (path_join node dir name), name. split; [| done].
    apply (reached_entry pm node cfg projectPath dir _ (Directory name (Thrown e))).
    by left.
  - simpl walkDir. cbn [dirent_name] in *.
    pose proof (walkEntries_as (path_join node dir name) below IH blobs n) as Hw.
    destruct (walkEntries _ below blobs n) as [blobs' n' | e |]; [| | done].
    + destruct Hw as (added & -> & Hmem & Hok). exists added.
      split; [done |]. split.
      * intros b. rewrite Hmem. split.
        -- intros (f & e' & Hr & Hex' & Hb). exists f, e'.
           split; [| done]. eapply reached_below; [by left | done | done].
        -- intros (f & e' & Hr & Hex' & Hb).
           apply Reached_single in Hr
             as [[-> ->] | (n'' & below' & [= <- <-] & _ & Hr)];
             [by apply elem_of_nil in Hb | by exists f, e'].
      * intros e' (f & n'' & Hr & Hex').
        apply Reached_single in Hr
          as [[-> [=]] | (n3 & below' & [= <- <-] & _ & Hr)].
        apply (Hok e'). by exists f, n''.
    + destruct Hw as (f & n'' & Hr & Hex'). exists f, n''.
      split; [| done]. eapply reached_below; [by left | done | done].
  - rewrite <- (app_nil_r blobs) at 2.
    by apply (leaf_entry_as dir (Other name)).
Qed.
End Walk.

Example collect_sample :
  collectFiles samplePath (sampleNode sampleTree) sampleConfig sampleExtensions "/r"
  = Walk [ {| blob_path := "a.ts"; blob_content := "x"; blob_hash := None |};
           {| blob_path := "src/b.ts"; blob_content := "y"; blob_hash := None |} ]
         1.
Proof. reflexivity. Qed.

Example collect_locked :
  collectFiles samplePath (sampleNode lockedTree) sampleConfig sampleExtensions "/r"
  = WalkThrows accessDenied.
Proof. reflexivity. Qed.

Example collect_missing :
  collectFiles samplePath (sampleNode sampleTree) sampleConfig sampleExtensions "/q"
  = WalkThrows (OtherError "项目路径不存在: /q").
Proof. reflexivity. Qed.

Lemma fileBlobs_elem (pm : PathModule) (node : NodeFs) (cfg : Config)
    (textExtensions : list string) (projectPath fullPath : string)
    (entry : Dirent) (b : Blob) :
  b ∈ fileBlobs pm node cfg textExtensions projectPath fullPath entry
  <-> exists name content relativePath,
        entry = File name (Ok content)
        ∧ toLowerCase node (path_extname node name) ∈ textExtensions
        ∧ path_relative pm projectPath fullPath = Some relativePath
        ∧ b ∈ splitFileContent cfg relativePath content.
Proof.
  split.
  - destruct entry as [name [content | e] | name listing | name]; simpl;
      try (by intros ?%elem_of_nil).
    unfold set_has. case_bool_decide as Hext; [| by intros ?%elem_of_nil].
    destruct (path_relative pm projectPath fullPath) as [rel|] eqn:Hrel;
      [| by intros ?%elem_of_nil].
    intros Hb. by exists name, content, rel.
  - intros (name & content & rel & -> & Hext & Hrel & Hb). simpl.
    unfold set_has. by rewrite bool_decide_true, Hrel.
Qed.

Lemma chunk_lines_bounded (cfg : Config) (filePath content : string) :
  0 < maxLinesPerBlob cfg ->
  Forall (fun b => 1 <= length (blobLines b) <= maxLinesPerBlob cfg
                   ∧ blob_hash b = None)
         (splitFileContent cfg filePath content).
Proof.
  intros Hm.
  set (lines := split_on newline content).
  set (m := maxLinesPerBlob cfg) in *.
  pose proof (split_on_length newline content) as Hpos. fold lines in Hpos.
  destruct (decide (length lines <= m)) as [Hle | Hgt].
  - unfold splitFileContent. rewrite bool_decide_true by done.
    apply Forall_singleton. unfold blobLines. simpl. fold lines.
    split; [lia | done].
  - set (n := ceil_div (length lines) m).
    rewrite splitFileContent_chunks by (fold lines m; lia). fold lines m n.
    pose proof (ceil_div_upper (length lines) m Hm) as Hup.
    pose proof (ceil_div_lower (length lines) m Hm ltac:(lia)) as Hlow.
    fold n in Hup, Hlow.
    apply Forall_forall. intros b Hb.
    apply list_elem_of_fmap in Hb as (i & -> & Hi).
    apply elem_of_seq in Hi. unfold blobLines. simpl. split; [| done].
    assert (Him : i * m <= (n - 1) * m) by (apply Nat.mul_le_mono_r; lia).
    rewrite split_join;
      [| | apply Forall_take, Forall_drop, split_pieces_free].
    + rewrite length_take, length_drop. lia.
    + intros Hnil. apply (f_equal length) in Hnil.
      rewrite length_take, length_drop in Hnil. simpl in Hnil. lia.
Qed.

(** X15: what [collectFiles] returns when it returns. The project path exists
    and can be listed, and a blob is returned exactly when it is a piece of
    a file that the walk reaches through directories that are not
    excluded, that is not excluded itself, whose extension, in lower case,
    is a text extension, that can be read, and whose path relative to the
    project can be computed; the piece is named after that relative path.
    A file that cannot be read is skipped, but no directory that the walk
    reaches and does not exclude fails to list. With [maxLinesPerBlob]
    above 0 no returned blob has more lines than that, and none carries a
    hash yet. *)
Theorem collected_blobs (pm : PathModule) (node : NodeFs) (cfg : Config)
    (textExtensions : list string) (projectPath : string)
    (blobs : list Blob) (excludedCount : nat) :
  collectFiles pm node cfg textExtensions projectPath = Walk blobs excludedCount ->
  exists entries,
    fs_root node projectPath = Some (Ok entries)
    ∧ (forall b,
         b ∈ blobs
         <-> exists fullPath name content relativePath,
               Reached pm node cfg projectPath projectPath entries fullPath
                       (File name (Ok content))
               ∧ shouldExclude pm cfg fullPath projectPath = Some false
               ∧ toLowerCase node (path_extname node name) ∈ textExtensions
               ∧ path_relative pm projectPath fullPath = Some relativePath
               ∧ b ∈ splitFileContent cfg relativePath content)
    ∧ (forall fullPath name e,
         Reached pm node cfg projectPath projectPath entries fullPath
                 (Directory name (Thrown e)) ->
         shouldExclude pm cfg fullPath projectPath ≠ Some false)
    ∧ (0 < maxLinesPerBlob cfg ->
       Forall (fun b => 1 <= length (blobLines b) <= maxLinesPerBlob cfg
                        ∧ blob_hash b = None) blobs).
Proof.
  unfold collectFiles, walkDir.
  destruct (fs_root node projectPath) as [[entries | e]|]; [| done | done].
  intros Hwalk. exists entries. split; [done |].
  pose proof (walkEntries_as pm node cfg textExtensions projectPath projectPath
                entries) as Hw.
  specialize (Hw ltac:(apply Forall_forall; intros x _; apply walkEntry_as) [] 0).
  rewrite Hwalk in Hw. destruct Hw as (added & -> & Hmem & Hok). simpl.
  assert (Hchar : forall b,
    b ∈ added
    <-> exists fullPath name content relativePath,
          Reached pm node cfg projectPath projectPath entries fullPath
                  (File name (Ok content))
          ∧ shouldExclude pm cfg fullPath projectPath = Some false
          ∧ toLowerCase node (path_extname node name) ∈ textExtensions
          ∧ path_relative pm projectPath fullPath = Some relativePath
          ∧ b ∈ splitFileContent cfg relativePath content).
  { intros b. rewrite Hmem. unfold contributed. split.
    - intros (f & entry & Hr & Hex & Hb).
      apply fileBlobs_elem in Hb as (name & content & rel & -> & Hext & Hrel & Hb).
      by exists f, name, content, rel.
    - intros (f & name & content & rel & Hr & Hex & Hext & Hrel & Hb).
      exists f, (File name (Ok content)). split; [done |]. split; [done |].
      apply fileBlobs_elem. by exists name, content, rel. }
  split; [exact Hchar |]. split.
  - intros f name e Hr Hex. apply (Hok e). by exists f, name.
  - intros Hm. apply Forall_forall. intros b Hb.
    apply Hchar in Hb as (f & name & content & rel & _ & _ & _ & _ & Hb).
    pose proof (chunk_lines_bounded cfg rel content Hm) as Hall.
    rewrite Forall_forall in Hall. by apply Hall.
Qed.

Lemma collected_blobs_witness :
  collectFiles samplePath (sampleNode sampleTree) sampleConfig sampleExtensions "/r"
  = Walk [ {| blob_path := "a.ts"; blob_content := "x"; blob_hash := None |};
           {| blob_path := "src/b.ts"; blob_content := "y"; blob_hash := None |} ]
         1
  ∧ exists entries,
      fs_root (sampleNode sampleTree) "/r" = Some (Ok entries)
      ∧ forall fullPath name e,
          Reached samplePath (sampleNode sampleTree) sampleConfig "/r" "/r" entries
                  fullPath (Directory name (Thrown e)) ->
          shouldExclude samplePath sampleConfig fullPath "/r" ≠ Some false.
Proof.
  assert (H : collectFiles samplePath (sampleNode sampleTree) sampleConfig
                sampleExtensions "/r"
              = Walk [ {| blob_path := "a.ts"; blob_content := "x";
                          blob_hash := None |};
                       {| blob_path := "src/b.ts"; blob_content := "y";
                          blob_hash := None |} ] 1) by reflexivity.
  split; [exact H |].
  destruct (collected_blobs samplePath (sampleNode sampleTree) sampleConfig
              sampleExtensions "/r" _ _ H) as (entries & Hroot & _ & Hdirs & _).
  exists entries. split; [exact Hroot | exact Hdirs].
Defined.



(** ** Configuration *)

Lemma spread_first {A} (a b c d : Field A) :
  spread_field (spread_field (spread_field a b) c) d
  = first_present [d; c; b; a].
Proof. by destruct d, c, b, a. Qed.

Lemma loadConfig_merged (p : Settings.Process) (cliOptions config : Settings.t) :
  Settings.loadConfig p cliOptions = Ok config ->
  config = Settings.merged p cliOptions
  ∧ Settings.validateConfig config = Ok tt
  ∧ Settings.ensureConfigDir p = None
  ∧ Settings.ensureStorageDir p = None.
Proof.
  unfold Settings.loadConfig.
  destruct (Settings.ensureConfigDir p); [done |].
  destruct (Settings.ensureStorageDir p); [done |]. cbv zeta.
  destruct (Settings.validateConfig (Settings.merged p cliOptions)) as [[]|] eqn:Hv;
    [| done].
  by intros [= <-].
Qed.

(** X17: the order of precedence [loadConfig] implements, when it returns: for
    each setting the command line comes first, then the environment, then
    the settings file, then the default. The environment offers only the
    service address, the token and the two numbers, so extensions,
    exclusion patterns and the default project come from the command line
    or the file; the storage path is always the one derived from the home
    directory, whatever any source says. A variable of the environment
    counts only when it is set and not empty, and a number in it is what
    [parseInt] makes of it. *)
Theorem loadConfig_precedence (p : Settings.Process) (cliOptions config : Settings.t) :
  Settings.loadConfig p cliOptions = Ok config ->
  let file := Settings.loadConfigFromFile p in
  let env (name : string) : Field string :=
    match Settings.getenv p name with
    | Some (String c rest) => Value (String c rest)
    | _ => Missing
    end in
  let envNumber (name : string) : Field JsNumber :=
    match Settings.getenv p name with
    | Some (String c rest) => Value (Settings.parseInt p (String c rest))
    | _ => Missing
    end in
  Settings.baseUrl config
  = first_present [Settings.baseUrl cliOptions; env "MCP_ACE_BASE_URL";
                   Settings.baseUrl file]
  ∧ Settings.token config
    = first_present [Settings.token cliOptions; env "MCP_ACE_TOKEN";
                     Settings.token file]
  ∧ Settings.batchSize config
    = first_present [Settings.batchSize cliOptions; envNumber "MCP_ACE_BATCH_SIZE";
                     Settings.batchSize file; Value (Num 10)]
  ∧ Settings.maxLinesPerBlob config
    = first_present [Settings.maxLinesPerBlob cliOptions;
                     envNumber "MCP_ACE_MAX_LINES_PER_BLOB";
                     Settings.maxLinesPerBlob file; Value (Num 800)]
  ∧ Settings.textExtensions config
    = first_present [Settings.textExtensions cliOptions;
                     Settings.textExtensions file; Value defaultTextExtensions]
  ∧ Settings.excludePatterns config
    = first_present [Settings.excludePatterns cliOptions;
                     Settings.excludePatterns file; Value defaultExcludePatterns]
  ∧ Settings.defaultProject config
    = first_present [Settings.defaultProject cliOptions;
                     Settings.defaultProject file]
  ∧ Settings.storagePath config = Value (Settings.getStoragePath p).
Proof.
  intros Hload file env envNumber.
  apply loadConfig_merged in Hload as (-> & _).
  unfold Settings.merged, Settings.spread, Settings.loadConfigFromEnv,
    Settings.truthy_env, Settings.DEFAULT_CONFIG. cbn -[first_present].
  fold file. unfold env, envNumber.
  split; [| split; [| split; [| split; [| split; [| split; [| split]]]]]];
    try done.
  all: destruct (Settings.getenv p _) as [[|c rest]|]; rewrite spread_first;
    simpl; repeat case_match; done.
Qed.

Lemma loadConfig_precedence_witness :
  Settings.loadConfig (sampleProcess "50") cliMaxLines
  = Ok (Settings.merged (sampleProcess "50") cliMaxLines)
  ∧ Settings.baseUrl (Settings.merged (sampleProcess "50") cliMaxLines)
    = Value "https://env.example"
  ∧ Settings.batchSize (Settings.merged (sampleProcess "50") cliMaxLines)
    = Value (Num 50)
  ∧ Settings.storagePath (Settings.merged (sampleProcess "50") cliMaxLines)
    = Value "/home/u/.mcp-ace/data".
Proof.
  assert (H : Settings.loadConfig (sampleProcess "50") cliMaxLines
              = Ok (Settings.merged (sampleProcess "50") cliMaxLines))
    by reflexivity.
  split; [exact H |].
  destruct (loadConfig_precedence (sampleProcess "50") cliMaxLines _ H)
    as (Hurl & _ & Hbatch & _ & _ & _ & _ & Hstorage).
  split; [exact Hurl |]. split; [exact Hbatch | exact Hstorage].
Defined.



(** X19: a batch size that is not a number is let through. When the
    environment sets MCP_ACE_BATCH_SIZE to a text that [parseInt] cannot
    read and the command line gives no batch size, [NaN] takes the place
    of the batch size of the settings file and of the default, the check
    [batchSize <= 0] is false for it, and a configuration that is
    otherwise fine is returned with [NaN] as its batch size. *)
Theorem batch_size_not_a_number (p : Settings.Process) (cliOptions : Settings.t)
    (text : string) :
  Settings.getenv p "MCP_ACE_BATCH_SIZE" = Some text ->
  text ≠ "" ->
  Settings.parseInt p text = NaN ->
  Settings.batchSize cliOptions = Missing ->
  Settings.ensureConfigDir p = None ->
  Settings.ensureStorageDir p = None ->
  falsy_field (Settings.baseUrl (Settings.merged p cliOptions)) = false ->
  falsy_field (Settings.token (Settings.merged p cliOptions)) = false ->
  not_positive (Settings.maxLinesPerBlob (Settings.merged p cliOptions)) = false ->
  exists config,
    Settings.loadConfig p cliOptions = Ok config
    ∧ Settings.batchSize config = Value NaN
    ∧ Settings.forManager config = None.
Proof.
  intros Henv Htext Hnan Hcli Hdir Hdata Hurl Htoken Hlines.
  assert (Hbatch : Settings.batchSize (Settings.merged p cliOptions) = Value NaN).
  { unfold Settings.merged, Settings.spread, Settings.loadConfigFromEnv,
      Settings.truthy_env. cbn. rewrite Hcli, Henv.
    destruct text as [|c rest]; [done |]. by rewrite Hnan. }
  exists (Settings.merged p cliOptions).
  unfold Settings.loadConfig, Settings.validateConfig.
  rewrite Hdir, Hdata. cbv zeta. rewrite Hurl, Htoken, Hbatch, Hlines. simpl.
  split; [done |]. split; [done |].
  unfold Settings.forManager. by rewrite Hbatch.
Qed.

Lemma batch_size_not_a_number_witness :
  Settings.getenv (sampleProcess "many") "MCP_ACE_BATCH_SIZE" = Some "many"
  ∧ "many" ≠ ""
  ∧ Settings.parseInt (sampleProcess "many") "many" = NaN
  ∧ Settings.batchSize (Settings.loadConfigFromFile (sampleProcess "many"))
    = Value (Num 25)
  ∧ exists config,
      Settings.loadConfig (sampleProcess "many") cliMaxLines = Ok config
      ∧ Settings.batchSize config = Value NaN
      ∧ Settings.forManager config = None.
Proof.
  assert (H1 : Settings.getenv (sampleProcess "many") "MCP_ACE_BATCH_SIZE"
               = Some "many") by reflexivity.
  assert (H2 : "many" ≠ "") by discriminate.
  assert (H3 : Settings.parseInt (sampleProcess "many") "many" = NaN)
    by reflexivity.
  split; [exact H1 |]. split; [exact H2 |]. split; [exact H3 |].
  split; [reflexivity |].
  apply (batch_size_not_a_number (sampleProcess "many") cliMaxLines "many"
           H1 H2 H3); reflexivity.
Defined.

(** ** A projects file that cannot be read *)

(** X20: a projects file that is missing, or that cannot be read or parsed
    as JSON, is read as the empty mapping, and a pass with a batch size of
    at least one goes on from there: no hash counts as
    unchanged, every collected blob is put up for upload, and the file
    written at the end holds the entry of this project and no other; what
    the unreadable file held for other projects is gone. *)
Theorem unreadable_store_is_replaced (env : Env) (cfg : Config) (path : string)
    (w : World) (blobs : list Blob) :
  0 < batchSize cfg ->
  projectsFile w = FileMissing ∨ projectsFile w = FileUnreadable ->
  env_collectFiles env path = Ok blobs ->
  blobs ≠ [] ->
  env_write env = None ->
  exists r w' s,
    indexProject env cfg path w = (Ok r, w')
    ∧ stats r = Some s
    ∧ existingBlobs s = 0
    ∧ map hashOf (passToUpload env path w blobs) = passCurrent blobs
    ∧ projectsFile w'
      = FileJson {[ normalizePath env path := passUploaded env cfg path w blobs ]}
    ∧ (forall other, other ≠ normalizePath env path ->
         storedProjects (projectsFile w') !! other = None).
Proof.
  intros _ Hfile Hcollect Hne Hwrite.
  assert (Hstored : storedProjects (projectsFile w) = ∅)
    by (by destruct Hfile as [-> | ->]).
  assert (Hnone : passStored env path w = [])
    by (unfold passStored; by rewrite Hstored, lookup_empty).
  assert (Hnd : NoDup (passCurrent blobs)) by apply new_Set_NoDup.
  assert (Hunchanged : passUnchanged env path w blobs = []).
  { unfold passUnchanged. rewrite Hnone, unchangedHashes_eq by done.
    apply filter_keeps_none. intros h _. unfold set_has.
    rewrite bool_decide_false by apply not_elem_of_nil. done. }
  assert (Hnew : passNew env path w blobs = passCurrent blobs).
  { unfold passNew. rewrite Hnone, newHashes_eq by done.
    apply filter_keeps_all. intros h _. unfold set_has.
    rewrite bool_decide_false by apply not_elem_of_nil. done. }
  pose proof (indexProject_run env cfg path w) as Hrun.
  rewrite Hcollect, bool_decide_false, Hwrite in Hrun
    by (destruct blobs; [done | simpl; lia]).
  cbv zeta in Hrun. eexists _, _, _. split; [exact Hrun |].
  unfold passResult. cbn [stats existingBlobs projectsFile storedProjects].
  split; [reflexivity |]. split; [by rewrite Hunchanged |].
  split; [by rewrite passToUpload_hashes |].
  assert (Hsaved : passSaved env cfg path w blobs
                   = {[ normalizePath env path := passUploaded env cfg path w blobs ]}).
  { unfold passSaved, passAll. rewrite Hstored, Hunchanged. simpl.
    apply insert_empty. }
  rewrite Hsaved. split; [done |].
  intros other Hother. by apply lookup_singleton_ne.
Qed.

Lemma unreadable_store_is_replaced_witness :
  0 < batchSize sampleConfig
  ∧ (projectsFile worldUnreadable = FileMissing
   ∨ projectsFile worldUnreadable = FileUnreadable)
  ∧ env_collectFiles envTwoBlobs "/p" = Ok [blobA; blobB]
  ∧ [blobA; blobB] ≠ []
  ∧ env_write envTwoBlobs = None
  ∧ exists r w',
      indexProject envTwoBlobs sampleConfig "/p" worldUnreadable = (Ok r, w')
      ∧ forall other, other ≠ normalizePath envTwoBlobs "/p" ->
          storedProjects (projectsFile w') !! other = None.
Proof.
  assert (H0 : 0 < batchSize sampleConfig) by (simpl; lia).
  assert (H1 : projectsFile worldUnreadable = FileMissing
               ∨ projectsFile worldUnreadable = FileUnreadable) by (by right).
  assert (H2 : env_collectFiles envTwoBlobs "/p" = Ok [blobA; blobB])
    by reflexivity.
  assert (H3 : [blobA; blobB] ≠ []) by discriminate.
  assert (H4 : env_write envTwoBlobs = None) by reflexivity.
  split; [exact H0 |].
  split; [exact H1 |]. split; [exact H2 |]. split; [exact H3 |].
  split; [exact H4 |].
  destruct (unreadable_store_is_replaced envTwoBlobs sampleConfig "/p"
              worldUnreadable [blobA; blobB] H0 H1 H2 H3 H4)
    as (r & w' & s & Hrun & _ & _ & _ & _ & Hother).
  exists r, w'. split; [exact Hrun | exact Hother].
Defined.
